(** * Desktop duplicate cleaner: a shallow embedding of [cleaner.py]

    The development follows [fedora_desktop_cleaner/cleaner.py], class
    [DesktopDuplicateCleaner].  Python [str] values are Rocq strings, [Path]
    values are their [str()] form, the filesystem is a finite map from path
    strings to nodes, and the methods of the class are functions that pass
    the store, the statistics and the log of reported errors explicitly.
    The command line of the package ([cli.py]) and the standalone script
    ([desktop_duplicate_cleaner.py]) are embedded after the class, over the
    same store and the same primitives. *)

From Stdlib Require Import Ascii String.
From stdpp Require Import base strings list gmap sorting.

Set Warnings "-clear-no-such-hyp".

(** ** Python string operations *)

Module Str.

Definition newline : ascii := "010"%char.
Definition NL : string := String newline "".

(** [str.isspace] on one character (code points below 256). *)
Definition is_space (a : ascii) : bool :=
  match a with
  | "009" | "010" | "011" | "012" | "013"
  | "028" | "029" | "030" | "031" | " " | "133" | "160" => true
  | _ => false
  end%char.

(** [s.startswith(p)] *)
Fixpoint startswith (s p : string) : bool :=
  match p, s with
  | "", _ => true
  | String b p', String a s' => if decide (a = b) then startswith s' p' else false
  | String _ _, "" => false
  end.

(** [s.endswith(p)] *)
Fixpoint endswith (s p : string) : bool :=
  if decide (s = p) then true
  else match s with
       | "" => false
       | String _ s' => endswith s' p
       end.

(** [p in s] *)
Fixpoint contains (s p : string) : bool :=
  startswith s p ||
  match s with
  | "" => false
  | String _ s' => contains s' p
  end.

(** [c in s] for one character. *)
Fixpoint has_char (c : ascii) (s : string) : bool :=
  match s with
  | "" => false
  | String a s' => if decide (a = c) then true else has_char c s'
  end.

Fixpoint lstrip (s : string) : string :=
  match s with
  | "" => ""
  | String a s' => if is_space a then lstrip s' else s
  end.

Fixpoint rstrip (s : string) : string :=
  match s with
  | "" => ""
  | String a s' =>
      match rstrip s' with
      | "" => if is_space a then "" else String a ""
      | r => String a r
      end
  end.

(** [s.strip()] *)
Definition strip (s : string) : string := rstrip (lstrip s).

Definition lower_char (a : ascii) : ascii :=
  let n := nat_of_ascii a in
  if (65 <=? n)%nat && (n <=? 90)%nat then ascii_of_nat (n + 32)
  else if (192 <=? n)%nat && (n <=? 222)%nat && negb (n =? 215)%nat
       then ascii_of_nat (n + 32)
       else a.

(** [s.lower()] *)
Fixpoint lower (s : string) : string :=
  match s with
  | "" => ""
  | String a s' => String (lower_char a) (lower s')
  end.

(** [s.split(c)] for a one-character separator: never the empty list. *)
Fixpoint split (c : ascii) (s : string) : list string :=
  match s with
  | "" => [""]
  | String a s' =>
      if decide (a = c) then "" :: split c s'
      else match split c s' with
           | x :: xs => String a x :: xs
           | [] => [String a ""]
           end
  end.

(** [s.split(c, 1)]: [(head, None)] stands for [[head]] and
    [(head, Some rest)] for [[head, rest]]. *)
Fixpoint split1 (c : ascii) (s : string) : string * option string :=
  match s with
  | "" => ("", None)
  | String a s' =>
      if decide (a = c) then ("", Some s')
      else let '(h, r) := split1 c s' in (String a h, r)
  end.

(** [sep.join(l)] *)
Fixpoint join (sep : string) (l : list string) : string :=
  match l with
  | [] => ""
  | [x] => x
  | x :: xs => x +:+ sep +:+ join sep xs
  end.

(** [f.readlines()]: the lines of a text, each with its terminator. *)
Fixpoint readlines (s : string) : list string :=
  match s with
  | "" => []
  | String a s' =>
      if decide (a = newline) then NL :: readlines s'
      else match readlines s' with
           | l :: ls => String a l :: ls
           | [] => [String a ""]
           end
  end.

(** [f.writelines(l)] writes the concatenation. *)
Fixpoint concat (l : list string) : string :=
  match l with
  | [] => ""
  | x :: xs => x +:+ concat xs
  end.

(** Removes [p] from the front of [s] when it is there. *)
Fixpoint strip_prefix (p s : string) : option string :=
  match p, s with
  | "", _ => Some s
  | String b p', String a s' => if decide (a = b) then strip_prefix p' s' else None
  | String _ _, "" => None
  end.

(** Splits at the last occurrence of [c]. *)
Fixpoint rsplit1 (c : ascii) (s : string) : option (string * string) :=
  match s with
  | "" => None
  | String a s' =>
      match rsplit1 c s' with
      | Some (l, r) => Some (String a l, r)
      | None => if decide (a = c) then Some ("", s') else None
      end
  end.

(** Python compares strings by code point, lexicographically. *)
Definition leb (s1 s2 : string) : bool := String.leb s1 s2.

End Str.


(** ** Paths

    A [Path] is modelled by its [str()]: a normalised path string. *)

Module PathStr.

(** The directory part of a join: [d] followed by one separator. *)
Definition dir_prefix (d : string) : string :=
  if Str.endswith d "/" then d else d +:+ "/".

(** [d / rel] *)
Definition joinpath (d rel : string) : string := dir_prefix d +:+ rel.

(** [p.name]: the final component. *)
Definition name (p : string) : string :=
  match Str.rsplit1 "/" p with
  | Some (_, n) => n
  | None => p
  end.

(** The new final component of [with_suffix]: the last suffix [.ext] of
    the name (a dot that is neither its first nor its last character) is
    replaced, and a name without suffix is extended. *)
Definition replace_suffix (n suffix : string) : string :=
  match Str.rsplit1 "." n with
  | Some (stem, ext) =>
      if decide (stem = "") then n +:+ suffix
      else if decide (ext = "") then n +:+ suffix
      else stem +:+ suffix
  | None => n +:+ suffix
  end.

(** [p.with_suffix(suffix)] *)
Definition with_suffix (p suffix : string) : string :=
  match Str.rsplit1 "/" p with
  | Some (d, n) => d +:+ "/" +:+ replace_suffix n suffix
  | None => replace_suffix p suffix
  end.

(** [Some n] when [k] is the entry named [n] directly inside [d]. *)
Definition child_name (d k : string) : option string :=
  match Str.strip_prefix (dir_prefix d) k with
  | Some n => if decide (n = "") then None
              else if Str.has_char "/" n then None else Some n
  | None => None
  end.

(** A glob pattern [pre*suf] with one star, matched against a name. *)
Definition glob_match (pre suf n : string) : bool :=
  Str.startswith n pre && Str.endswith n suf &&
  (String.length pre + String.length suf <=? String.length n)%nat.

End PathStr.

(** ** The filesystem *)

Inductive node : Type :=
  | File (content : string)
  | Dir.

#[global] Instance node_eq_dec : EqDecision node.
Proof. solve_decision. Defined.

(** The operations that can fail for reasons outside the store (permissions,
    a full disk, a missing parent directory). *)
Inductive io_op : Type :=
  | OpUnlink (p : string)
  | OpRmtree (p : string)
  | OpRead (p : string)
  | OpWrite (p : string)
  | OpCopy (src dst : string).

#[global] Instance io_op_eq_dec : EqDecision io_op.
Proof. solve_decision. Defined.

Inductive exn : Type :=
  | OSError
  | IndexError
  | CleanerError
  | BackupError.

#[global] Instance exn_eq_dec : EqDecision exn.
Proof. solve_decision. Defined.

Inductive result (A : Type) : Type :=
  | Ok (a : A)
  | Raise (e : exn).
Arguments Ok {A} a.
Arguments Raise {A} e.

(** What the logger receives at warning and error level. *)
Inductive log_entry : Type :=
  | WarnRead (p : string)           (* "Error reading ..." *)
  | ErrRemove (p : string)          (* "Failed to remove ..." *)
  | ErrRemoveDir (p : string)       (* "Failed to remove directory ..." *)
  | ErrHide (p : string) (e : exn)  (* "Failed to hide ..." *)
  | ErrClean (p : string) (e : exn) (* "Failed to clean ..." *)
  | ErrRun (e : exn)                (* "Cleanup failed: ..." *)
  | WarnDesktopDatabase             (* "Failed to update desktop database" *)
  | WarnMimeDatabase.               (* "Failed to update MIME database" *)

Record Stats : Type := mkStats {
  wine_files_removed : nat;
  duplicates_hidden : nat;
  mime_duplicates_cleaned : nat;
  backups_created : nat
}.

Definition stats0 : Stats := mkStats 0 0 0 0.

(** The mutable part of a cleaner object together with the disk. *)
Record state : Type := mkState {
  disk : gmap string node;
  stats : Stats;
  log : list log_entry
}.

Definition set_disk (m : gmap string node) (st : state) : state :=
  mkState m (stats st) (log st).
Definition set_stats (s : Stats) (st : state) : state :=
  mkState (disk st) s (log st).
Definition add_log (e : log_entry) (st : state) : state :=
  mkState (disk st) (stats st) (log st ++ [e]).

(** Computations that change the state and may raise: the state reached
    when an exception is raised is kept, as in Python. *)
Definition M (A : Type) : Type := state → result A * state.

#[global] Instance M_ret : MRet M := λ A a st, (Ok a, st).
#[global] Instance M_bind : MBind M := λ A B k m st,
  match m st with
  | (Ok a, st') => k a st'
  | (Raise e, st') => (Raise e, st')
  end.

Definition raise {A} (e : exn) : M A := λ st, (Raise e, st).

(** [try: m  except ...: h e] *)
Definition try_except {A} (m : M A) (h : exn → M A) : M A := λ st,
  match m st with
  | (Ok a, st') => (Ok a, st')
  | (Raise e, st') => h e st'
  end.

Definition get_state : M state := λ st, (Ok st, st).
Definition modify (f : state → state) : M unit := λ st, (Ok tt, f st).

(** [for x in l: acc = body x acc] *)
Fixpoint for_each {A S : Type} (l : list A) (body : A → S → M S) (acc : S) : M S :=
  match l with
  | [] => mret acc
  | x :: l' => acc' ← body x acc; for_each l' body acc'
  end.

(** ** Fields extracted from a launcher file *)

Record info : Type := mkInfo {
  info_name : option string;
  info_no_display : option bool;
  info_type : option string
}.

Definition info0 : info := mkInfo None None None.

(** The text after the first [=]: [line.split('=', 1)[1]]. *)
Definition value_of (line : string) : string :=
  match Str.split1 "=" line with
  | (_, Some v) => v
  | (_, None) => ""
  end.

(** The body of the loop of [parse_desktop_file]. *)
Definition parse_line (i : info) (raw : string) : info :=
  let line := Str.strip raw in
  if Str.startswith line "Name=" then
    mkInfo (Some (value_of line)) (info_no_display i) (info_type i)
  else if Str.startswith line "NoDisplay=" then
    mkInfo (info_name i)
           (Some (bool_decide (Str.lower (value_of line) = "true")))
           (info_type i)
  else if Str.startswith line "Type=" then
    mkInfo (info_name i) (info_no_display i) (Some (value_of line))
  else i.

Definition parse_lines (lines : list string) (i : info) : info :=
  foldl parse_line i lines.

(** ** Hiding a launcher *)

(** The content written by [_create_hide_override]. *)
Definition override_content (app_name : string) : string :=
  "[Desktop Entry]" +:+ Str.NL +:+
  "Type=Application" +:+ Str.NL +:+
  "Name=" +:+ app_name +:+ Str.NL +:+
  "NoDisplay=true" +:+ Str.NL.

(** The loop of [_add_no_display] that copies the lines and adds the flag
    after the first section header; the flag [added] is [added_no_display]. *)
Fixpoint insert_flag (lines : list string) (added : bool) : list string * bool :=
  match lines with
  | [] => ([], added)
  | line :: rest =>
      if bool_decide (Str.strip line = "[Desktop Entry]") && negb added then
        let '(out, fin) := insert_flag rest true in
        (line :: ("NoDisplay=true" +:+ Str.NL) :: out, fin)
      else
        let '(out, fin) := insert_flag rest added in
        (line :: out, fin)
  end.

(** The lines written back by [_add_no_display] for the lines read. *)
Definition add_no_display_lines (lines : list string) : list string :=
  let lines := filter (λ line, Str.startswith (Str.strip line) "NoDisplay=" = false) lines in
  let '(new_lines, added_no_display) := insert_flag lines false in
  if added_no_display then new_lines
  else new_lines ++ ["[Desktop Entry]" +:+ Str.NL; "NoDisplay=true" +:+ Str.NL].

Definition add_no_display_text (content : string) : string :=
  Str.concat (add_no_display_lines (Str.readlines content)).

(** ** Cleaning an association file *)

(** The loop that drops empty and repeated entries: [unique_apps] in order
    and the set [seen]. *)
Fixpoint unique_loop (apps : list string) (unique_apps : list string)
    (seen : gset string) : list string :=
  match apps with
  | [] => unique_apps
  | app :: rest =>
      if bool_decide (app ≠ "") && bool_decide (app ∉ seen)
      then unique_loop rest (unique_apps ++ [app]) ({[app]} ∪ seen)
      else unique_loop rest unique_apps seen
  end.

Definition clean_line (line : string) : string :=
  if Str.has_char "=" line && Str.contains line ".desktop" then
    match Str.split1 "=" line with
    | (key, Some value) =>
        let apps := Str.split ";" value in
        let unique_apps := unique_loop apps [] ∅ in
        let cleaned_value := Str.join ";" unique_apps in
        let cleaned_value :=
          if bool_decide (cleaned_value ≠ "") && negb (Str.endswith cleaned_value ";")
          then cleaned_value +:+ ";" else cleaned_value in
        key +:+ "=" +:+ cleaned_value
    | (_, None) => line
    end
  else line.

(** From the text read to the text written by [_clean_mime_file]. *)
Definition clean_content (content : string) : string :=
  Str.join Str.NL (clean_line <$> Str.split Str.newline content).

(** ** Selecting the survivor *)

(** Comparison of the sort keys [(bool, str)] as Python compares tuples. *)
Definition key_lt (k1 k2 : bool * string) : bool :=
  if decide (k1.1 = k2.1) then Str.leb k1.2 k2.2 && bool_decide (k1.2 ≠ k2.2)
  else negb k1.1.

Fixpoint sorted_insert {A} (key : A → bool * string) (x : A) (l : list A) : list A :=
  match l with
  | [] => [x]
  | y :: l' => if key_lt (key y) (key x) then y :: sorted_insert key x l'
               else x :: y :: l'
  end.

(** [sorted(l, key=key)]: a stable sort. *)
Fixpoint sorted {A} (key : A → bool * string) (l : list A) : list A :=
  match l with
  | [] => []
  | x :: l' => sorted_insert key x (sorted key l')
  end.

(** Appends [p] to the list of [name] in an insertion-ordered dictionary of
    lists ([defaultdict(list)]). *)
Fixpoint group_append (name p : string) (groups : list (string * list string))
    : list (string * list string) :=
  match groups with
  | [] => [(name, [p])]
  | (n, fs) :: rest =>
      if decide (n = name) then (n, fs ++ [p]) :: rest
      else (n, fs) :: group_append name p rest
  end.

(** ** The cleaner *)

Section Cleaner.

(** [str(Path.home())] *)
Variable home : string.
(** Which operations the environment refuses. *)
Variable io_fails : io_op → bool.
(** The external indexers run by [update_caches]: exit status and effect
    on the store. *)
Variable update_desktop_database : string → gmap string node → nat * gmap string node.
Variable update_mime_database : string → gmap string node → nat * gmap string node.

Definition user_apps_dir : string := PathStr.joinpath home ".local/share/applications".
Definition system_apps_dir : string := "/usr/share/applications".
Definition user_mime_file : string := PathStr.joinpath user_apps_dir "mimeapps.list".
Definition config_mime_file : string := PathStr.joinpath home ".config/mimeapps.list".

(** *** Filesystem primitives *)

Definition exists_ (m : gmap string node) (p : string) : bool :=
  bool_decide (is_Some (m !! p)).

Definition is_dir (m : gmap string node) (p : string) : bool :=
  bool_decide (m !! p = Some Dir).

(** [k] is [d] or lies below it. *)
Definition under (d k : string) : bool :=
  bool_decide (k = d) || Str.startswith k (PathStr.dir_prefix d).

(** [d.glob("pre*suf")]: the entries directly inside [d] whose name
    matches, in the order of the directory. *)
Definition glob_hit (d pre suf k : string) : bool :=
  match PathStr.child_name d k with
  | Some n => PathStr.glob_match pre suf n
  | None => false
  end.

Definition glob (m : gmap string node) (d pre suf : string) : list string :=
  filter (λ k, glob_hit d pre suf k) (map_to_list m).*1.

(** [p.unlink()] *)
Definition fs_unlink (p : string) : M unit := λ st,
  if io_fails (OpUnlink p) then (Raise OSError, st)
  else match disk st !! p with
       | Some (File _) => (Ok tt, set_disk (delete p (disk st)) st)
       | _ => (Raise OSError, st)
       end.

(** [shutil.rmtree(d)] *)
Definition fs_rmtree (d : string) : M unit := λ st,
  if io_fails (OpRmtree d) then (Raise OSError, st)
  else match disk st !! d with
       | Some Dir =>
           (Ok tt, set_disk (filter (λ kv, under d kv.1 = false) (disk st)) st)
       | _ => (Raise OSError, st)
       end.

(** [open(p, 'r').read()] *)
Definition fs_read (p : string) : M string := λ st,
  if io_fails (OpRead p) then (Raise OSError, st)
  else match disk st !! p with
       | Some (File c) => (Ok c, st)
       | _ => (Raise OSError, st)
       end.

(** [open(p, 'w').write(c)] *)
Definition fs_write (p c : string) : M unit := λ st,
  if io_fails (OpWrite p) then (Raise OSError, st)
  else match disk st !! p with
       | Some Dir => (Raise OSError, st)
       | _ => (Ok tt, set_disk (<[p := File c]> (disk st)) st)
       end.

(** Where [shutil.copy2(src, dst)] puts the copy: inside [dst] when it is
    a directory. *)
Definition copy_target (m : gmap string node) (src dst : string) : string :=
  if is_dir m dst then PathStr.joinpath dst (PathStr.name src) else dst.

(** [shutil.copy2(src, dst)] *)
Definition fs_copy (src dst : string) : M unit := λ st,
  if io_fails (OpCopy src dst) then (Raise OSError, st)
  else match disk st !! src with
       | Some (File c) =>
           let target := copy_target (disk st) src dst in
           if bool_decide (target = src) then (Raise OSError, st)
           else match disk st !! target with
                | Some Dir => (Raise OSError, st)
                | _ => (Ok tt, set_disk (<[target := File c]> (disk st)) st)
                end
       | _ => (Raise OSError, st)
       end.

(** *** [parse_desktop_file] *)

Definition parse_desktop_file (filepath : string) : M info :=
  try_except
    (content ← fs_read filepath;
     mret (parse_lines (Str.readlines content) info0))
    (λ _, modify (add_log (WarnRead filepath));; mret info0).

(** *** [find_desktop_files] *)

Definition find_desktop_files : M (list string) :=
  st ← get_state;
  let m := disk st in
  mret ((if exists_ m system_apps_dir then glob m system_apps_dir "" ".desktop" else [])
        ++ (if exists_ m user_apps_dir then glob m user_apps_dir "" ".desktop" else [])).

(** *** [remove_wine_files] *)

Definition wine_patterns : list (string * string) :=
  [("wine-extension-", ".desktop"); ("wine-protocol-", ".desktop")].

Definition remove_file (dry_run : bool) (filepath : string) (removed_count : nat) : M nat :=
  if negb dry_run then
    try_except
      (fs_unlink filepath;; mret (removed_count + 1))
      (λ e, match e with
            | OSError => modify (add_log (ErrRemove filepath));; mret removed_count
            | _ => raise e
            end)
  else mret (removed_count + 1).

Definition remove_pattern (dry_run : bool) (pattern : string * string)
    (removed_count : nat) : M nat :=
  st ← get_state;
  let files := glob (disk st) user_apps_dir pattern.1 pattern.2 in
  for_each files (remove_file dry_run) removed_count.

Definition remove_backup_dir (dry_run : bool) (backup_dir : string)
    (removed_count : nat) : M nat :=
  st ← get_state;
  if is_dir (disk st) backup_dir then
    let wine_files_in_backup := glob (disk st) backup_dir "wine-" ".desktop" in
    if bool_decide (wine_files_in_backup ≠ []) then
      if negb dry_run then
        try_except
          (fs_rmtree backup_dir;;
           mret (removed_count + length wine_files_in_backup))
          (λ e, match e with
                | OSError => modify (add_log (ErrRemoveDir backup_dir));;
                             mret removed_count
                | _ => raise e
                end)
      else mret (removed_count + length wine_files_in_backup)
    else mret removed_count
  else mret removed_count.

Definition set_wine_files_removed (n : nat) (st : state) : state :=
  set_stats (mkStats n (duplicates_hidden (stats st))
               (mime_duplicates_cleaned (stats st)) (backups_created (stats st))) st.

Definition remove_wine_files (dry_run : bool) : M nat :=
  removed_count ← for_each wine_patterns (remove_pattern dry_run) 0;
  st ← get_state;
  let backup_dirs := glob (disk st) user_apps_dir "backup_" "" in
  removed_count ← for_each backup_dirs (remove_backup_dir dry_run) removed_count;
  modify (set_wine_files_removed removed_count);;
  mret removed_count.

(** *** [find_duplicate_applications] *)

Definition index_file (filepath : string)
    (name_to_files : list (string * list string)) : M (list (string * list string)) :=
  i ← parse_desktop_file filepath;
  match info_name i with
  | Some n =>
      if bool_decide (info_type i = Some "Application") then
        if negb (default false (info_no_display i))
        then mret (group_append n filepath name_to_files)
        else mret name_to_files
      else mret name_to_files
  | None => mret name_to_files
  end.

Definition find_duplicate_applications : M (list (string * list string)) :=
  desktop_files ← find_desktop_files;
  name_to_files ← for_each desktop_files index_file [];
  mret (filter (λ nf, 1 < length nf.2) name_to_files).

(** *** [hide_duplicate_applications] *)

Definition is_user (f : string) : bool := Str.startswith f user_apps_dir.
Definition is_system (f : string) : bool := Str.startswith f system_apps_dir.

(** The sort key of the resolver. *)
Definition sort_key (f : string) : bool * string := (is_user f, f).

Definition create_hide_override (dry_run : bool) (system_file local_file app_name : string)
    : M unit :=
  if negb dry_run then
    try_except
      (fs_write local_file (override_content app_name))
      (λ e, match e with OSError => raise CleanerError | _ => raise e end)
  else mret tt.

Definition add_no_display (dry_run : bool) (filepath : string) : M unit :=
  if dry_run then mret tt
  else
    try_except
      (content ← fs_read filepath;
       fs_write filepath (add_no_display_text content))
      (λ e, match e with OSError => raise CleanerError | _ => raise e end).

(** The body of the loop over [duplicate_files]. *)
Definition hide_file (dry_run : bool) (app_name duplicate_file : string)
    (hidden_count : nat) : M nat :=
  try_except
    (if is_system duplicate_file then
       let local_override := PathStr.joinpath user_apps_dir (PathStr.name duplicate_file) in
       create_hide_override dry_run duplicate_file local_override app_name;;
       mret (hidden_count + 1)
     else if is_user duplicate_file then
       add_no_display dry_run duplicate_file;;
       mret (hidden_count + 1)
     else mret hidden_count)
    (λ e, modify (add_log (ErrHide duplicate_file e));; mret hidden_count).

(** The body of the loop over the groups; [files_sorted[0]] raises on an
    empty list. *)
Definition hide_group (dry_run : bool) (group : string * list string)
    (hidden_count : nat) : M nat :=
  let '(app_name, files) := group in
  let files_sorted := sorted sort_key files in
  match files_sorted with
  | [] => raise IndexError
  | primary_file :: duplicate_files =>
      for_each duplicate_files (hide_file dry_run app_name) hidden_count
  end.

Definition set_duplicates_hidden (n : nat) (st : state) : state :=
  set_stats (mkStats (wine_files_removed (stats st)) n
               (mime_duplicates_cleaned (stats st)) (backups_created (stats st))) st.

Definition hide_duplicate_applications (dry_run : bool)
    (duplicates : list (string * list string)) : M nat :=
  hidden_count ← for_each duplicates (hide_group dry_run) 0;
  modify (set_duplicates_hidden hidden_count);;
  mret hidden_count.

(** *** [clean_mime_duplicates] *)

Definition incr_backups_created (st : state) : state :=
  set_stats (mkStats (wine_files_removed (stats st)) (duplicates_hidden (stats st))
               (mime_duplicates_cleaned (stats st)) (backups_created (stats st) + 1)) st.

Definition clean_mime_file (dry_run : bool) (mime_file : string) : M bool :=
  try_except
    (let backup_file := PathStr.with_suffix mime_file ".list.bak" in
     (if negb dry_run then
        fs_copy mime_file backup_file;;
        modify incr_backups_created
      else mret tt);;
     content ← fs_read mime_file;
     (if negb dry_run then fs_write mime_file (clean_content content)
      else mret tt);;
     mret true)
    (λ e, match e with OSError => raise BackupError | _ => raise e end).

Definition clean_mime_step (dry_run : bool) (mime_file : string)
    (cleaned_count : nat) : M nat :=
  st ← get_state;
  if exists_ (disk st) mime_file then
    try_except
      (ok ← clean_mime_file dry_run mime_file;
       if ok : bool then mret (cleaned_count + 1) else mret cleaned_count)
      (λ e, modify (add_log (ErrClean mime_file e));; mret cleaned_count)
  else mret cleaned_count.

Definition set_mime_duplicates_cleaned (n : nat) (st : state) : state :=
  set_stats (mkStats (wine_files_removed (stats st)) (duplicates_hidden (stats st))
               n (backups_created (stats st))) st.

Definition clean_mime_duplicates (dry_run : bool) : M nat :=
  cleaned_count ← for_each [user_mime_file; config_mime_file] (clean_mime_step dry_run) 0;
  modify (set_mime_duplicates_cleaned cleaned_count);;
  mret cleaned_count.

(** *** [update_caches] and [run] *)

Definition update_caches (dry_run : bool) : M unit :=
  if negb dry_run then
    st ← get_state;
    let '(result, m) := update_desktop_database user_apps_dir (disk st) in
    modify (set_disk m);;
    (if bool_decide (result ≠ 0) then modify (add_log WarnDesktopDatabase)
     else mret tt);;
    let mime_dir := PathStr.joinpath home ".local/share/mime" in
    st ← get_state;
    if exists_ (disk st) mime_dir then
      let '(result, m) := update_mime_database mime_dir (disk st) in
      modify (set_disk m);;
      if bool_decide (result ≠ 0) then modify (add_log WarnMimeDatabase)
      else mret tt
    else mret tt
  else mret tt.

(** The four stages of [run] that belong to the cleaner itself. *)
Definition run_stages (dry_run : bool) : M unit :=
  remove_wine_files dry_run;;
  duplicates ← find_duplicate_applications;
  hide_duplicate_applications dry_run duplicates;;
  clean_mime_duplicates dry_run;;
  mret tt.

Definition run (dry_run : bool) : M Stats :=
  try_except
    (run_stages dry_run;;
     (if negb dry_run then update_caches dry_run else mret tt);;
     st ← get_state;
     mret (stats st))
    (λ e, modify (add_log (ErrRun e));; raise CleanerError).

End Cleaner.

Arguments user_apps_dir home : assert.
Arguments user_mime_file home : assert.
Arguments config_mime_file home : assert.


(** * Vocabulary of the specification *)

(** The elements of a list in the order of their first occurrence. *)
Fixpoint dedup_first (l : list string) : list string :=
  match l with
  | [] => []
  | x :: l' => x :: filter (λ y, y ≠ x) (dedup_first l')
  end.

(** The value-list of an association line: the non-empty entries between
    separators, each once, in the order of first occurrence. *)
Definition entries_of (value : string) : list string :=
  dedup_first (filter (λ a, a ≠ "") (Str.split ";" value)).

(** A value-list written with a separator after each entry. *)
Definition render_entries (l : list string) : string :=
  Str.concat ((λ a, a +:+ ";") <$> l).

(** The three keys the extractor recognises. *)
Inductive field : Type := FName | FNoDisplay | FType.

Inductive field_value : Type :=
  | VStr (s : string)
  | VBool (b : bool).

Definition field_key (f : field) : string :=
  match f with
  | FName => "Name="
  | FNoDisplay => "NoDisplay="
  | FType => "Type="
  end.

Definition read_field (f : field) (i : info) : option field_value :=
  match f with
  | FName => VStr <$> info_name i
  | FNoDisplay => VBool <$> info_no_display i
  | FType => VStr <$> info_type i
  end.

(** The value a stripped line of key [f] stands for. *)
Definition line_value (f : field) (line : string) : field_value :=
  match f with
  | FNoDisplay => VBool (bool_decide (Str.lower (value_of line) = "true"))
  | _ => VStr (value_of line)
  end.

(** A line of the key [f]: its stripped form begins with the key. *)
Definition is_key_line (f : field) (raw : string) : bool :=
  Str.startswith (Str.strip raw) (field_key f).

(** An environment in which no operation is refused, and indexers that do
    nothing, for the examples. *)
Definition no_failure : io_op → bool := λ _, false.
Definition no_indexer : string → gmap string node → nat * gmap string node :=
  λ _ m, (0, m).

(** A text made of the given lines, each terminated. *)
Definition text_of (lines : list string) : string :=
  Str.concat ((λ l, l +:+ Str.NL) <$> lines).



(** The flag line and the header line written by [_add_no_display]. *)
Definition flag_line : string := "NoDisplay=true" +:+ Str.NL.
Definition header_line : string := "[Desktop Entry]" +:+ Str.NL.



(** ** Relations between the states before and after a computation *)

(** Every final state of [m] is related to the state it started from. *)
Definition preserves {A} (R : state → state → Prop) (m : M A) : Prop :=
  ∀ st, R st (m st).2.

(** The store is the same at every path with the property [P]. *)
Definition same_on (P : string → Prop) (st st' : state) : Prop :=
  ∀ p, P p → disk st' !! p = disk st !! p.

(** The observation [f] of the state is the same. *)
Definition same_proj {B} (f : state → B) (st st' : state) : Prop := f st' = f st.

(** The log only grows. *)
Definition log_grows (st st' : state) : Prop := ∃ es, log st' = log st ++ es.

(** [m] never raises. *)
Definition total {A} (m : M A) : Prop := ∀ st, ∃ a, (m st).1 = Ok a.


(** The paths that a suppression of [d] may write keep clear of [P]: the
    shadow file for a record below the system root, the record itself for
    one below the user root. *)
Definition clear_of (home : string) (P : string → Prop) (d : string) : Prop :=
  (is_system d = true →
     ¬ P (PathStr.joinpath (user_apps_dir home) (PathStr.name d))) ∧
  (is_system d = false → is_user home d = true → ¬ P d).

(** [p] lies below an entry of the home directory whose name begins with a
    dot; the user root and both association files do. *)
Definition home_dot (home p : string) : Prop :=
  ∃ r, p = PathStr.dir_prefix home +:+ "." +:+ r.

(** [m] returns, and what it returns satisfies [Q]. *)
Definition returns {A} (m : M A) (Q : A → Prop) : Prop :=
  ∀ st, ∃ a, (m st).1 = Ok a ∧ Q a.

(** The state after a successful [_clean_mime_file] without dry-run, for the
    file content [c] and the place [t] of the backup. *)
Definition cleaned_state (f t c : string) (st : state) : state :=
  set_disk (<[f := File (clean_content c)]> (<[t := File c]> (disk st)))
    (incr_backups_created st).

(** ** The purge, declaratively *)

(** [p.unlink()] would succeed in the store [m]. *)
Definition unlink_ok (io_fails : io_op → bool) (m : gmap string node) (p : string)
    : bool :=
  negb (io_fails (OpUnlink p)) &&
  match m !! p with Some (File _) => true | _ => false end.

(** The files counted for a backup directory. *)
Definition wine_in (m : gmap string node) (d : string) : list string :=
  glob m d "wine-" ".desktop".

(** The entry [d] is a directory with a counted file in it, and
    [shutil.rmtree(d)] would succeed. *)
Definition rmtree_ok (io_fails : io_op → bool) (m : gmap string node) (d : string)
    : bool :=
  is_dir m d && bool_decide (wine_in m d ≠ []) && negb (io_fails (OpRmtree d)).

(** The entry is in the store before and not after. *)
Definition deleted (m m' : gmap string node) (p : string) : Prop :=
  is_Some (m !! p) ∧ m' !! p = None.

#[global] Instance deleted_dec m m' p : Decision (deleted m m' p).
Proof. unfold deleted. apply _. Defined.

(** A path as the scan yields it: an entry [*.desktop] of some directory. *)
Definition scanned (d : string) : Prop :=
  ∃ root n, d = PathStr.joinpath root n ∧ n ≠ "" ∧
            Str.has_char "/" n = false ∧ Str.endswith n ".desktop" = true.

(** [open(p, 'r').read()] would succeed in the store [m]. *)
Definition read_ok (io_fails : io_op → bool) (m : gmap string node) (p : string)
    : bool :=
  negb (io_fails (OpRead p)) &&
  match m !! p with Some (File _) => true | _ => false end.

(** A backup entry that the purge counts: a directory with a matching file
    directly inside. *)
Definition counted_dir (m : gmap string node) (d : string) : bool :=
  is_dir m d && bool_decide (wine_in m d ≠ []).

(** What the purge counts in dry-run: every matching file and, for every
    counted backup directory, the matching files inside. *)
Definition purge_candidates (home : string) (m : gmap string node) : nat :=
  length (glob m (user_apps_dir home) "wine-extension-" ".desktop")
  + length (glob m (user_apps_dir home) "wine-protocol-" ".desktop")
  + sum_list_with (λ d, length (wine_in m d))
      (filter (λ d, counted_dir m d = true) (glob m (user_apps_dir home) "backup_" "")).

(** A line with its terminator. *)
Definition terminated (l : string) : Prop :=
  ∃ b, l = b +:+ Str.NL ∧ Str.has_char Str.newline b = false.

(** ** The scan, declaratively *)


(** The launcher [p] of the store [m] is a visible application named [n]:
    it can be read, and the record extracted from it has the name [n], the
    type [Application] and no true [NoDisplay]. *)
Definition visible_as (io_fails : io_op → bool) (m : gmap string node)
    (p n : string) : Prop :=
  ∃ c, io_fails (OpRead p) = false ∧ m !! p = Some (File c) ∧
       let i := parse_lines (Str.readlines c) info0 in
       info_name i = Some n ∧ info_type i = Some "Application" ∧
       info_no_display i ≠ Some true.

#[global] Instance visible_as_dec io_fails m p n : Decision (visible_as io_fails m p n).
Proof.
  unfold visible_as. destruct (m !! p) as [[c|]|] eqn:E.
  - destruct (decide (io_fails (OpRead p) = false ∧
                      info_name (parse_lines (Str.readlines c) info0) = Some n ∧
                      info_type (parse_lines (Str.readlines c) info0) = Some "Application" ∧
                      info_no_display (parse_lines (Str.readlines c) info0) ≠ Some true))
      as [H|H].
    + left. exists c. naive_solver.
    + right. intros (c' & ? & [= <-] & ?). naive_solver.
  - right. by intros (c & _ & ? & _).
  - right. by intros (c & _ & ? & _).
Defined.


#[global] Instance field_eq_dec : EqDecision field.
Proof. solve_decision. Defined.

(** * The command line: [cli.py] *)

(** The parsed arguments [args.dry_run], [args.verbose], [args.auto]. *)
Record Args : Type := mkArgs {
  args_dry_run : bool;
  args_verbose : bool;
  args_auto : bool
}.

(** What [input()] does at the prompt: it returns the line typed, or the
    user interrupts it, or the input is at its end ([EOFError]). *)
Inductive prompt : Type :=
  | Typed (response : string)
  | Interrupted
  | EndOfInput.

(** How [main] ends: with an exit code, or by an exception that nothing
    catches. *)
Inductive ending : Type :=
  | Returns (code : nat)
  | Escapes.

#[global] Instance ending_eq_dec : EqDecision ending.
Proof. solve_decision. Defined.

(** [response not in ['y', 'yes']], negated, for the lowercased answer. *)
Definition confirmed (response : string) : bool :=
  bool_decide (Str.lower response ∈ ["y"; "yes"]).

Section CommandLine.

Variable home : string.
Variable io_fails : io_op → bool.
Variable update_desktop_database : string → gmap string node → nat * gmap string node.
Variable update_mime_database : string → gmap string node → nat * gmap string node.
(** [Path.mkdir(parents=True, exist_ok=True)]: the store with the directory,
    or nothing when it raises. *)
Variable mkdir_parents : string → gmap string node → option (gmap string node).

(** [DesktopDuplicateCleaner.__init__]: the user root is created and the
    statistics start at zero. *)
Definition init : M unit := λ st,
  match mkdir_parents (user_apps_dir home) (disk st) with
  | Some m => (Ok tt, mkState m stats0 (log st))
  | None => (Raise OSError, st)
  end.

(** The second half of [main]: the cleaner is built and run inside one
    [try], and every exception gives the exit code 1. *)
Definition run_cleaner (args : Args) (st : state) : ending * state :=
  match init st with
  | (Ok _, st1) =>
      match run home io_fails update_desktop_database update_mime_database
              (args_dry_run args) st1 with
      | (Ok _, st2) => (Returns 0, st2)
      | (Raise _, st2) => (Returns 1, st2)
      end
  | (Raise _, st1) => (Returns 1, st1)
  end.

Definition main (args : Args) (answer : prompt) (st : state) : ending * state :=
  if negb (args_auto args) && negb (args_dry_run args) then
    match answer with
    | Typed response =>
        if negb (confirmed response) then (Returns 0, st)
        else run_cleaner args st
    | Interrupted => (Returns 0, st)
    | EndOfInput => (Escapes, st)
    end
  else run_cleaner args st.

End CommandLine.

(** * The standalone script: [desktop_duplicate_cleaner.py]

    The script has the class of the package in an earlier form.  Its scan
    ([find_desktop_files], [parse_desktop_file],
    [find_duplicate_applications]) is the one of the package; the other
    methods differ in what they catch and return.  Its error messages are
    recorded with the log entries of the same subject. *)

Module Script.
Section Script.

Variable home : string.
Variable io_fails : io_op → bool.
Variable update_desktop_database : string → gmap string node → nat * gmap string node.
Variable update_mime_database : string → gmap string node → nat * gmap string node.
Variable mkdir_parents : string → gmap string node → option (gmap string node).

(** *** [remove_wine_files] *)

Definition remove_file (dry_run : bool) (filepath : string) (removed_count : nat) : M nat :=
  (if negb dry_run then fs_unlink io_fails filepath else mret tt);;
  mret (removed_count + 1).

Definition remove_pattern (dry_run : bool) (pattern : string * string)
    (removed_count : nat) : M nat :=
  st ← get_state;
  let files := glob (disk st) (user_apps_dir home) pattern.1 pattern.2 in
  for_each files (remove_file dry_run) removed_count.

Definition remove_backup_dir (dry_run : bool) (backup_dir : string)
    (removed_count : nat) : M nat :=
  st ← get_state;
  if is_dir (disk st) backup_dir then
    let wine_files_in_backup := glob (disk st) backup_dir "wine-" ".desktop" in
    if bool_decide (wine_files_in_backup ≠ []) then
      (if negb dry_run then fs_rmtree io_fails backup_dir else mret tt);;
      mret (removed_count + length wine_files_in_backup)
    else mret removed_count
  else mret removed_count.

Definition remove_wine_files (dry_run : bool) : M unit :=
  removed_count ← for_each wine_patterns (remove_pattern dry_run) 0;
  st ← get_state;
  let backup_dirs := glob (disk st) (user_apps_dir home) "backup_" "" in
  removed_count ← for_each backup_dirs (remove_backup_dir dry_run) removed_count;
  modify (set_wine_files_removed removed_count).

(** *** [hide_duplicate_applications] *)

Definition create_hide_override (dry_run : bool) (system_file local_file app_name : string)
    : M unit :=
  if negb dry_run then fs_write io_fails local_file (override_content app_name)
  else mret tt.

Definition add_no_display (dry_run : bool) (filepath : string) : M unit :=
  if dry_run then mret tt
  else
    try_except
      (content ← fs_read io_fails filepath;
       fs_write io_fails filepath (add_no_display_text content))
      (λ e, modify (add_log (ErrHide filepath e))).

Definition hide_file (dry_run : bool) (app_name duplicate_file : string)
    (hidden_count : nat) : M nat :=
  if is_system duplicate_file then
    let local_override :=
      PathStr.joinpath (user_apps_dir home) (PathStr.name duplicate_file) in
    create_hide_override dry_run duplicate_file local_override app_name;;
    mret (hidden_count + 1)
  else if is_user home duplicate_file then
    add_no_display dry_run duplicate_file;;
    mret (hidden_count + 1)
  else mret hidden_count.

Definition hide_group (dry_run : bool) (group : string * list string)
    (hidden_count : nat) : M nat :=
  let '(app_name, files) := group in
  let files_sorted := sorted (sort_key home) files in
  match files_sorted with
  | [] => raise IndexError
  | primary_file :: duplicate_files =>
      for_each duplicate_files (hide_file dry_run app_name) hidden_count
  end.

Definition hide_duplicate_applications (dry_run : bool)
    (duplicates : list (string * list string)) : M unit :=
  hidden_count ← for_each duplicates (hide_group dry_run) 0;
  modify (set_duplicates_hidden hidden_count).

(** *** [clean_mime_duplicates] *)

Definition clean_mime_file (dry_run : bool) (mime_file : string) : M nat :=
  try_except
    (let backup_file := PathStr.with_suffix mime_file ".list.bak" in
     (if negb dry_run then
        fs_copy io_fails mime_file backup_file;;
        modify incr_backups_created
      else mret tt);;
     content ← fs_read io_fails mime_file;
     (if negb dry_run then fs_write io_fails mime_file (clean_content content)
      else mret tt);;
     mret 1)
    (λ e, modify (add_log (ErrClean mime_file e));; mret 0).

Definition clean_mime_step (dry_run : bool) (mime_file : string)
    (cleaned_count : nat) : M nat :=
  st ← get_state;
  if exists_ (disk st) mime_file then
    n ← clean_mime_file dry_run mime_file;
    mret (cleaned_count + n)
  else mret cleaned_count.

Definition clean_mime_duplicates (dry_run : bool) : M unit :=
  cleaned_count ← for_each [user_mime_file home; config_mime_file home]
                    (clean_mime_step dry_run) 0;
  modify (set_mime_duplicates_cleaned cleaned_count).

(** *** [update_caches], [run] and [main] *)

(** The exit status of the two commands is not looked at. *)
Definition update_caches (dry_run : bool) : M unit :=
  if negb dry_run then
    st ← get_state;
    modify (set_disk (update_desktop_database (user_apps_dir home) (disk st)).2);;
    let mime_dir := PathStr.joinpath home ".local/share/mime" in
    st ← get_state;
    if exists_ (disk st) mime_dir then
      modify (set_disk (update_mime_database mime_dir (disk st)).2)
    else mret tt
  else mret tt.

(** An exception is logged and raised again as it is. *)
Definition run (dry_run : bool) : M unit :=
  try_except
    (remove_wine_files dry_run;;
     duplicates ← find_duplicate_applications home io_fails;
     hide_duplicate_applications dry_run duplicates;;
     clean_mime_duplicates dry_run;;
     (if negb dry_run then update_caches dry_run else mret tt))
    (λ e, modify (add_log (ErrRun e));; raise e).

(** [__init__] is the one of the package; here it runs outside the [try]
    of [main], and the prompt is not guarded. *)
Definition main (args : Args) (answer : prompt) (st : state) : ending * state :=
  let run_cleaner (st : state) : ending * state :=
    match init home mkdir_parents st with
    | (Ok _, st1) =>
        match run (args_dry_run args) st1 with
        | (Ok _, st2) => (Returns 0, st2)
        | (Raise _, st2) => (Returns 1, st2)
        end
    | (Raise _, st1) => (Escapes, st1)
    end in
  if negb (args_auto args) && negb (args_dry_run args) then
    match answer with
    | Typed response =>
        if negb (confirmed response) then (Returns 1, st)
        else run_cleaner st
    | Interrupted => (Escapes, st)
    | EndOfInput => (Escapes, st)
    end
  else run_cleaner st.

End Script.
End Script.

(** * Facts about the string operations *)

Module StrFacts.
Import Str.

Lemma sapp_nil_l (s : string) : "" +:+ s = s.
Proof. reflexivity. Qed.

Lemma sapp_cons (a : ascii) (s t : string) : String a s +:+ t = String a (s +:+ t).
Proof. reflexivity. Qed.

Lemma sapp_char (c : ascii) (s : string) : String c "" +:+ s = String c s.
Proof. reflexivity. Qed.

Lemma sapp_nil_r (s : string) : s +:+ "" = s.
Proof. induction s as [|a s IH]; [done|]. by rewrite sapp_cons, IH. Qed.

Lemma sapp_assoc (s t u : string) : (s +:+ t) +:+ u = s +:+ (t +:+ u).
Proof. induction s as [|a s IH]; [done|]. by rewrite !sapp_cons, IH. Qed.

Lemma sapp_length (s t : string) :
  String.length (s +:+ t) = String.length s + String.length t.
Proof. induction s as [|a s IH]; [done|]. rewrite sapp_cons. simpl. by rewrite IH. Qed.

Lemma sapp_inv_head (s t u : string) : s +:+ t = s +:+ u → t = u.
Proof. apply (inj (String.app s)). Qed.

Lemma sapp_eq_nil (s t : string) : s +:+ t = "" → s = "" ∧ t = "".
Proof. destruct s; [done|]. by rewrite sapp_cons. Qed.

Lemma sapp_inv_tail (s t u : string) : s +:+ u = t +:+ u → s = t.
Proof.
  revert t. induction s as [|a s IH]; intros [|b t] H; try done.
  - exfalso. apply (f_equal String.length) in H.
    rewrite sapp_nil_l, sapp_cons in H. simpl in H. rewrite sapp_length in H. lia.
  - exfalso. apply (f_equal String.length) in H.
    rewrite sapp_nil_l, sapp_cons in H. simpl in H. rewrite sapp_length in H. lia.
  - rewrite !sapp_cons in H. injection H as -> H. f_equal. by apply IH.
Qed.

(** ** [startswith] and [strip_prefix] *)

Lemma startswith_nil (s : string) : startswith s "" = true.
Proof. by destruct s. Qed.

Lemma startswith_cons (a b : ascii) (s p : string) :
  startswith (String a s) (String b p) = bool_decide (a = b) && startswith s p.
Proof.
  simpl. case_decide.
  - by rewrite bool_decide_eq_true_2.
  - by rewrite bool_decide_eq_false_2.
Qed.

Lemma startswith_app (p r : string) : startswith (p +:+ r) p = true.
Proof.
  induction p as [|a p IH]; [apply startswith_nil|].
  rewrite sapp_cons. simpl. by rewrite decide_True.
Qed.

Lemma startswith_spec (s p : string) :
  startswith s p = true ↔ ∃ r, s = p +:+ r.
Proof.
  split.
  - revert s. induction p as [|b p IH]; intros s H.
    + by exists s.
    + destruct s as [|a s]; [done|]. simpl in H.
      case_decide; [|done]. subst. destruct (IH _ H) as [r ->]. by exists r.
  - intros [r ->]. apply startswith_app.
Qed.

Lemma startswith_refl (s : string) : startswith s s = true.
Proof. apply startswith_spec. exists "". by rewrite sapp_nil_r. Qed.

Lemma startswith_trans (s p q : string) :
  startswith s p = true → startswith p q = true → startswith s q = true.
Proof.
  rewrite !startswith_spec. intros [r ->] [r' ->]. exists (r' +:+ r).
  by rewrite sapp_assoc.
Qed.

Lemma startswith_app_same (x s p : string) :
  startswith (x +:+ s) (x +:+ p) = startswith s p.
Proof.
  induction x as [|a x IH]; [done|]. rewrite !sapp_cons. simpl. by rewrite decide_True.
Qed.

(** Two prefixes of one string are comparable. *)
Lemma startswith_comparable (s p q : string) :
  startswith s p = true → startswith s q = true →
  startswith p q = true ∨ startswith q p = true.
Proof.
  revert p q. induction s as [|a s IH]; intros [|b p] [|c q] Hp Hq; simpl in *;
    try done; auto.
  repeat case_decide; try done; subst; try done.
  destruct (IH _ _ Hp Hq); [left|right]; done.
Qed.

Lemma startswith_length (s p : string) :
  startswith s p = true → String.length p ≤ String.length s.
Proof. intros [r ->]%startswith_spec. rewrite sapp_length. lia. Qed.

Lemma strip_prefix_spec (p s r : string) :
  strip_prefix p s = Some r ↔ s = p +:+ r.
Proof.
  revert s. induction p as [|b p IH]; intros s.
  - destruct s; simpl; rewrite sapp_nil_l; naive_solver.
  - destruct s as [|a s]; simpl; [by rewrite sapp_cons|].
    rewrite sapp_cons. case_decide.
    + subst. rewrite IH. split; [by intros ->|]. intros Heq. by injection Heq.
    + split; [done|]. intros Heq. by injection Heq.
Qed.

Lemma strip_prefix_app (p r : string) : strip_prefix p (p +:+ r) = Some r.
Proof. by apply strip_prefix_spec. Qed.

Lemma strip_prefix_startswith (p s : string) :
  is_Some (strip_prefix p s) ↔ startswith s p = true.
Proof.
  rewrite startswith_spec. split.
  - intros [r Hr]. exists r. by apply strip_prefix_spec.
  - intros [r ->]. exists r. apply strip_prefix_app.
Qed.

(** ** [has_char] *)

Lemma has_char_app (c : ascii) (s t : string) :
  has_char c (s +:+ t) = has_char c s || has_char c t.
Proof.
  induction s as [|a s IH]; [done|]. rewrite sapp_cons. simpl.
  case_decide; [done|]. apply IH.
Qed.

(** A pattern without [c] cannot start across a [c]. *)
Lemma startswith_across (c : ascii) (x y p : string) :
  has_char c p = false →
  startswith (x +:+ String c y) p = startswith x p.
Proof.
  revert x. induction p as [|b p IH]; intros x Hp.
  - by rewrite !startswith_nil.
  - simpl in Hp. case_decide; [done|].
    destruct x as [|a x].
    + rewrite sapp_nil_l. simpl. by rewrite decide_False by done.
    + rewrite sapp_cons. simpl. case_decide; [|done]. by apply IH.
Qed.

(** ** [contains] *)

Lemma contains_startswith (s p : string) :
  startswith s p = true → contains s p = true.
Proof. intros H. destruct s, p; simpl in *; try done. by rewrite H. Qed.

Lemma contains_cons_r (a : ascii) (s p : string) :
  contains s p = true → contains (String a s) p = true.
Proof. intros H. change (startswith (String a s) p || contains s p = true).
       rewrite H. apply orb_true_r. Qed.

Lemma contains_tail (a : ascii) (s p : string) :
  contains (String a s) p = false → contains s p = false.
Proof.
  intros H. apply not_true_is_false. intros Hc.
  by rewrite (contains_cons_r a s p Hc) in H.
Qed.

(** ** [endswith] *)

Lemma endswith_spec (s p : string) :
  endswith s p = true ↔ ∃ r, s = r +:+ p.
Proof.
  split.
  - induction s as [|a s IH]; simpl; case_decide; subst; try done.
    + by exists "".
    + by exists "".
    + intros [r ->]%IH. by exists (String a r).
  - intros [r ->]. induction r as [|a r IH].
    + rewrite sapp_nil_l. destruct p; simpl; [done|]. by case_decide.
    + rewrite sapp_cons. simpl. case_decide; [done|]. apply IH.
Qed.

Lemma endswith_app (r p : string) : endswith (r +:+ p) p = true.
Proof. apply endswith_spec. by exists r. Qed.

Lemma endswith_length (s p : string) :
  endswith s p = true → String.length p ≤ String.length s.
Proof. intros [r ->]%endswith_spec. rewrite sapp_length. lia. Qed.

(** A one-character suffix of a non-empty right part. *)
Lemma endswith_char_app (x y : string) (c : ascii) :
  y ≠ "" → endswith (x +:+ y) (String c "") = endswith y (String c "").
Proof.
  intros Hy. apply eq_true_iff_eq. rewrite !endswith_spec. split.
  - intros [r Hr]. revert x r Hr. induction y as [|b y IH]; [done|].
    intros x r Hr. destruct y as [|b' y].
    + exists "". rewrite sapp_nil_l.
      assert (x = r ∧ b = c) as [_ ->]; [|done].
      clear IH Hy. revert r Hr. induction x as [|a x IH]; intros [|a' r] Hr.
      * rewrite !sapp_nil_l in Hr. by injection Hr.
      * rewrite sapp_nil_l, sapp_cons in Hr. injection Hr as _ Hr.
        by destruct r.
      * rewrite sapp_nil_l, sapp_cons in Hr. injection Hr as _ Hr.
        by destruct x.
      * rewrite !sapp_cons in Hr. injection Hr as -> Hr.
        destruct (IH _ Hr) as [-> ->]. done.
    + destruct (IH ltac:(done) (x +:+ String b "") r) as [r' Hr'].
      { by rewrite sapp_assoc. }
      exists (String b r'). by rewrite sapp_cons, <-Hr'.
  - intros [r ->]. exists (x +:+ r). by rewrite sapp_assoc.
Qed.

Lemma endswith_char_has (s : string) (c : ascii) :
  endswith s (String c "") = true → has_char c s = true.
Proof.
  intros [r ->]%endswith_spec. rewrite has_char_app. simpl.
  rewrite decide_True by done. by rewrite orb_true_r.
Qed.

(** ** [split1] *)

Lemma split1_no (c : ascii) (s : string) :
  has_char c s = false → split1 c s = (s, None).
Proof.
  induction s as [|a s IH]; [done|]. simpl. case_decide; [done|].
  intros ?. by rewrite IH.
Qed.

Lemma split1_app (c : ascii) (k v : string) :
  has_char c k = false → split1 c (k +:+ String c v) = (k, Some v).
Proof.
  induction k as [|a k IH].
  - intros _. rewrite sapp_nil_l. simpl. by rewrite decide_True.
  - simpl. case_decide; [done|]. intros ?. by rewrite IH.
Qed.

Lemma split1_some (c : ascii) (s : string) :
  has_char c s = true →
  ∃ k v, split1 c s = (k, Some v) ∧ s = k +:+ String c v ∧ has_char c k = false.
Proof.
  induction s as [|a s IH]; [done|]. simpl. case_decide.
  - subst. intros _. by exists "", s.
  - intros (k & v & -> & -> & Hk)%IH. exists (String a k), v.
    split_and!; [done|done|]. simpl. by rewrite decide_False.
Qed.

(** ** [split] and [join] *)

Lemma split_nonempty (c : ascii) (s : string) : split c s ≠ [].
Proof.
  induction s as [|a s IH]; [done|]. simpl. case_decide; [done|].
  by destruct (split c s).
Qed.

Lemma split_no (c : ascii) (s : string) : has_char c s = false → split c s = [s].
Proof.
  induction s as [|a s IH]; [done|]. simpl. case_decide; [done|].
  intros ?. by rewrite IH.
Qed.

Lemma split_app (c : ascii) (x s : string) :
  has_char c x = false → split c (x +:+ String c s) = x :: split c s.
Proof.
  induction x as [|a x IH].
  - intros _. rewrite sapp_nil_l. simpl. by rewrite decide_True.
  - simpl. case_decide; [done|]. intros ?. by rewrite IH.
Qed.

Lemma split_elem_no_char (c : ascii) (s x : string) :
  x ∈ split c s → has_char c x = false.
Proof.
  revert x. induction s as [|a s IH]; intros x; simpl.
  - by intros ->%list_elem_of_singleton.
  - case_decide.
    + intros [->|?]%elem_of_cons; [done|]. by apply IH.
    + destruct (split c s) as [|y ys] eqn:E.
      { by destruct (split_nonempty c s). }
      intros [->|?]%elem_of_cons.
      * simpl. rewrite decide_False by done. apply IH. by left.
      * apply IH. by right.
Qed.

Lemma join_cons (sep x y : string) (l : list string) :
  join sep (x :: y :: l) = x +:+ sep +:+ join sep (y :: l).
Proof. done. Qed.


Lemma split_join (c : ascii) (l : list string) :
  l ≠ [] → Forall (λ x, has_char c x = false) l →
  split c (join (String c "") l) = l.
Proof.
  induction l as [|x l IH]; [done|]. intros _ Hl.
  apply Forall_cons in Hl as [Hx Hl]. destruct l as [|y l].
  - simpl. by apply split_no.
  - rewrite join_cons, sapp_char, split_app by done. by rewrite IH.
Qed.

Lemma join_no_char (c : ascii) (sep : string) (l : list string) :
  has_char c sep = false → Forall (λ x, has_char c x = false) l →
  has_char c (join sep l) = false.
Proof.
  intros Hsep. induction l as [|x l IH]; [done|]. intros Hl.
  apply Forall_cons in Hl as [Hx Hl]. destruct l as [|y l]; [done|].
  rewrite join_cons, !has_char_app, Hx, Hsep. by apply IH.
Qed.

(** ** [readlines] and [concat] *)

Lemma sconcat_app (l k : list string) : concat (l ++ k) = concat l +:+ concat k.
Proof. induction l as [|x l IH]; [done|]. simpl. by rewrite IH, sapp_assoc. Qed.

Lemma concat_readlines (s : string) : concat (readlines s) = s.
Proof.
  induction s as [|a s IH]; [done|]. simpl. case_decide.
  - subst. simpl. by rewrite IH.
  - destruct (readlines s) as [|l ls]; simpl in *.
    + by subst.
    + rewrite sapp_cons. by rewrite IH.
Qed.

Lemma readlines_line (b s : string) :
  has_char newline b = false → readlines (b +:+ NL +:+ s) = (b +:+ NL) :: readlines s.
Proof.
  induction b as [|a b IH].
  - intros _. rewrite !sapp_nil_l. unfold NL. rewrite sapp_char. reflexivity.
  - simpl. case_decide; [done|]. intros ?. by rewrite IH.
Qed.

Lemma readlines_concat (ls : list string) :
  Forall terminated ls → readlines (concat ls) = ls.
Proof.
  induction ls as [|l ls IH]; [done|]. intros Hl.
  apply Forall_cons in Hl as [(b & -> & Hb) Hl]. simpl.
  rewrite sapp_assoc, readlines_line by done. by rewrite IH.
Qed.

Lemma readlines_nonempty (a : ascii) (s : string) : readlines (String a s) ≠ [].
Proof. simpl. case_decide; [done|]. by destruct (readlines s). Qed.

Lemma readlines_terminated_nl (s : string) :
  Forall terminated (readlines (s +:+ NL)).
Proof.
  induction s as [|a s IH].
  - rewrite sapp_nil_l. simpl. apply Forall_cons. split; [|done]. by exists "".
  - rewrite ?sapp_cons. simpl. case_decide.
    + apply Forall_cons. split; [by exists ""|done].
    + destruct (readlines (s +:+ NL)) as [|l ls] eqn:E.
      { destruct s; [done|]. by destruct (readlines_nonempty a0 (s +:+ NL)). }
      apply Forall_cons in IH as [(b & -> & Hb) Hl].
      apply Forall_cons. split; [|done]. exists (String a b).
      split; [done|]. simpl. by rewrite decide_False.
Qed.

Lemma readlines_terminated (s : string) :
  s = "" ∨ endswith s NL = true → Forall terminated (readlines s).
Proof.
  intros [->|[r ->]%endswith_spec]; [done|]. apply readlines_terminated_nl.
Qed.

End StrFacts.

(** * Facts about lists *)

Section ListFacts.
Context {A : Type}.

Lemma filter_none (P : A → Prop) `{!∀ x, Decision (P x)} (l : list A) :
  (∀ x, x ∈ l → ¬ P x) → filter P l = [].
Proof.
  induction l as [|x l IH]; [done|]. intros Hl.
  rewrite filter_cons_False by (apply Hl; by left).
  apply IH. intros y Hy. apply Hl. by right.
Qed.

Lemma filter_all (P : A → Prop) `{!∀ x, Decision (P x)} (l : list A) :
  (∀ x, x ∈ l → P x) → filter P l = l.
Proof.
  induction l as [|x l IH]; [done|]. intros Hl.
  rewrite filter_cons_True by (apply Hl; by left). f_equal.
  apply IH. intros y Hy. apply Hl. by right.
Qed.

Lemma filter_ext_elem (P Q : A → Prop) `{!∀ x, Decision (P x), !∀ x, Decision (Q x)}
    (l : list A) :
  (∀ x, x ∈ l → P x ↔ Q x) → filter P l = filter Q l.
Proof.
  induction l as [|x l IH]; [done|]. intros Hl.
  rewrite !filter_cons. rewrite IH by (intros y Hy; apply Hl; by right).
  apply decide_ext. apply Hl. by left.
Qed.


End ListFacts.

(** * Running computations *)

Lemma run_bind {A B} (m : M A) (k : A → M B) (st : state) :
  (m ≫= k) st =
  match m st with
  | (Ok a, st') => k a st'
  | (Raise e, st') => (Raise e, st')
  end.
Proof. reflexivity. Qed.

Lemma run_ret {A} (a : A) (st : state) : (mret a : M A) st = (Ok a, st).
Proof. reflexivity. Qed.

Lemma run_try {A} (m : M A) (h : exn → M A) (st : state) :
  try_except m h st =
  match m st with
  | (Ok a, st') => (Ok a, st')
  | (Raise e, st') => h e st'
  end.
Proof. reflexivity. Qed.

Ltac munfold :=
  unfold mbind, M_bind, mret, M_ret, try_except, modify, get_state, raise in *.

#[global] Instance same_on_preorder (P : string → Prop) : PreOrder (same_on P).
Proof.
  split.
  - by intros st p _.
  - intros st1 st2 st3 H12 H23 p Hp. by rewrite H23, H12.
Qed.

#[global] Instance same_proj_preorder {B} (f : state → B) : PreOrder (same_proj f).
Proof.
  split.
  - by intros st.
  - intros st1 st2 st3 H12 H23. unfold same_proj in *. congruence.
Qed.

#[global] Instance log_grows_preorder : PreOrder log_grows.
Proof.
  split.
  - intros st. exists []. by rewrite app_nil_r.
  - intros st1 st2 st3 [es1 H1] [es2 H2]. exists (es1 ++ es2).
    by rewrite H2, H1, (assoc_L (++)).
Qed.

Section Preserves.
Context (R : state → state → Prop) `{!PreOrder R}.

Lemma preserves_ret {A} (a : A) : preserves R (mret a : M A).
Proof. intros st. simpl. reflexivity. Qed.

Lemma preserves_raise {A} (e : exn) : preserves R (raise e : M A).
Proof. intros st. simpl. reflexivity. Qed.

Lemma preserves_get : preserves R get_state.
Proof. intros st. simpl. reflexivity. Qed.

Lemma preserves_modify (f : state → state) :
  (∀ st, R st (f st)) → preserves R (modify f).
Proof. intros Hf st. apply Hf. Qed.

Lemma preserves_bind {A B} (m : M A) (k : A → M B) :
  preserves R m → (∀ a, preserves R (k a)) → preserves R (m ≫= k).
Proof.
  intros Hm Hk st. rewrite run_bind. specialize (Hm st).
  destruct (m st) as [[a|e] st']; simpl in *; [|done].
  etrans; [exact Hm|apply Hk].
Qed.

Lemma preserves_try {A} (m : M A) (h : exn → M A) :
  preserves R m → (∀ e, preserves R (h e)) → preserves R (try_except m h).
Proof.
  intros Hm Hh st. rewrite run_try. specialize (Hm st).
  destruct (m st) as [[a|e] st']; simpl in *; [done|].
  etrans; [exact Hm|apply Hh].
Qed.

Lemma preserves_for_each {A S} (l : list A) (body : A → S → M S) (acc : S) :
  (∀ x a, x ∈ l → preserves R (body x a)) → preserves R (for_each l body acc).
Proof.
  revert acc. induction l as [|x l IH]; intros acc Hbody; simpl.
  - apply preserves_ret.
  - apply preserves_bind; [apply Hbody; by left|].
    intros a. apply IH. intros y b Hy. apply Hbody. by right.
Qed.

End Preserves.

(** Totality of the combinators. *)
Lemma total_ret {A} (a : A) : total (mret a : M A).
Proof. intros st. by exists a. Qed.

Lemma total_bind {A B} (m : M A) (k : A → M B) :
  total m → (∀ a, total (k a)) → total (m ≫= k).
Proof.
  intros Hm Hk st. rewrite run_bind. destruct (Hm st) as [a Ha].
  destruct (m st) as [[a'|e] st']; simpl in *; [|done]. apply Hk.
Qed.

Lemma total_try {A} (m : M A) (h : exn → M A) :
  (∀ e, total (h e)) → total (try_except m h).
Proof.
  intros Hh st. rewrite run_try.
  destruct (m st) as [[a|e] st']; simpl; [by exists a|apply Hh].
Qed.

Lemma total_for_each {A S} (l : list A) (body : A → S → M S) (acc : S) :
  (∀ x a, x ∈ l → total (body x a)) → total (for_each l body acc).
Proof.
  revert acc. induction l as [|x l IH]; intros acc Hbody; simpl.
  - apply total_ret.
  - apply total_bind; [apply Hbody; by left|].
    intros a. apply IH. intros y b Hy. apply Hbody. by right.
Qed.

Lemma total_modify (f : state → state) : total (modify f).
Proof. intros st. by exists tt. Qed.

Lemma total_get : total get_state.
Proof. intros st. by exists st. Qed.

Lemma total_raise_free {A} (m : M A) (st : state) :
  total m → ∃ a st', m st = (Ok a, st').
Proof. intros Hm. destruct (Hm st) as [a Ha]. destruct (m st) as [r st']. simpl in *. subst. eauto. Qed.

Lemma returns_ret {A} (a : A) (Q : A → Prop) : Q a → returns (mret a : M A) Q.
Proof. intros Ha st. by exists a. Qed.

Lemma returns_bind {A B} (m : M A) (k : A → M B) (Q : B → Prop) :
  total m → (∀ a, returns (k a) Q) → returns (m ≫= k) Q.
Proof.
  intros Hm Hk st. rewrite run_bind. destruct (Hm st) as [a Ha].
  destruct (m st) as [[a'|e] st']; simpl in *; [|done]. apply Hk.
Qed.

Lemma returns_total_bind {A B} (m : M A) (k : A → M B) (Q : A → Prop) :
  returns m Q → (∀ a, Q a → total (k a)) → total (m ≫= k).
Proof.
  intros Hm Hk st. rewrite run_bind. destruct (Hm st) as (a & Ha & HQ).
  destruct (m st) as [[a'|e] st']; simpl in *; [|done].
  injection Ha as ->. by apply Hk.
Qed.

(** * The association-line cleaner *)

Section CleanLine.
Import Str StrFacts.

Lemma dedup_first_elem (l : list string) (x : string) :
  x ∈ dedup_first l ↔ x ∈ l.
Proof.
  induction l as [|y l IH]; [done|]. simpl.
  rewrite !elem_of_cons, list_elem_of_filter, IH.
  destruct (decide (x = y)); naive_solver.
Qed.

Lemma dedup_first_NoDup (l : list string) : NoDup (dedup_first l).
Proof.
  induction l as [|y l IH]; simpl; [constructor|].
  constructor; [|by apply NoDup_filter].
  rewrite list_elem_of_filter. naive_solver.
Qed.

Lemma dedup_first_sublist (l : list string) : dedup_first l `sublist_of` l.
Proof.
  induction l as [|y l IH]; simpl; [done|].
  apply sublist_skip. etrans; [apply sublist_filter|done].
Qed.


Lemma dedup_first_filter (Q : string → Prop) `{!∀ x, Decision (Q x)}
    (l : list string) :
  filter Q (dedup_first l) = dedup_first (filter Q l).
Proof.
  induction l as [|x l IH]; [done|]. simpl.
  destruct (decide (Q x)) as [Hq|Hq].
  - rewrite !filter_cons_True by done. simpl. f_equal.
    rewrite <-IH. rewrite !list_filter_filter. apply list_filter_iff. naive_solver.
  - rewrite !filter_cons_False by done.
    rewrite <-IH. rewrite list_filter_filter.
    apply list_filter_iff. intros y. split; [naive_solver|].
    intros Hy. split; [done|]. by intros ->.
Qed.

(** The loop with its [seen] set computes the first occurrences. *)
Lemma unique_loop_spec (apps acc : list string) (seen : gset string) :
  unique_loop apps acc seen =
  acc ++ dedup_first (filter (λ a, a ≠ "" ∧ a ∉ seen) apps).
Proof.
  revert acc seen. induction apps as [|a apps IH]; intros acc seen; simpl.
  - by rewrite app_nil_r.
  - destruct (decide (a ≠ "")) as [Ha|Ha];
      [destruct (decide (a ∉ seen)) as [Hs|Hs]|].
    + rewrite !bool_decide_eq_true_2 by done. simpl.
      rewrite IH, filter_cons_True by done. simpl.
      rewrite <-(assoc_L (++)). simpl. do 2 f_equal.
      rewrite dedup_first_filter, list_filter_filter.
      f_equal. apply list_filter_iff. set_solver.
    + rewrite (bool_decide_eq_false_2 (a ∉ seen)) by done.
      rewrite andb_false_r, IH, filter_cons_False; [done|]. naive_solver.
    + rewrite (bool_decide_eq_false_2 (a ≠ "")) by done. simpl.
      rewrite IH, filter_cons_False; [done|]. naive_solver.
Qed.

Lemma unique_loop_entries (value : string) :
  unique_loop (split ";" value) [] ∅ = entries_of value.
Proof.
  rewrite unique_loop_spec. simpl. unfold entries_of. f_equal.
  apply list_filter_iff. set_solver.
Qed.

Lemma entries_of_elem (value a : string) :
  a ∈ entries_of value ↔ a ∈ split ";" value ∧ a ≠ "".
Proof.
  unfold entries_of. rewrite dedup_first_elem, list_elem_of_filter. naive_solver.
Qed.

Lemma entries_of_clean (value : string) :
  Forall (λ a, a ≠ "" ∧ has_char ";" a = false) (entries_of value).
Proof.
  apply Forall_forall. intros a [Ha Hne]%entries_of_elem.
  split; [done|]. by eapply split_elem_no_char.
Qed.

Lemma join_nonempty (sep x : string) (l : list string) :
  x ≠ "" → join sep (x :: l) ≠ "".
Proof.
  intros Hx. destruct l as [|y l]; [done|]. rewrite join_cons.
  by intros [? _]%sapp_eq_nil.
Qed.

Lemma join_render (l : list string) :
  l ≠ [] → join ";" l +:+ ";" = render_entries l.
Proof.
  induction l as [|x l IH]; [done|]. intros _. destruct l as [|y l].
  - unfold render_entries. simpl. by rewrite sapp_nil_r.
  - rewrite join_cons, !sapp_assoc, IH by done.
    unfold render_entries. simpl. by rewrite !sapp_assoc.
Qed.

Lemma join_not_endswith (l : list string) :
  l ≠ [] → Forall (λ a, a ≠ "" ∧ has_char ";" a = false) l →
  endswith (join ";" l) ";" = false.
Proof.
  induction l as [|x l IH]; [done|]. intros _ Hl.
  apply Forall_cons in Hl as [[Hx Hc] Hl]. destruct l as [|y l].
  - simpl. apply not_true_is_false. intros H%endswith_char_has. congruence.
  - rewrite join_cons.
    assert (join ";" (y :: l) ≠ "") as Hj.
    { apply join_nonempty. by apply Forall_cons in Hl as [[? _] _]. }
    rewrite endswith_char_app; [|by intros [? _]%sapp_eq_nil].
    rewrite endswith_char_app by done. by apply IH.
Qed.

(** The value written for the entries kept. *)
Lemma cleaned_value_render (l : list string) :
  Forall (λ a, a ≠ "" ∧ has_char ";" a = false) l →
  (if bool_decide (join ";" l ≠ "") && negb (endswith (join ";" l) ";")
   then join ";" l +:+ ";" else join ";" l) = render_entries l.
Proof.
  intros Hl. destruct l as [|x l]; [done|].
  rewrite join_not_endswith by done.
  rewrite bool_decide_eq_true_2.
  - simpl negb. cbv iota. simpl andb. by apply join_render.
  - apply join_nonempty. by apply Forall_cons in Hl as [[? _] _].
Qed.

Lemma render_entries_split (l : list string) :
  Forall (λ a, a ≠ "" ∧ has_char ";" a = false) l → l ≠ [] →
  split ";" (render_entries l) = l ++ [""].
Proof.
  intros Hl Hne. rewrite <-join_render by done.
  assert (join ";" l +:+ ";" = join ";" (l ++ [""])) as ->.
  { clear Hl. induction l as [|x l IH]; [done|]. destruct l as [|y l]; [done|].
    change ((x :: y :: l) ++ [""]) with (x :: y :: (l ++ [""])).
    rewrite !join_cons, !sapp_assoc. do 2 f_equal. by apply IH. }
  apply split_join; [by destruct l|].
  apply Forall_app. split; [|by repeat constructor].
  eapply Forall_impl; [done|]. naive_solver.
Qed.

Lemma render_entries_endswith (l : list string) :
  endswith (render_entries l) ";" = true ↔ l ≠ [].
Proof.
  split.
  - by intros H ->.
  - intros Hl. rewrite <-join_render by done. apply endswith_app.
Qed.

(** What [clean_line] writes for a line with the signature. *)
Lemma clean_line_hit (key value : string) :
  has_char "=" key = false →
  contains (key +:+ "=" +:+ value) ".desktop" = true →
  clean_line (key +:+ "=" +:+ value) = key +:+ "=" +:+ render_entries (entries_of value).
Proof.
  intros Hk Hd. unfold clean_line.
  rewrite has_char_app, Hd. simpl has_char. rewrite orb_true_r. simpl andb. cbv iota.
  rewrite sapp_char, split1_app by done.
  rewrite unique_loop_entries. cbv zeta.
  rewrite cleaned_value_render; [done|]. apply entries_of_clean.
Qed.

Lemma clean_line_miss (line : string) :
  has_char "=" line = false ∨ contains line ".desktop" = false →
  clean_line line = line.
Proof.
  intros [H|H]; unfold clean_line; rewrite H; [done|]. by rewrite andb_false_r.
Qed.










End CleanLine.

(** [C2] For every line of an association file that contains both [=] and
    [.desktop], the cleaned line keeps the key; its value-list has no
    duplicate and no empty entry, keeps the input entries in the order of
    their first occurrence, and ends with [;] exactly when it is non-empty.
    The line [Key=a.desktop;b.desktop;a.desktop;;c.desktop] becomes
    [Key=a.desktop;b.desktop;c.desktop;], and a line without [=] or without
    [.desktop] is written unchanged. *)
Theorem clean_line_association (line : string) :
  Str.has_char "=" line = true →
  Str.contains line ".desktop" = true →
  ∃ key value : string,
    line = key +:+ "=" +:+ value ∧
    Str.has_char "=" key = false ∧
    clean_line line = key +:+ "=" +:+ render_entries (entries_of value) ∧
    NoDup (entries_of value) ∧
    ("" ∉ entries_of value) ∧
    (∀ a, a ∈ entries_of value ↔ a ∈ Str.split ";" value ∧ a ≠ "") ∧
    entries_of value `sublist_of` Str.split ";" value ∧
    (entries_of value ≠ [] →
       Str.split ";" (render_entries (entries_of value)) = entries_of value ++ [""]) ∧
    (entries_of value = [] → render_entries (entries_of value) = "") ∧
    (Str.endswith (render_entries (entries_of value)) ";" = true ↔ entries_of value ≠ []) ∧
    clean_line "Key=a.desktop;b.desktop;a.desktop;;c.desktop"
      = "Key=a.desktop;b.desktop;c.desktop;" ∧
    (∀ other : string,
       Str.has_char "=" other = false ∨ Str.contains other ".desktop" = false →
       clean_line other = other).
Proof.
  intros He Hd.
  destruct (StrFacts.split1_some _ _ He) as (key & value & _ & -> & Hk).
  exists key, value. rewrite <-StrFacts.sapp_char in *.
  split_and!; try done.
  - by apply clean_line_hit.
  - apply dedup_first_NoDup.
  - rewrite entries_of_elem. naive_solver.
  - apply entries_of_elem.
  - unfold entries_of. etrans; [apply dedup_first_sublist|apply sublist_filter].
  - intros Hne. apply render_entries_split; [apply entries_of_clean|done].
  - by intros ->.
  - apply render_entries_endswith.
  - apply clean_line_miss.
Qed.

Lemma clean_line_association_witness :
  ∃ key value : string,
    "text/plain=a.desktop;a.desktop" = key +:+ "=" +:+ value ∧
    clean_line "text/plain=a.desktop;a.desktop"
      = key +:+ "=" +:+ render_entries (entries_of value).
Proof.
  destruct (clean_line_association "text/plain=a.desktop;a.desktop")
    as (key & value & H1 & _ & H2 & _); [reflexivity|reflexivity|].
  exists key, value. split; assumption.
Defined.

(** * The record extractor *)

Section Parse.
Import Str StrFacts.

Lemma key_exclusive (f g : field) (l : string) :
  startswith l (field_key f) = true → f ≠ g → startswith l (field_key g) = false.
Proof.
  intros [r ->]%startswith_spec Hfg. destruct f, g; try done; reflexivity.
Qed.

Lemma parse_line_key (f : field) (i : info) (raw : string) :
  is_key_line f raw = true →
  read_field f (parse_line i raw) = Some (line_value f (strip raw)).
Proof.
  unfold is_key_line, parse_line. intros Hf. destruct f; simpl in *.
  - by rewrite Hf.
  - rewrite (key_exclusive FNoDisplay FName) by done. by rewrite Hf.
  - rewrite (key_exclusive FType FName), (key_exclusive FType FNoDisplay) by done.
    by rewrite Hf.
Qed.

Lemma parse_line_other (f : field) (i : info) (raw : string) :
  is_key_line f raw = false →
  read_field f (parse_line i raw) = read_field f i.
Proof.
  unfold is_key_line, parse_line. intros Hf.
  destruct f; simpl in *; rewrite ?Hf; repeat case_match; done.
Qed.

Lemma parse_lines_other (f : field) (lines : list string) (i : info) :
  (∀ y, y ∈ lines → is_key_line f y = false) →
  read_field f (parse_lines lines i) = read_field f i.
Proof.
  revert i. induction lines as [|l lines IH]; intros i Hl; [done|].
  unfold parse_lines in *. simpl. rewrite IH.
  - apply parse_line_other, Hl. by left.
  - intros y Hy. apply Hl. by right.
Qed.

(** The last line of a key decides the field. *)
Lemma parse_lines_last (f : field) (pre post : list string) (x : string) (i : info) :
  is_key_line f x = true →
  (∀ y, y ∈ post → is_key_line f y = false) →
  read_field f (parse_lines (pre ++ x :: post) i) = Some (line_value f (strip x)).
Proof.
  intros Hx Hpost. unfold parse_lines. rewrite foldl_app. simpl.
  fold (parse_lines post (parse_line (foldl parse_line i pre) x)).
  rewrite parse_lines_other by done. by apply parse_line_key.
Qed.

End Parse.

(** [C4], as the code has it: when a launcher file has several lines of one
    recognised key ([Name=], [NoDisplay=], [Type=]), the extractor keeps the
    value of the last such line in file order; each such line overwrites
    the value of the earlier ones. *)
Theorem parse_desktop_file_last_wins (io_fails : io_op → bool) (st : state)
    (filepath content : string) (f : field) (pre post : list string) (x : string) :
  io_fails (OpRead filepath) = false →
  disk st !! filepath = Some (File content) →
  Str.readlines content = pre ++ x :: post →
  is_key_line f x = true →
  (∀ y, y ∈ post → is_key_line f y = false) →
  ∃ i, parse_desktop_file io_fails filepath st = (Ok i, st) ∧
       read_field f i = Some (line_value f (Str.strip x)).
Proof.
  intros Hio Hfile Hlines Hx Hpost.
  exists (parse_lines (Str.readlines content) info0). split.
  - unfold parse_desktop_file, fs_read. munfold. by rewrite Hio, Hfile.
  - rewrite Hlines. by apply parse_lines_last.
Qed.

Lemma parse_desktop_file_last_wins_witness :
  ∃ i, parse_desktop_file no_failure "/usr/share/applications/x.desktop"
         (mkState {[ "/usr/share/applications/x.desktop" := File (text_of ["Name=A"; "Name=B"; "Type=Application"]) ]} stats0 [])
       = (Ok i, mkState {[ "/usr/share/applications/x.desktop" := File (text_of ["Name=A"; "Name=B"; "Type=Application"]) ]} stats0 [])
       ∧ read_field FName i = Some (VStr "B").
Proof.
  apply (parse_desktop_file_last_wins no_failure _ _
           (text_of ["Name=A"; "Name=B"; "Type=Application"]) FName
           ["Name=A" +:+ Str.NL] ["Type=Application" +:+ Str.NL] ("Name=B" +:+ Str.NL)).
  - reflexivity.
  - reflexivity.
  - reflexivity.
  - reflexivity.
  - intros y Hy. apply list_elem_of_singleton in Hy. subst y. reflexivity.
Defined.

(** [C4] as stated fails: in a file with the lines [Name=A] and [Name=B]
    the extracted name is [B], not the [A] of the first line, and the
    second line changes the record. *)
Lemma parse_desktop_file_first_loses :
  ∃ i, parse_desktop_file no_failure "/usr/share/applications/x.desktop"
         (mkState {[ "/usr/share/applications/x.desktop" := File (text_of ["Name=A"; "Name=B"]) ]} stats0 [])
       = (Ok i, mkState {[ "/usr/share/applications/x.desktop" := File (text_of ["Name=A"; "Name=B"]) ]} stats0 [])
       ∧ info_name i = Some "B"
       ∧ info_name i ≠ Some "A"
       ∧ parse_line (parse_line info0 ("Name=A" +:+ Str.NL)) ("Name=B" +:+ Str.NL)
         ≠ parse_line info0 ("Name=A" +:+ Str.NL).
Proof.
  eexists. split; [reflexivity|]. split; [reflexivity|]. split; discriminate.
Qed.

(** * In-place suppression *)

Section AddNoDisplay.
Import Str StrFacts.

Lemma insert_flag_added (lines : list string) : insert_flag lines true = (lines, true).
Proof.
  induction lines as [|l lines IH]; [done|]. simpl.
  rewrite andb_false_r. by rewrite IH.
Qed.



Lemma flag_line_terminated : terminated flag_line.
Proof. by exists "NoDisplay=true". Qed.

Lemma header_line_terminated : terminated header_line.
Proof. by exists "[Desktop Entry]". Qed.


End AddNoDisplay.




(** * Facts about paths *)

Module PathFacts.
Import Str StrFacts PathStr.

Lemma dir_prefix_cases (d : string) :
  (endswith d "/" = true ∧ dir_prefix d = d) ∨
  (endswith d "/" = false ∧ dir_prefix d = d +:+ "/").
Proof. unfold dir_prefix. destruct (endswith d "/"); auto. Qed.

(** A directory prefix is some [b] followed by one separator, and [b] is
    a prefix of the directory. *)
Lemma dir_prefix_split (d : string) :
  ∃ b, dir_prefix d = b +:+ "/" ∧ startswith d b = true.
Proof.
  destruct (dir_prefix_cases d) as [[He ->]|[_ ->]].
  - apply endswith_spec in He as [b ->]. exists b. split; [done|].
    apply startswith_app.
  - exists d. split; [done|]. apply startswith_refl.
Qed.

Lemma startswith_dir_prefix (d : string) : startswith (dir_prefix d) d = true.
Proof.
  destruct (dir_prefix_cases d) as [[_ ->]|[_ ->]];
    [apply startswith_refl|apply startswith_app].
Qed.

Lemma joinpath_startswith (d rel : string) : startswith (joinpath d rel) d = true.
Proof.
  unfold joinpath. eapply startswith_trans; [apply startswith_app|].
  apply startswith_dir_prefix.
Qed.

(** ** Final components *)

Lemma rsplit1_none (c : ascii) (s : string) :
  has_char c s = false → rsplit1 c s = None.
Proof.
  induction s as [|a s IH]; [done|]. simpl. case_decide; [done|].
  intros ?. by rewrite IH.
Qed.

Lemma rsplit1_app (c : ascii) (x n : string) :
  has_char c n = false → rsplit1 c (x +:+ String c n) = Some (x, n).
Proof.
  intros Hn. induction x as [|a x IH].
  - rewrite sapp_nil_l. simpl. rewrite rsplit1_none by done. by case_decide.
  - rewrite sapp_cons. simpl. by rewrite IH.
Qed.

Lemma rsplit1_right_no_char (c : ascii) (s l r : string) :
  rsplit1 c s = Some (l, r) → has_char c r = false.
Proof.
  revert l. induction s as [|a s IH]; intros l; [done|]. simpl.
  destruct (rsplit1 c s) as [[l' r']|] eqn:E.
  - intros [= <- <-]. by eapply IH.
  - case_decide; [|done]. intros [= <- <-].
    clear IH. induction s as [|b s IH]; [done|]. simpl in *.
    destruct (rsplit1 c s) as [[??]|]; [done|].
    case_decide; [done|]. by apply IH.
Qed.

Lemma name_no_slash (p : string) :
  has_char "/" p = false ∨ has_char "/" (name p) = false.
Proof.
  unfold name. destruct (rsplit1 "/" p) as [[l r]|] eqn:E.
  - right. by eapply rsplit1_right_no_char.
  - destruct (has_char "/" p) eqn:Hp; [|by left]. right.
    clear -E Hp. induction p as [|a p IH]; [done|]. simpl in *.
    destruct (rsplit1 "/" p) as [[??]|]; [done|].
    case_decide; [done|]. by apply IH.
Qed.

Lemma name_has_no_slash (p : string) : has_char "/" (name p) = false.
Proof.
  destruct (name_no_slash p) as [Hp|Hp]; [|done].
  unfold name. by rewrite rsplit1_none.
Qed.

Lemma name_app (x n : string) :
  has_char "/" n = false → name (x +:+ "/" +:+ n) = n.
Proof. intros Hn. unfold name. rewrite sapp_char. by rewrite rsplit1_app. Qed.

Lemma name_joinpath (d n : string) :
  has_char "/" n = false → name (joinpath d n) = n.
Proof.
  intros Hn. unfold joinpath. destruct (dir_prefix_split d) as (b & -> & _).
  rewrite sapp_assoc. by apply name_app.
Qed.

Lemma with_suffix_app (x n suffix : string) :
  has_char "/" n = false →
  with_suffix (x +:+ "/" +:+ n) suffix = x +:+ "/" +:+ replace_suffix n suffix.
Proof. intros Hn. unfold with_suffix. rewrite sapp_char. by rewrite rsplit1_app. Qed.

(** ** Entries of a directory *)

Lemma child_name_spec (d k n : string) :
  child_name d k = Some n ↔
  k = joinpath d n ∧ n ≠ "" ∧ has_char "/" n = false.
Proof.
  unfold child_name, joinpath. split.
  - destruct (strip_prefix (dir_prefix d) k) as [r|] eqn:E; [|done].
    apply strip_prefix_spec in E. repeat case_decide; try done.
    destruct (has_char "/" r) eqn:Hr; [done|]. by intros [= <-].
  - intros (-> & Hn & Hs). rewrite strip_prefix_app.
    rewrite decide_False by done. by rewrite Hs.
Qed.

Lemma joinpath_inj (d n1 n2 : string) : joinpath d n1 = joinpath d n2 → n1 = n2.
Proof. apply sapp_inv_head. Qed.

Lemma endswith_slash_app (x n : string) :
  n ≠ "" → has_char "/" n = false → endswith (x +:+ n) "/" = false.
Proof.
  intros Hn Hs. rewrite endswith_char_app by done.
  apply not_true_is_false. intros H%endswith_char_has. congruence.
Qed.

(** The prefix of an entry [d / n] is the entry followed by a separator. *)
Lemma dir_prefix_joinpath (d n : string) :
  n ≠ "" → has_char "/" n = false →
  dir_prefix (joinpath d n) = joinpath d n +:+ "/".
Proof.
  intros Hn Hs. unfold dir_prefix at 1, joinpath.
  by rewrite endswith_slash_app.
Qed.

End PathFacts.

(** * The layout of the two roots *)

Module Layout.
Import Str StrFacts PathStr PathFacts.

(** A string without [/.] that does not end with [/] is a prefix of
    [b/.r] only when it is a prefix of [b]. *)
Lemma prefix_before_slash_dot (t b r : string) :
  contains t "/." = false → endswith t "/" = false →
  startswith (b +:+ "/." +:+ r) t = true → startswith b t = true.
Proof.
  revert t. induction b as [|a b IH]; intros t Hc He Hs.
  - rewrite sapp_nil_l in Hs. destruct t as [|c t]; [done|].
    exfalso. change ("/." +:+ r) with (String "/" (String "." r)) in Hs.
    simpl in Hs. case_decide; [subst|done].
    destruct t as [|c' t]; [done|].
    simpl in Hs. case_decide; [subst|done].
    simpl in Hc. by rewrite startswith_nil in Hc.
  - destruct t as [|c t]; [done|]. rewrite sapp_cons in Hs. simpl in *.
    case_decide; [subst|done]. apply IH; [| |done].
    + by apply orb_false_iff in Hc as [_ ?].
    + by case_decide.
Qed.

Lemma slash_dot_inside (t b r : string) :
  startswith t (b +:+ "/." +:+ r) = true → contains t "/." = true.
Proof.
  revert t. induction b as [|a b IH]; intros t Hs.
  - rewrite sapp_nil_l in Hs. apply contains_startswith.
    apply startswith_spec in Hs as [r' Hr'].
    apply startswith_spec. exists (r +:+ r').
    by rewrite Hr', !sapp_assoc.
  - destruct t as [|c t]; [done|]. rewrite sapp_cons in Hs. simpl in Hs.
    case_decide; [|done]. apply contains_cons_r. by apply IH.
Qed.

Section Home.
Variable home : string.
Hypothesis home_outside : startswith home system_apps_dir = false.

(** No path below [home/.] has the system root as a string prefix. *)
Lemma home_dot_not_system (r : string) :
  is_system (dir_prefix home +:+ "." +:+ r) = false.
Proof.
  unfold is_system. apply not_true_is_false. intros Hs.
  destruct (dir_prefix_split home) as (b & Hb & Hhb). rewrite Hb in Hs.
  rewrite sapp_assoc in Hs.
  apply prefix_before_slash_dot in Hs; [|done|done].
  pose proof (startswith_trans _ _ _ Hhb Hs). congruence.
Qed.

Lemma user_apps_dir_eq :
  user_apps_dir home = dir_prefix home +:+ "." +:+ "local/share/applications".
Proof. reflexivity. Qed.

Lemma under_user_not_system (p : string) :
  is_user home p = true → is_system p = false.
Proof.
  unfold is_user. intros [r ->]%startswith_spec.
  rewrite user_apps_dir_eq, !sapp_assoc. apply home_dot_not_system.
Qed.

(** The two roles exclude each other. *)
Lemma roles_exclusive (p : string) :
  is_system p = true → is_user home p = false.
Proof.
  intros Hs. apply not_true_is_false. intros Hu.
  apply under_user_not_system in Hu. congruence.
Qed.

Lemma config_mime_file_eq :
  config_mime_file home = dir_prefix home +:+ "." +:+ "config/mimeapps.list".
Proof. reflexivity. Qed.

End Home.

Lemma user_apps_dir_no_slash_end (home : string) :
  endswith (user_apps_dir home) "/" = false.
Proof.
  unfold user_apps_dir, joinpath.
  change ".local/share/applications" with (".local/share/" +:+ "applications").
  rewrite <-sapp_assoc. by apply endswith_slash_app.
Qed.

Lemma dir_prefix_user (home : string) :
  dir_prefix (user_apps_dir home) = user_apps_dir home +:+ "/".
Proof. unfold dir_prefix at 1. by rewrite user_apps_dir_no_slash_end. Qed.

Lemma joinpath_user_is_user (home n : string) :
  is_user home (joinpath (user_apps_dir home) n) = true.
Proof. apply joinpath_startswith. Qed.

Lemma user_mime_file_eq (home : string) :
  user_mime_file home = user_apps_dir home +:+ "/" +:+ "mimeapps.list".
Proof. unfold user_mime_file, joinpath. by rewrite dir_prefix_user, sapp_assoc. Qed.

Lemma user_backup_eq (home : string) :
  with_suffix (user_mime_file home) ".list.bak"
  = user_apps_dir home +:+ "/" +:+ "mimeapps.list.bak".
Proof. rewrite user_mime_file_eq. by rewrite with_suffix_app. Qed.

Lemma config_mime_file_split (home : string) :
  config_mime_file home = (dir_prefix home +:+ ".config") +:+ "/" +:+ "mimeapps.list".
Proof. unfold config_mime_file, joinpath. by rewrite !sapp_assoc. Qed.

Lemma config_backup_eq (home : string) :
  with_suffix (config_mime_file home) ".list.bak"
  = (dir_prefix home +:+ ".config") +:+ "/" +:+ "mimeapps.list.bak".
Proof. rewrite config_mime_file_split. by rewrite with_suffix_app. Qed.

End Layout.

Module HomeDot.
Import Str StrFacts PathStr PathFacts Layout.

Lemma home_dot_app (home p s : string) : home_dot home p → home_dot home (p +:+ s).
Proof. intros [r ->]. exists (r +:+ s). by rewrite !sapp_assoc. Qed.

Lemma home_dot_startswith (home p q : string) :
  home_dot home p → startswith q p = true → home_dot home q.
Proof. intros Hp [r ->]%startswith_spec. by apply home_dot_app. Qed.

Lemma home_dot_joinpath (home p n : string) :
  home_dot home p → home_dot home (joinpath p n).
Proof.
  intros Hp. eapply home_dot_startswith; [done|]. apply joinpath_startswith.
Qed.

Lemma home_dot_user_dir (home : string) : home_dot home (user_apps_dir home).
Proof. by exists "local/share/applications". Qed.

Lemma home_dot_is_user (home p : string) : is_user home p = true → home_dot home p.
Proof. intros Hp. eapply home_dot_startswith; [apply home_dot_user_dir|done]. Qed.

Lemma home_dot_under (home d k : string) :
  home_dot home d → under d k = true → home_dot home k.
Proof.
  intros Hd [->%bool_decide_eq_true|Hk]%orb_true_iff; [done|].
  eapply home_dot_startswith; [done|].
  eapply startswith_trans; [done|]. apply startswith_dir_prefix.
Qed.

Lemma home_dot_config (home : string) : home_dot home (config_mime_file home).
Proof. by exists "config/mimeapps.list". Qed.

Lemma home_dot_user_mime (home : string) : home_dot home (user_mime_file home).
Proof. apply home_dot_joinpath, home_dot_user_dir. Qed.

Lemma home_dot_config_backup (home : string) :
  home_dot home (with_suffix (config_mime_file home) ".list.bak").
Proof.
  rewrite config_backup_eq. exists "config/mimeapps.list.bak".
  by rewrite !sapp_assoc.
Qed.

Lemma home_dot_user_backup (home : string) :
  home_dot home (with_suffix (user_mime_file home) ".list.bak").
Proof. rewrite user_backup_eq. apply home_dot_app, home_dot_user_dir. Qed.

Lemma home_dot_outside_system (home p : string) :
  startswith home system_apps_dir = false → home_dot home p → is_system p = false.
Proof. intros Hh [r ->]. by apply home_dot_not_system. Qed.

End HomeDot.

(** * The sort of the resolver *)

Section Sorting.








Context {A : Type} (key : A → bool * string).

Lemma sorted_insert_perm (x : A) (l : list A) : sorted_insert key x l ≡ₚ x :: l.
Proof.
  induction l as [|y l IH]; [done|]. simpl. case_match; [|done].
  rewrite IH. apply Permutation_swap.
Qed.

Lemma sorted_perm (l : list A) : sorted key l ≡ₚ l.
Proof.
  induction l as [|x l IH]; [done|]. simpl.
  rewrite sorted_insert_perm. by rewrite IH.
Qed.




Lemma sorted_length (l : list A) : length (sorted key l) = length l.
Proof. by rewrite sorted_perm. Qed.

Lemma sorted_elem (l : list A) (x : A) : x ∈ sorted key l ↔ x ∈ l.
Proof. by rewrite sorted_perm. Qed.

End Sorting.

(** * Filesystem primitives *)

Section Primitives.
Context (io_fails : io_op → bool).

Lemma fs_unlink_run (p : string) (st : state) :
  fs_unlink io_fails p st =
  if io_fails (OpUnlink p) then (Raise OSError, st)
  else match disk st !! p with
       | Some (File _) => (Ok tt, set_disk (delete p (disk st)) st)
       | _ => (Raise OSError, st)
       end.
Proof. reflexivity. Qed.

Lemma fs_read_state {A} (p : string) (st : state) (k : string → M A) :
  (fs_read io_fails p st).2 = st.
Proof. unfold fs_read. by repeat case_match. Qed.

Lemma fs_read_ok (p c : string) (st st' : state) :
  fs_read io_fails p st = (Ok c, st') →
  st' = st ∧ io_fails (OpRead p) = false ∧ disk st !! p = Some (File c).
Proof. unfold fs_read. repeat case_match; naive_solver. Qed.

Lemma fs_write_ok (p c : string) (st st' : state) :
  fs_write io_fails p c st = (Ok tt, st') →
  st' = set_disk (<[p := File c]> (disk st)) st.
Proof. unfold fs_write. repeat case_match; naive_solver. Qed.

(** The primitives change nothing but the store. *)
Lemma fs_unlink_only_disk {B} (f : state → B) (p : string) :
  (∀ m st, f (set_disk m st) = f st) → preserves (same_proj f) (fs_unlink io_fails p).
Proof. intros Hf st. unfold fs_unlink, same_proj. repeat case_match; simpl; by rewrite ?Hf. Qed.

Lemma fs_rmtree_only_disk {B} (f : state → B) (d : string) :
  (∀ m st, f (set_disk m st) = f st) → preserves (same_proj f) (fs_rmtree io_fails d).
Proof. intros Hf st. unfold fs_rmtree, same_proj. repeat case_match; simpl; by rewrite ?Hf. Qed.

Lemma fs_read_only_disk {B} (f : state → B) (p : string) :
  preserves (same_proj f) (fs_read io_fails p).
Proof. intros st. unfold fs_read, same_proj. by repeat case_match. Qed.


Lemma fs_copy_only_disk {B} (f : state → B) (src dst : string) :
  (∀ m st, f (set_disk m st) = f st) → preserves (same_proj f) (fs_copy io_fails src dst).
Proof. intros Hf st. unfold fs_copy, same_proj. repeat case_match; simpl; by rewrite ?Hf. Qed.

(** Where the primitives leave the store alone. *)
Lemma fs_unlink_same_on (P : string → Prop) (p : string) :
  ¬ P p → preserves (same_on P) (fs_unlink io_fails p).
Proof.
  intros Hp st q Hq. unfold fs_unlink. repeat case_match; simpl; try done.
  apply lookup_delete_ne. by intros ->.
Qed.

Lemma fs_rmtree_same_on (P : string → Prop) (d : string) :
  (∀ k, P k → under d k = false) → preserves (same_on P) (fs_rmtree io_fails d).
Proof.
  intros Hd st q Hq. unfold fs_rmtree. repeat case_match; simpl; try done.
  destruct (disk st !! q) as [x|] eqn:E.
  - apply map_lookup_filter_Some. split; [done|]. simpl. by apply Hd.
  - apply map_lookup_filter_None. by left.
Qed.

Lemma fs_read_same_on (P : string → Prop) (p : string) :
  preserves (same_on P) (fs_read io_fails p).
Proof. intros st q Hq. unfold fs_read. by repeat case_match. Qed.

Lemma fs_write_same_on (P : string → Prop) (p c : string) :
  ¬ P p → preserves (same_on P) (fs_write io_fails p c).
Proof.
  intros Hp st q Hq. unfold fs_write. repeat case_match; simpl; try done;
    apply lookup_insert_ne; by intros ->.
Qed.

Lemma fs_copy_same_on (P : string → Prop) (src dst : string) :
  ¬ P dst → ¬ P (PathStr.joinpath dst (PathStr.name src)) →
  preserves (same_on P) (fs_copy io_fails src dst).
Proof.
  intros Hd Hn st q Hq. unfold fs_copy, copy_target.
  repeat case_match; try done; apply lookup_insert_ne; intros E;
    rewrite <-E in Hq; done.
Qed.

End Primitives.

(** * The resolver *)

Section Resolver.
Context (home : string) (io_fails : io_op → bool).
Import Str StrFacts PathStr PathFacts.

Abbreviation user_dir := (user_apps_dir home).
Abbreviation hide_file' := (hide_file home io_fails).

Lemma for_each_app {A S} (l1 l2 : list A) (body : A → S → M S) (acc : S)
    (st : state) :
  for_each (l1 ++ l2) body acc st
  = (for_each l1 body acc ≫= for_each l2 body) st.
Proof.
  revert acc st. induction l1 as [|x l1 IH]; intros acc st; simpl.
  - by rewrite run_bind.
  - rewrite !run_bind.
    destruct (body x acc st) as [[a|e] st']; [|done]. by rewrite IH, run_bind.
Qed.

Lemma hide_file_skip (dry_run : bool) (app_name d : string) (hidden_count : nat)
    (st : state) :
  is_system d = false → is_user home d = false →
  hide_file' dry_run app_name d hidden_count st = (Ok hidden_count, st).
Proof. intros Hs Hu. unfold hide_file. by rewrite Hs, Hu. Qed.

Lemma create_hide_override_same_on (P : string → Prop) (dry_run : bool)
    (system_file local_file app_name : string) :
  ¬ P local_file →
  preserves (same_on P)
    (create_hide_override io_fails dry_run system_file local_file app_name).
Proof.
  intros Hp. unfold create_hide_override. destruct dry_run; simpl.
  - apply preserves_ret, _.
  - apply preserves_try; [apply _|by apply fs_write_same_on|].
    intros []; apply preserves_raise, _.
Qed.

Lemma add_no_display_same_on (P : string → Prop) (dry_run : bool) (filepath : string) :
  ¬ P filepath → preserves (same_on P) (add_no_display io_fails dry_run filepath).
Proof.
  intros Hp. unfold add_no_display. destruct dry_run.
  - apply preserves_ret, _.
  - apply preserves_try; [apply _| |intros []; apply preserves_raise, _].
    apply preserves_bind; [apply _|apply fs_read_same_on|].
    intros c. by apply fs_write_same_on.
Qed.

Lemma hide_file_same_on (P : string → Prop) (dry_run : bool)
    (app_name d : string) (hidden_count : nat) :
  (is_system d = true → ¬ P (joinpath user_dir (name d))) →
  (is_system d = false → is_user home d = true → ¬ P d) →
  preserves (same_on P) (hide_file' dry_run app_name d hidden_count).
Proof.
  intros Hsys Husr. unfold hide_file.
  apply preserves_try; [apply _| |].
  - destruct (is_system d) eqn:Hs; [|destruct (is_user home d) eqn:Hu].
    + apply preserves_bind; [apply _| |intros; apply preserves_ret, _].
      apply create_hide_override_same_on. by apply Hsys.
    + apply preserves_bind; [apply _| |intros; apply preserves_ret, _].
      apply add_no_display_same_on. by apply Husr.
    + apply preserves_ret, _.
  - intros e. apply preserves_bind; [apply _| |intros; apply preserves_ret, _].
    apply preserves_modify. by intros st p _.
Qed.

End Resolver.

Section ResolverFrames.
Context (home : string) (io_fails : io_op → bool).
Import Str StrFacts PathStr PathFacts.

Lemma hide_group_same_on (P : string → Prop) (dry_run : bool)
    (group : string * list string) (hidden_count : nat) :
  (∀ d, d ∈ group.2 → clear_of home P d) →
  preserves (same_on P) (hide_group home io_fails dry_run group hidden_count).
Proof.
  destruct group as [app_name files]. simpl. intros Hclear. unfold hide_group.
  destruct (sorted (sort_key home) files) as [|primary dups] eqn:E.
  - apply preserves_raise, _.
  - apply preserves_for_each; [apply _|]. intros d c Hd.
    assert (d ∈ files) as Hin.
    { apply (sorted_elem (sort_key home)). rewrite E. by right. }
    destruct (Hclear d Hin). by apply hide_file_same_on.
Qed.

Lemma hide_duplicate_applications_same_on (P : string → Prop) (dry_run : bool)
    (duplicates : list (string * list string)) :
  (∀ g d, g ∈ duplicates → d ∈ g.2 → clear_of home P d) →
  preserves (same_on P) (hide_duplicate_applications home io_fails dry_run duplicates).
Proof.
  intros Hclear. unfold hide_duplicate_applications.
  apply preserves_bind; [apply _| |].
  - apply preserves_for_each; [apply _|]. intros g c Hg.
    apply hide_group_same_on. intros d Hd. by eapply Hclear.
  - intros n. apply preserves_bind; [apply _| |intros; apply preserves_ret, _].
    apply preserves_modify. by intros st p _.
Qed.

(** Whatever the grouping, the resolver writes below the user root only. *)
Lemma hide_duplicate_applications_outside_user (dry_run : bool)
    (duplicates : list (string * list string)) :
  preserves (same_on (λ p, is_user home p = false))
    (hide_duplicate_applications home io_fails dry_run duplicates).
Proof.
  apply hide_duplicate_applications_same_on. intros g d _ _. split.
  - intros _. by rewrite Layout.joinpath_user_is_user.
  - intros _ Hu. by rewrite Hu.
Qed.

End ResolverFrames.

(** [C10] A record that is not the survivor of its group and whose path is
    neither below the system root nor below the user root is skipped: the
    step of the resolver for it changes neither the store nor the counter
    nor the log, and the whole group is processed as if the record were
    not among the duplicates. *)
Theorem neither_role_skipped (home : string) (io_fails : io_op → bool)
    (dry_run : bool) (app_name : string) (files : list string)
    (primary : string) (pre : list string) (d : string) (post : list string)
    (hidden_count : nat) (st : state) :
  sorted (sort_key home) files = primary :: pre ++ d :: post →
  is_system d = false →
  is_user home d = false →
  (∀ n st', hide_file home io_fails dry_run app_name d n st' = (Ok n, st')) ∧
  hide_group home io_fails dry_run (app_name, files) hidden_count st
  = for_each (pre ++ post) (hide_file home io_fails dry_run app_name) hidden_count st.
Proof.
  intros Hsorted Hs Hu. split.
  - intros n st'. by apply hide_file_skip.
  - unfold hide_group. rewrite Hsorted.
    rewrite !for_each_app, !run_bind.
    destruct (for_each pre _ hidden_count st) as [[n|e] st1]; [|done].
    simpl. rewrite run_bind. by rewrite hide_file_skip.
Qed.

Lemma neither_role_skipped_witness :
  hide_group "/home/u" no_failure false ("Editor", ["/opt/b.desktop"; "/opt/a.desktop"]) 0
    (mkState ∅ stats0 [])
  = (Ok 0, mkState ∅ stats0 []).
Proof.
  apply (neither_role_skipped "/home/u" no_failure false "Editor"
           ["/opt/b.desktop"; "/opt/a.desktop"] "/opt/a.desktop" [] "/opt/b.desktop" []
           0 (mkState ∅ stats0 [])); reflexivity.
Defined.

(** * Directory listings *)

Section Glob.
Import Str StrFacts PathStr PathFacts.

Lemma glob_elem (m : gmap string node) (d pre suf k : string) :
  k ∈ glob m d pre suf ↔ is_Some (m !! k) ∧ glob_hit d pre suf k = true.
Proof.
  unfold glob. rewrite list_elem_of_filter, list_elem_of_fmap. split.
  - intros [Hh [[k' x] [-> Hx]]]. apply elem_of_map_to_list in Hx.
    split; [by eexists|]. by apply Is_true_true.
  - intros [[x Hx] Hh]. split; [by apply Is_true_true|].
    exists (k, x). split; [done|]. by apply elem_of_map_to_list.
Qed.

Lemma glob_NoDup (m : gmap string node) (d pre suf : string) :
  NoDup (glob m d pre suf).
Proof. unfold glob. apply NoDup_filter, NoDup_fst_map_to_list. Qed.

Lemma glob_hit_spec (d pre suf k : string) :
  glob_hit d pre suf k = true ↔
  ∃ n, k = joinpath d n ∧ n ≠ "" ∧ has_char "/" n = false ∧
       glob_match pre suf n = true.
Proof.
  unfold glob_hit. split.
  - destruct (child_name d k) as [n|] eqn:E; [|done].
    apply child_name_spec in E as (-> & ? & ?). intros ?. by exists n.
  - intros (n & -> & Hn & Hs & Hm).
    by rewrite (proj2 (child_name_spec d _ n)).
Qed.

Lemma glob_hit_startswith (d pre suf k : string) :
  glob_hit d pre suf k = true → startswith k d = true.
Proof. intros (n & -> & _)%glob_hit_spec. apply joinpath_startswith. Qed.

Lemma glob_match_endswith (pre suf n : string) :
  glob_match pre suf n = true → endswith n suf = true.
Proof. unfold glob_match. by intros [[_ ?]%andb_true_iff _]%andb_true_iff. Qed.

Lemma glob_match_startswith (pre suf n : string) :
  glob_match pre suf n = true → startswith n pre = true.
Proof. unfold glob_match. by intros [[? _]%andb_true_iff _]%andb_true_iff. Qed.

Lemma glob_hit_endswith (d pre suf k : string) :
  glob_hit d pre suf k = true → endswith k suf = true.
Proof.
  intros (n & -> & _ & _ & Hm)%glob_hit_spec.
  apply glob_match_endswith, endswith_spec in Hm as [r ->].
  unfold joinpath. rewrite <-sapp_assoc. apply endswith_app.
Qed.

End Glob.

(** * Frames of the purge, the scan and the association cleaner *)

Section StageFrames.
Context (home : string) (io_fails : io_op → bool).
Import Str StrFacts PathStr PathFacts.

Lemma set_field_same_on (P : string → Prop) (f : state → state) :
  (∀ st, disk (f st) = disk st) → preserves (same_on P) (modify f).
Proof. intros Hf. apply preserves_modify. intros st p _. by rewrite Hf. Qed.

Lemma remove_file_same_on (P : string → Prop) (dry_run : bool) (p : string) (n : nat) :
  ¬ P p → preserves (same_on P) (remove_file io_fails dry_run p n).
Proof.
  intros Hp. unfold remove_file. destruct dry_run; simpl.
  - apply preserves_ret, _.
  - apply preserves_try; [apply _| |].
    + apply preserves_bind; [apply _|by apply fs_unlink_same_on|].
      intros; apply preserves_ret, _.
    + intros []; try (apply preserves_raise, _).
      apply preserves_bind; [apply _| |intros; apply preserves_ret, _].
      by apply set_field_same_on.
Qed.

Lemma remove_backup_dir_same_on (P : string → Prop) (dry_run : bool) (d : string)
    (n : nat) :
  (∀ k, P k → under d k = false) →
  preserves (same_on P) (remove_backup_dir io_fails dry_run d n).
Proof.
  intros Hd. unfold remove_backup_dir.
  apply preserves_bind; [apply _|apply preserves_get, _|]. intros st.
  repeat case_match; try (apply preserves_ret, _).
  apply preserves_try; [apply _| |].
  - apply preserves_bind; [apply _|by apply fs_rmtree_same_on|].
    intros; apply preserves_ret, _.
  - intros []; try (apply preserves_raise, _).
    apply preserves_bind; [apply _| |intros; apply preserves_ret, _].
    by apply set_field_same_on.
Qed.

(** The purge touches nothing outside the user root. *)
Lemma remove_wine_files_same_on (P : string → Prop) (dry_run : bool) :
  (∀ k, P k → is_user home k = false) →
  preserves (same_on P) (remove_wine_files home io_fails dry_run).
Proof.
  intros HP. unfold remove_wine_files.
  apply preserves_bind; [apply _| |].
  - apply preserves_for_each; [apply _|]. intros pat n _. unfold remove_pattern.
    apply preserves_bind; [apply _|apply preserves_get, _|]. intros st.
    apply preserves_for_each; [apply _|]. intros p c [_ Hp]%glob_elem.
    apply remove_file_same_on. intros HPp. apply HP in HPp.
    apply glob_hit_startswith in Hp. unfold is_user in HPp. congruence.
  - intros n. apply preserves_bind; [apply _|apply preserves_get, _|]. intros st.
    apply preserves_bind; [apply _| |].
    + apply preserves_for_each; [apply _|]. intros d c [_ Hd]%glob_elem.
      apply remove_backup_dir_same_on. intros k Hk.
      apply not_true_is_false. intros Hu. apply HP in Hk.
      apply glob_hit_startswith in Hd.
      assert (startswith k d = true) as Hkd.
      { apply orb_true_iff in Hu as [->%bool_decide_eq_true|Hu].
        - apply startswith_refl.
        - eapply startswith_trans; [done|apply startswith_dir_prefix]. }
      pose proof (startswith_trans _ _ _ Hkd Hd). unfold is_user in Hk. congruence.
    + intros c. apply preserves_bind; [apply _| |intros; apply preserves_ret, _].
      by apply set_field_same_on.
Qed.

(** The scan reads only. *)
Lemma parse_desktop_file_same_disk (p : string) :
  preserves (same_proj disk) (parse_desktop_file io_fails p).
Proof.
  unfold parse_desktop_file. apply preserves_try; [apply _| |].
  - apply preserves_bind; [apply _|apply fs_read_only_disk|].
    intros; apply preserves_ret, _.
  - intros e. apply preserves_bind; [apply _| |intros; apply preserves_ret, _].
    by apply preserves_modify.
Qed.

Lemma find_duplicate_applications_same_disk :
  preserves (same_proj disk) (find_duplicate_applications home io_fails).
Proof.
  unfold find_duplicate_applications, find_desktop_files.
  apply preserves_bind; [apply _| |].
  - apply preserves_bind; [apply _|apply preserves_get, _|].
    intros; apply preserves_ret, _.
  - intros files. apply preserves_bind; [apply _| |intros; apply preserves_ret, _].
    apply preserves_for_each; [apply _|]. intros p g _. unfold index_file.
    apply preserves_bind; [apply _|apply parse_desktop_file_same_disk|].
    intros i. repeat case_match; apply preserves_ret, _.
Qed.

(** The association cleaner writes the file, its backup, or a file inside
    the backup when that is a directory. *)
Lemma clean_mime_file_same_on (P : string → Prop) (dry_run : bool) (f : string) :
  ¬ P f → ¬ P (with_suffix f ".list.bak") →
  ¬ P (joinpath (with_suffix f ".list.bak") (name f)) →
  preserves (same_on P) (clean_mime_file io_fails dry_run f).
Proof.
  intros Hf Hb Hn. unfold clean_mime_file.
  apply preserves_try; [apply _| |intros []; apply preserves_raise, _].
  apply preserves_bind; [apply _| |].
  - destruct dry_run; simpl; [apply preserves_ret, _|].
    apply preserves_bind; [apply _|by apply fs_copy_same_on|].
    intros _. by apply set_field_same_on.
  - intros _. apply preserves_bind; [apply _|apply fs_read_same_on|].
    intros c. apply preserves_bind; [apply _| |intros; apply preserves_ret, _].
    destruct dry_run; simpl; [apply preserves_ret, _|by apply fs_write_same_on].
Qed.

Lemma clean_mime_step_same_on (P : string → Prop) (dry_run : bool) (f : string)
    (n : nat) :
  ¬ P f → ¬ P (with_suffix f ".list.bak") →
  ¬ P (joinpath (with_suffix f ".list.bak") (name f)) →
  preserves (same_on P) (clean_mime_step io_fails dry_run f n).
Proof.
  intros Hf Hb Hn. unfold clean_mime_step.
  apply preserves_bind; [apply _|apply preserves_get, _|]. intros st.
  case_match; [|apply preserves_ret, _].
  apply preserves_try; [apply _| |].
  - apply preserves_bind; [apply _|by apply clean_mime_file_same_on|].
    intros []; apply preserves_ret, _.
  - intros e. apply preserves_bind; [apply _| |intros; apply preserves_ret, _].
    by apply set_field_same_on.
Qed.

Lemma clean_mime_duplicates_same_on (P : string → Prop) (dry_run : bool) :
  (∀ k, P k → ¬ home_dot home k) →
  preserves (same_on P) (clean_mime_duplicates home io_fails dry_run).
Proof.
  intros HP. unfold clean_mime_duplicates.
  apply preserves_bind; [apply _| |].
  - apply preserves_for_each; [apply _|]. intros f n Hf.
    apply elem_of_cons in Hf as [->|Hf];
      [|apply list_elem_of_singleton in Hf as ->].
    + apply clean_mime_step_same_on; intros Hk; apply HP in Hk; apply Hk.
      * apply HomeDot.home_dot_user_mime.
      * apply HomeDot.home_dot_user_backup.
      * apply HomeDot.home_dot_joinpath, HomeDot.home_dot_user_backup.
    + apply clean_mime_step_same_on; intros Hk; apply HP in Hk; apply Hk.
      * apply HomeDot.home_dot_config.
      * apply HomeDot.home_dot_config_backup.
      * apply HomeDot.home_dot_joinpath, HomeDot.home_dot_config_backup.
  - intros n. apply preserves_bind; [apply _| |intros; apply preserves_ret, _].
    by apply set_field_same_on.
Qed.

Lemma same_on_weaken (P Q : string → Prop) {A} (m : M A) :
  (∀ k, P k → Q k) → preserves (same_on Q) m → preserves (same_on P) m.
Proof. intros HPQ Hm st p Hp. apply Hm, HPQ, Hp. Qed.

Lemma same_disk_same_on (P : string → Prop) {A} (m : M A) :
  preserves (same_proj disk) m → preserves (same_on P) m.
Proof. intros Hm st p _. by rewrite (Hm st). Qed.

(** The four stages change only paths below a dot-entry of the home
    directory. *)
Lemma run_stages_same_on (dry_run : bool) :
  preserves (same_on (λ k, ¬ home_dot home k)) (run_stages home io_fails dry_run).
Proof.
  unfold run_stages.
  apply preserves_bind; [apply _| |intros _].
  { apply remove_wine_files_same_on. intros k Hk.
    apply not_true_is_false. intros Hu. by apply Hk, HomeDot.home_dot_is_user. }
  apply preserves_bind; [apply _| |intros duplicates].
  { apply same_disk_same_on, find_duplicate_applications_same_disk. }
  apply preserves_bind; [apply _| |intros _].
  { eapply same_on_weaken; [|apply hide_duplicate_applications_outside_user].
    intros k Hk. simpl. apply not_true_is_false. intros Hu.
    by apply Hk, HomeDot.home_dot_is_user. }
  apply preserves_bind; [apply _| |intros; apply preserves_ret, _].
  by apply clean_mime_duplicates_same_on.
Qed.

End StageFrames.

Lemma override_content_lines (app_name : string) :
  override_content app_name
  = text_of ["[Desktop Entry]"; "Type=Application"; "Name=" +:+ app_name; "NoDisplay=true"].
Proof.
  unfold override_content, text_of. simpl.
  by rewrite !StrFacts.sapp_assoc, StrFacts.sapp_nil_r.
Qed.

(** What one step of the resolver does for a record below the system root. *)
Lemma hide_file_system (home : string) (io_fails : io_op → bool) (dry_run : bool)
    (app_name system_file : string) (n : nat) (st : state) :
  is_system system_file = true →
  let shadow := PathStr.joinpath (user_apps_dir home) (PathStr.name system_file) in
  let st' := (hide_file home io_fails dry_run app_name system_file n st).2 in
  (∀ q, q ≠ shadow → disk st' !! q = disk st !! q) ∧
  (disk st' !! shadow = disk st !! shadow ∨
   disk st' !! shadow = Some (File (override_content app_name))).
Proof.
  intros Hs shadow st'. split.
  - intros q Hq.
    apply (hide_file_same_on home io_fails (λ q, q ≠ shadow) dry_run app_name
             system_file n); [|congruence|done].
    intros _ Hne. by apply Hne.
  - subst st'. unfold hide_file, create_hide_override. rewrite Hs. fold shadow.
    destruct dry_run; simpl; [by left|].
    unfold fs_write. munfold.
    destruct (io_fails (OpWrite shadow)); simpl; [by left|].
    destruct (disk st !! shadow) as [[c|]|] eqn:E; simpl.
    + right. apply lookup_insert_eq.
    + by left.
    + right. apply lookup_insert_eq.
Qed.

(** [C3] When the home directory is not below the system root, no path below
    the system root is created, changed or removed by the purge, by the
    resolver on any grouping, by the association cleaner, or by the four
    stages in sequence.  Suppressing a record below the system root touches
    one path only, the file of the same name below the user root, which is
    left as it was or holds the four-line stub. *)
Theorem system_root_untouched (home : string) (io_fails : io_op → bool)
    (dry_run : bool) (st : state) (p : string) :
  Str.startswith home system_apps_dir = false →
  is_system p = true →
  disk (remove_wine_files home io_fails dry_run st).2 !! p = disk st !! p ∧
  (∀ duplicates,
     disk (hide_duplicate_applications home io_fails dry_run duplicates st).2 !! p
     = disk st !! p) ∧
  disk (clean_mime_duplicates home io_fails dry_run st).2 !! p = disk st !! p ∧
  disk (run_stages home io_fails dry_run st).2 !! p = disk st !! p ∧
  (∀ app_name system_file n,
     is_system system_file = true →
     let shadow := PathStr.joinpath (user_apps_dir home) (PathStr.name system_file) in
     let st' := (hide_file home io_fails dry_run app_name system_file n st).2 in
     PathStr.name shadow = PathStr.name system_file ∧
     is_user home shadow = true ∧
     is_system shadow = false ∧
     (∀ q, q ≠ shadow → disk st' !! q = disk st !! q) ∧
     (disk st' !! shadow = disk st !! shadow ∨
      disk st' !! shadow = Some (File (override_content app_name))) ∧
     override_content app_name
     = text_of ["[Desktop Entry]"; "Type=Application"; "Name=" +:+ app_name;
                "NoDisplay=true"]).
Proof.
  intros Hhome Hp.
  assert (¬ home_dot home p) as Hnd.
  { intros Hd. apply (HomeDot.home_dot_outside_system home p Hhome) in Hd. congruence. }
  assert (is_user home p = false) as Hnu.
  { by apply (Layout.roles_exclusive home). }
  split_and!.
  - by apply (remove_wine_files_same_on home io_fails (λ k, is_user home k = false)).
  - intros duplicates.
    by apply (hide_duplicate_applications_outside_user home io_fails).
  - by apply (clean_mime_duplicates_same_on home io_fails (λ k, ¬ home_dot home k)).
  - by apply (run_stages_same_on home io_fails).
  - intros app_name system_file n Hs shadow st'.
    destruct (hide_file_system home io_fails dry_run app_name system_file n st Hs)
      as [Hother Hshadow].
    split_and!; try done.
    + apply PathFacts.name_joinpath, PathFacts.name_has_no_slash.
    + apply Layout.joinpath_user_is_user.
    + apply (Layout.under_user_not_system home); [done|].
      apply Layout.joinpath_user_is_user.
    + apply override_content_lines.
Qed.

Lemma system_root_untouched_witness :
  disk (run_stages "/home/u" no_failure false
          (mkState (<["/usr/share/applications/a.desktop" := File "Name=A"]> ∅) stats0 [])).2
    !! "/usr/share/applications/a.desktop"
  = Some (File "Name=A").
Proof.
  destruct (system_root_untouched "/home/u" no_failure false
              (mkState (<["/usr/share/applications/a.desktop" := File "Name=A"]> ∅) stats0 [])
              "/usr/share/applications/a.desktop")
    as (_ & _ & _ & H & _); [reflexivity|reflexivity|].
  rewrite H. reflexivity.
Defined.

(** * The survivor of a group *)

Section Survivor.
Context (home : string) (io_fails : io_op → bool).
Hypothesis home_outside : Str.startswith home system_apps_dir = false.
Import Str StrFacts PathStr PathFacts.







End Survivor.



(** * The association cleaner on the store *)

Section Mime.
Context (io_fails : io_op → bool).
Import Str StrFacts PathStr PathFacts.

Abbreviation backup_of f := (with_suffix f ".list.bak").

(** [_clean_mime_file] without dry-run, step by step. *)
Lemma clean_mime_file_real (f : string) (st : state) :
  clean_mime_file io_fails false f st =
  if io_fails (OpCopy f (backup_of f)) then (Raise BackupError, st)
  else match disk st !! f with
       | Some (File c) =>
           let t := copy_target (disk st) f (backup_of f) in
           if bool_decide (t = f) then (Raise BackupError, st)
           else match disk st !! t with
                | Some Dir => (Raise BackupError, st)
                | _ =>
                    let st1 := incr_backups_created
                                 (set_disk (<[t := File c]> (disk st)) st) in
                    if io_fails (OpRead f) then (Raise BackupError, st1)
                    else if io_fails (OpWrite f) then (Raise BackupError, st1)
                    else (Ok true, cleaned_state f t c st)
                end
       | _ => (Raise BackupError, st)
       end.
Proof.
  unfold clean_mime_file, fs_copy, fs_read, fs_write. munfold. simpl.
  destruct (io_fails (OpCopy f (backup_of f))); [done|].
  destruct (disk st !! f) as [[c|]|] eqn:Ef; try done.
  case_bool_decide as Ht; [done|].
  destruct (disk st !! copy_target (disk st) f (backup_of f)) as [[c'|]|] eqn:Et;
    try done; simpl;
    (destruct (io_fails (OpRead f)); [done|]);
    rewrite lookup_insert_ne, Ef by done;
    (destruct (io_fails (OpWrite f)); [done|]);
    simpl; rewrite lookup_insert_ne, Ef by done; done.
Qed.

(** [_clean_mime_file] in dry-run. *)
Lemma clean_mime_file_dry (f : string) (st : state) :
  clean_mime_file io_fails true f st =
  if io_fails (OpRead f) then (Raise BackupError, st)
  else match disk st !! f with
       | Some (File c) => (Ok true, st)
       | _ => (Raise BackupError, st)
       end.
Proof.
  unfold clean_mime_file, fs_read. munfold. simpl.
  destruct (io_fails (OpRead f)); [done|].
  by destruct (disk st !! f) as [[c|]|].
Qed.

(** The outcome is success or the typed error, and a failure leaves the
    association file as it was. *)
Lemma clean_mime_file_outcome (dry_run : bool) (f : string) (st : state) :
  (clean_mime_file io_fails dry_run f st).1 = Ok true ∨
  ((clean_mime_file io_fails dry_run f st).1 = Raise BackupError ∧
   disk (clean_mime_file io_fails dry_run f st).2 !! f = disk st !! f).
Proof.
  destruct dry_run.
  - rewrite clean_mime_file_dry. repeat case_match; simpl; auto.
  - rewrite clean_mime_file_real.
    destruct (io_fails (OpCopy f (backup_of f))); [simpl; auto|].
    destruct (disk st !! f) as [[c|]|] eqn:Ef; [|simpl; auto..].
    cbv zeta. case_bool_decide as Ht; [simpl; auto|].
    destruct (disk st !! copy_target (disk st) f (backup_of f)) as [[c'|]|] eqn:Et;
      [|simpl; auto|];
      (destruct (io_fails (OpRead f));
       [right; simpl; by rewrite lookup_insert_ne|]);
      (destruct (io_fails (OpWrite f));
       [right; simpl; by rewrite lookup_insert_ne|]);
      by left.
Qed.

Lemma prim_raise_oserror :
  (∀ p st e st', fs_unlink io_fails p st = (Raise e, st') → e = OSError) ∧
  (∀ p st e st', fs_rmtree io_fails p st = (Raise e, st') → e = OSError) ∧
  (∀ p st e st', fs_read io_fails p st = (Raise e, st') → e = OSError ∧ st' = st) ∧
  (∀ p c st e st', fs_write io_fails p c st = (Raise e, st') → e = OSError ∧ st' = st) ∧
  (∀ p q st e st', fs_copy io_fails p q st = (Raise e, st') → e = OSError ∧ st' = st).
Proof.
  unfold fs_unlink, fs_rmtree, fs_read, fs_write, fs_copy.
  split_and!; intros; repeat (case_match || case_bool_decide); naive_solver.
Qed.





(** The caller logs the error and goes on. *)
Lemma clean_mime_step_run (dry_run : bool) (f : string) (n : nat) (st : state) :
  clean_mime_step io_fails dry_run f n st =
  if exists_ (disk st) f then
    match clean_mime_file io_fails dry_run f st with
    | (Ok true, st') => (Ok (n + 1), st')
    | (Ok false, st') => (Ok n, st')
    | (Raise e, st') => (Ok n, add_log (ErrClean f e) st')
    end
  else (Ok n, st).
Proof.
  unfold clean_mime_step. munfold.
  destruct (exists_ (disk st) f); [|done].
  by destruct (clean_mime_file io_fails dry_run f st) as [[[]|e] st'].
Qed.

Lemma clean_mime_step_total (dry_run : bool) (f : string) (n : nat) :
  total (clean_mime_step io_fails dry_run f n).
Proof.
  intros st. rewrite clean_mime_step_run. repeat case_match; simpl; eauto.
Qed.

End Mime.

(** * The stages never raise *)

Section Totality.
Context (home : string) (io_fails : io_op → bool).
Context (update_desktop_database update_mime_database :
           string → gmap string node → nat * gmap string node).

Lemma remove_file_total (dry_run : bool) (p : string) (n : nat) :
  total (remove_file io_fails dry_run p n).
Proof.
  unfold remove_file. destruct dry_run; simpl; [apply total_ret|].
  intros st. rewrite run_try, run_bind.
  destruct prim_raise_oserror with (io_fails := io_fails) as (Hu & _).
  destruct (fs_unlink io_fails p st) as [[[]|e] st'] eqn:E; simpl; [eauto|].
  rewrite (Hu _ _ _ _ E). simpl. eauto.
Qed.

Lemma remove_backup_dir_total (dry_run : bool) (d : string) (n : nat) :
  total (remove_backup_dir io_fails dry_run d n).
Proof.
  unfold remove_backup_dir. intros st. rewrite run_bind. simpl.
  repeat case_match; simpl; eauto.
  rewrite run_try, run_bind.
  destruct prim_raise_oserror with (io_fails := io_fails) as (_ & Hr & _).
  destruct (fs_rmtree io_fails d st) as [[[]|e] st'] eqn:E; simpl; [eauto|].
  rewrite (Hr _ _ _ _ E). simpl. eauto.
Qed.

Lemma remove_wine_files_total (dry_run : bool) :
  total (remove_wine_files home io_fails dry_run).
Proof.
  unfold remove_wine_files. apply total_bind.
  - apply total_for_each. intros pat n _. unfold remove_pattern.
    apply total_bind; [apply total_get|]. intros st.
    apply total_for_each. intros; apply remove_file_total.
  - intros n. apply total_bind; [apply total_get|]. intros st.
    apply total_bind.
    + apply total_for_each. intros; apply remove_backup_dir_total.
    + intros c. apply total_bind; [apply total_modify|]. intros; apply total_ret.
Qed.

Lemma parse_desktop_file_total (p : string) :
  total (parse_desktop_file io_fails p).
Proof.
  unfold parse_desktop_file. apply total_try. intros e.
  apply total_bind; [apply total_modify|]. intros; apply total_ret.
Qed.

(** The scan returns groups of two or more records. *)
Lemma find_duplicate_applications_returns :
  returns (find_duplicate_applications home io_fails)
    (λ duplicates, ∀ g, g ∈ duplicates → 1 < length g.2).
Proof.
  unfold find_duplicate_applications, find_desktop_files.
  apply returns_bind.
  { apply total_bind; [apply total_get|]. intros; apply total_ret. }
  intros files. apply returns_bind.
  - apply total_for_each. intros p g _. unfold index_file.
    apply total_bind; [apply parse_desktop_file_total|].
    intros i. repeat case_match; apply total_ret.
  - intros groups. apply returns_ret. by intros g [? _]%list_elem_of_filter.
Qed.

Lemma hide_file_total (dry_run : bool) (app_name d : string) (n : nat) :
  total (hide_file home io_fails dry_run app_name d n).
Proof.
  unfold hide_file. apply total_try. intros e.
  apply total_bind; [apply total_modify|]. intros; apply total_ret.
Qed.

Lemma hide_duplicate_applications_total (dry_run : bool)
    (duplicates : list (string * list string)) :
  (∀ g, g ∈ duplicates → 1 < length g.2) →
  total (hide_duplicate_applications home io_fails dry_run duplicates).
Proof.
  intros Hlen. unfold hide_duplicate_applications. apply total_bind.
  - apply total_for_each. intros [app_name files] n Hg. unfold hide_group.
    destruct (sorted (sort_key home) files) as [|primary dups] eqn:E.
    + apply (f_equal length) in E. rewrite sorted_length in E.
      specialize (Hlen _ Hg). simpl in *. lia.
    + apply total_for_each. intros; apply hide_file_total.
  - intros n. apply total_bind; [apply total_modify|]. intros; apply total_ret.
Qed.

Lemma clean_mime_duplicates_total (dry_run : bool) :
  total (clean_mime_duplicates home io_fails dry_run).
Proof.
  unfold clean_mime_duplicates. apply total_bind.
  - apply total_for_each. intros; apply clean_mime_step_total.
  - intros n. apply total_bind; [apply total_modify|]. intros; apply total_ret.
Qed.

Lemma run_stages_total (dry_run : bool) : total (run_stages home io_fails dry_run).
Proof.
  unfold run_stages.
  apply total_bind; [apply remove_wine_files_total|]. intros _.
  eapply returns_total_bind; [apply find_duplicate_applications_returns|].
  intros duplicates Hlen. simpl in Hlen.
  apply total_bind; [by apply hide_duplicate_applications_total|]. intros _.
  apply total_bind; [apply clean_mime_duplicates_total|]. intros; apply total_ret.
Qed.

Lemma update_caches_total (dry_run : bool) :
  total (update_caches home update_desktop_database update_mime_database dry_run).
Proof.
  unfold update_caches. destruct dry_run; simpl; [apply total_ret|].
  apply total_bind; [apply total_get|]. intros st.
  destruct (update_desktop_database _ _) as [result m].
  apply total_bind; [apply total_modify|]. intros _.
  apply total_bind.
  { case_match; [apply total_modify|apply total_ret]. }
  intros _. apply total_bind; [apply total_get|]. intros st'.
  case_match; [|apply total_ret].
  destruct (update_mime_database _ _) as [result' m'].
  apply total_bind; [apply total_modify|]. intros _.
  case_match; [apply total_modify|apply total_ret].
Qed.

(** [run] returns statistics whatever the environment refuses. *)
Lemma run_total (dry_run : bool) :
  total (run home io_fails update_desktop_database update_mime_database dry_run).
Proof.
  unfold run. intros st. rewrite run_try.
  assert (total (run_stages home io_fails dry_run;;
                 (if negb dry_run
                  then update_caches home update_desktop_database
                         update_mime_database dry_run
                  else mret tt);;
                 st0 ← get_state; mret (stats st0))) as Ht.
  { apply total_bind; [apply run_stages_total|]. intros _.
    apply total_bind.
    { destruct dry_run; simpl; [apply total_ret|apply update_caches_total]. }
    intros _. apply total_bind; [apply total_get|]. intros; apply total_ret. }
  destruct (total_raise_free _ st Ht) as (a & st' & E). rewrite E. simpl. eauto.
Qed.

End Totality.


(** For instance, when the user association file cannot be written, the
    failure is logged with its type and the configuration copy is still
    cleaned. *)
Example association_failure_example :
  let io := λ op, bool_decide (op = OpWrite "/home/u/.local/share/applications/mimeapps.list") in
  let m : gmap string node :=
    <["/home/u/.local/share/applications/mimeapps.list" := File "a=x.desktop;x.desktop"]>
    (<["/home/u/.config/mimeapps.list" := File "a=x.desktop;x.desktop"]> ∅) in
  ∃ st',
    run "/home/u" io no_indexer no_indexer false (mkState m stats0 [])
    = (Ok (mkStats 0 0 1 2), st') ∧
    log st' = [ErrClean "/home/u/.local/share/applications/mimeapps.list" BackupError] ∧
    disk st' !! "/home/u/.local/share/applications/mimeapps.list"
    = Some (File "a=x.desktop;x.desktop") ∧
    disk st' !! "/home/u/.config/mimeapps.list" = Some (File "a=x.desktop;").
Proof. eexists. split_and!; vm_compute; reflexivity. Qed.



(** * The purge *)

Section UnlinkLoop.
Context (io_fails : io_op → bool).

Lemma remove_file_ok (p : string) (n : nat) (st : state) (m0 : gmap string node) :
  disk st !! p = m0 !! p → unlink_ok io_fails m0 p = true →
  remove_file io_fails false p n st = (Ok (n + 1), set_disk (delete p (disk st)) st).
Proof.
  intros Hp [Hio Hf]%andb_true_iff. apply negb_true_iff in Hio.
  unfold remove_file. cbn [negb].
  rewrite run_try, run_bind, fs_unlink_run, Hio, Hp.
  by destruct (m0 !! p) as [[c|]|].
Qed.

Lemma remove_file_fail (p : string) (n : nat) (st : state) (m0 : gmap string node) :
  disk st !! p = m0 !! p → unlink_ok io_fails m0 p = false →
  remove_file io_fails false p n st = (Ok n, add_log (ErrRemove p) st).
Proof.
  intros Hp Hok. unfold unlink_ok in Hok.
  unfold remove_file. cbn [negb].
  rewrite run_try, run_bind, fs_unlink_run, Hp.
  destruct (io_fails (OpUnlink p)); [done|].
  by destruct (m0 !! p) as [[c|]|].
Qed.

(** The loop over the files of one pattern. *)
Lemma unlink_loop (files : list string) (n : nat) (st : state)
    (m0 : gmap string node) :
  NoDup files →
  (∀ p, p ∈ files → disk st !! p = m0 !! p) →
  ∃ st',
    for_each files (remove_file io_fails false) n st
    = (Ok (n + length (filter (λ p, unlink_ok io_fails m0 p = true) files)), st') ∧
    (∀ q, disk st' !! q =
          if bool_decide (q ∈ files) && unlink_ok io_fails m0 q
          then None else disk st !! q) ∧
    stats st' = stats st ∧
    log st' = log st ++ (ErrRemove <$> filter (λ p, unlink_ok io_fails m0 p = false) files).
Proof.
  revert n st. induction files as [|p files IH]; intros n st Hnd Hagree.
  - exists st. rewrite !filter_nil. simpl. rewrite Nat.add_0_r, app_nil_r.
    split_and!; done.
  - apply NoDup_cons in Hnd as [Hp Hnd].
    assert (disk st !! p = m0 !! p) as Hpm by (apply Hagree; by left).
    destruct (unlink_ok io_fails m0 p) eqn:Hok.
    + destruct (IH (n + 1) (set_disk (delete p (disk st)) st) Hnd)
        as (st' & Hrun & Hlook & Hstats & Hlog).
      { intros q Hq. simpl. rewrite lookup_delete_ne by (by intros ->).
        apply Hagree. by right. }
      exists st'. simpl. rewrite run_bind, (remove_file_ok p n st m0) by done.
      rewrite Hrun, filter_cons_True by done.
      rewrite (filter_cons_False (λ p, unlink_ok io_fails m0 p = false))
        by (by rewrite Hok).
      split_and!; [f_equal; f_equal; simpl; lia| |done|done].
      intros q. rewrite Hlook. simpl. destruct (decide (q = p)) as [->|Hne].
      * rewrite (bool_decide_eq_false_2 (p ∈ files)) by done.
        rewrite (bool_decide_eq_true_2 (p ∈ p :: files)) by (by left).
        simpl. rewrite Hok. apply lookup_delete_eq.
      * rewrite lookup_delete_ne by done.
        rewrite (bool_decide_ext (q ∈ p :: files) (q ∈ files)); [done|].
        rewrite elem_of_cons. naive_solver.
    + destruct (IH n (add_log (ErrRemove p) st) Hnd)
        as (st' & Hrun & Hlook & Hstats & Hlog).
      { intros q Hq. simpl. apply Hagree. by right. }
      exists st'. simpl. rewrite run_bind, (remove_file_fail p n st m0) by done.
      rewrite Hrun, filter_cons_False by (by rewrite Hok).
      rewrite (filter_cons_True (λ p, unlink_ok io_fails m0 p = false)) by done.
      split_and!; [done| |done|].
      * intros q. rewrite Hlook. simpl. destruct (decide (q = p)) as [->|Hne].
        -- rewrite (bool_decide_eq_false_2 (p ∈ files)) by done.
           by rewrite Hok, !andb_false_r.
        -- rewrite (bool_decide_ext (q ∈ p :: files) (q ∈ files)); [done|].
           rewrite elem_of_cons. naive_solver.
      * rewrite Hlog. simpl. by rewrite <-(assoc_L (++)).
Qed.

End UnlinkLoop.

Section GlobFacts.
Import Str StrFacts PathStr PathFacts.

(** Stores with the same matching entries list them alike, up to order. *)
Lemma glob_perm (m m' : gmap string node) (d pre suf : string) :
  (∀ k, glob_hit d pre suf k = true → (is_Some (m' !! k) ↔ is_Some (m !! k))) →
  glob m' d pre suf ≡ₚ glob m d pre suf.
Proof.
  intros Hsame. apply NoDup_Permutation; [apply glob_NoDup..|].
  intros k. rewrite !glob_elem. naive_solver.
Qed.

(** An entry matches one of two patterns with incomparable prefixes. *)
Lemma glob_hit_disjoint (d pre1 suf1 pre2 suf2 k : string) :
  startswith pre1 pre2 = false → startswith pre2 pre1 = false →
  glob_hit d pre1 suf1 k = true → glob_hit d pre2 suf2 k = true → False.
Proof.
  intros H12 H21 (n1 & -> & _ & _ & Hm1)%glob_hit_spec
    (n2 & Heq & _ & _ & Hm2)%glob_hit_spec.
  apply joinpath_inj in Heq as <-.
  apply glob_match_startswith in Hm1, Hm2.
  destruct (startswith_comparable _ _ _ Hm1 Hm2); congruence.
Qed.

Lemma perm_nil_iff {A} (l k : list A) : l ≡ₚ k → (l = [] ↔ k = []).
Proof.
  intros Hp. split; intros ->.
  - by apply Permutation_nil_l in Hp.
  - by apply Permutation_nil_r in Hp.
Qed.

End GlobFacts.

Section PatternLoop.
Context (home : string) (io_fails : io_op → bool).

Abbreviation ext_files m := (glob m (user_apps_dir home) "wine-extension-" ".desktop").
Abbreviation proto_files m := (glob m (user_apps_dir home) "wine-protocol-" ".desktop").
Abbreviation backup_entries m := (glob m (user_apps_dir home) "backup_" "").

Lemma remove_pattern_run (pattern : string * string) (n : nat) (st : state) :
  remove_pattern home io_fails false pattern n st
  = for_each (glob (disk st) (user_apps_dir home) pattern.1 pattern.2)
      (remove_file io_fails false) n st.
Proof. unfold remove_pattern. by rewrite run_bind. Qed.

(** The loop over the two patterns, in terms of the store it starts from. *)
Lemma pattern_loop (st : state) :
  ∃ st',
    for_each wine_patterns (remove_pattern home io_fails false) 0 st
    = (Ok (length (filter (λ p, unlink_ok io_fails (disk st) p = true) (ext_files (disk st)))
           + length (filter (λ p, unlink_ok io_fails (disk st) p = true)
                       (proto_files (disk st)))), st') ∧
    (∀ q, disk st' !! q =
          if (bool_decide (q ∈ ext_files (disk st)) || bool_decide (q ∈ proto_files (disk st)))
             && unlink_ok io_fails (disk st) q
          then None else disk st !! q) ∧
    stats st' = stats st ∧
    (∃ es, log st' = log st ++ es) ∧
    (log st' = log st →
     ∀ p, p ∈ ext_files (disk st) ∨ p ∈ proto_files (disk st) →
          unlink_ok io_fails (disk st) p = true).
Proof.
  set (m0 := disk st).
  destruct (unlink_loop io_fails (ext_files m0) 0 st m0) as (st1 & Hrun1 & Hlook1 & Hstats1 & Hlog1);
    [apply glob_NoDup|done|].
  assert (∀ p, glob_hit (user_apps_dir home) "wine-protocol-" ".desktop" p = true →
               disk st1 !! p = m0 !! p) as Hagree.
  { intros p Hp. rewrite Hlook1.
    rewrite bool_decide_eq_false_2; [done|].
    intros [_ He]%glob_elem.
    by eapply (glob_hit_disjoint _ "wine-extension-" _ "wine-protocol-"). }
  assert (proto_files (disk st1) ≡ₚ proto_files m0) as Hperm.
  { apply glob_perm. intros k Hk. by rewrite Hagree. }
  destruct (unlink_loop io_fails (proto_files (disk st1))
              (length (filter (λ p, unlink_ok io_fails m0 p = true) (ext_files m0)))
              st1 m0)
    as (st2 & Hrun2 & Hlook2 & Hstats2 & Hlog2); [apply glob_NoDup| |].
  { intros p [_ Hp]%glob_elem. by apply Hagree. }
  exists st2. split_and!.
  - unfold wine_patterns. simpl. rewrite run_bind, remove_pattern_run. simpl.
    fold m0. rewrite Hrun1, run_bind, remove_pattern_run. simpl.
    rewrite Hrun2. simpl. by rewrite Hperm.
  - intros q. rewrite Hlook2, Hlook1.
    rewrite (bool_decide_ext (q ∈ proto_files (disk st1)) (q ∈ proto_files m0))
      by (by rewrite Hperm).
    by repeat case_bool_decide; destruct (unlink_ok io_fails m0 q).
  - congruence.
  - eexists. rewrite Hlog2, Hlog1, <-(assoc_L (++)). done.
  - rewrite Hlog2, Hlog1, <-(assoc_L (++)). intros Hnil p Hp.
    apply (f_equal length) in Hnil. rewrite !length_app, !length_fmap in Hnil.
    destruct (unlink_ok io_fails m0 p) eqn:Hok; [done|exfalso].
    destruct Hp as [Hp|Hp].
    + assert (p ∈ filter (λ p, unlink_ok io_fails m0 p = false) (ext_files m0)) as Hin.
      { by apply list_elem_of_filter. }
      apply list_elem_of_split in Hin as (l1 & l2 & Heq).
      rewrite Heq, length_app in Hnil. simpl in Hnil. lia.
    + assert (p ∈ filter (λ p, unlink_ok io_fails m0 p = false) (proto_files (disk st1)))
        as Hin.
      { apply list_elem_of_filter. split; [done|]. by rewrite Hperm. }
      apply list_elem_of_split in Hin as (l1 & l2 & Heq).
      rewrite Heq, length_app in Hnil. simpl in Hnil. lia.
Qed.

End PatternLoop.

Section RmtreeLoop.
Context (io_fails : io_op → bool).
Import Str StrFacts PathStr PathFacts.

Lemma under_refl (d : string) : under d d = true.
Proof. unfold under. by rewrite bool_decide_eq_true_2. Qed.

Lemma glob_hit_under (d pre suf k : string) :
  glob_hit d pre suf k = true → under d k = true.
Proof.
  intros (n & -> & _)%glob_hit_spec. unfold under, joinpath.
  by rewrite startswith_app, orb_true_r.
Qed.

Lemma rmtree_lookup (m : gmap string node) (d q : string) :
  filter (λ kv : string * node, under d kv.1 = false) m !! q
  = if under d q then None else m !! q.
Proof.
  destruct (under d q) eqn:Hu.
  - apply map_lookup_filter_None. right. intros x _. simpl. by rewrite Hu.
  - destruct (m !! q) as [x|] eqn:E.
    + apply map_lookup_filter_Some. by split.
    + apply map_lookup_filter_None. by left.
Qed.

(** A store that agrees below [d] gives the same verdict on [d]. *)
Lemma wine_in_agree (m m0 : gmap string node) (d : string) :
  (∀ k, under d k = true → m !! k = m0 !! k) → wine_in m d ≡ₚ wine_in m0 d.
Proof.
  intros Hagree. apply glob_perm. intros k Hk.
  by rewrite Hagree by (by eapply glob_hit_under).
Qed.

Lemma rmtree_ok_agree (m m0 : gmap string node) (d : string) :
  (∀ k, under d k = true → m !! k = m0 !! k) →
  rmtree_ok io_fails m d = rmtree_ok io_fails m0 d.
Proof.
  intros Hagree. unfold rmtree_ok, is_dir.
  rewrite (Hagree d (under_refl d)). do 2 f_equal.
  apply bool_decide_ext. pose proof (wine_in_agree m m0 d Hagree) as Hp.
  pose proof (perm_nil_iff _ _ Hp). naive_solver.
Qed.

Lemma remove_backup_dir_run (d : string) (n : nat) (st : state) :
  remove_backup_dir io_fails false d n st =
  if rmtree_ok io_fails (disk st) d
  then (Ok (n + length (wine_in (disk st) d)),
        set_disk (filter (λ kv : string * node, under d kv.1 = false) (disk st)) st)
  else if is_dir (disk st) d && bool_decide (wine_in (disk st) d ≠ [])
       then (Ok n, add_log (ErrRemoveDir d) st)
       else (Ok n, st).
Proof.
  unfold remove_backup_dir, rmtree_ok, wine_in. rewrite run_bind. simpl.
  destruct (is_dir (disk st) d) eqn:Hd; [|done]. simpl.
  case_bool_decide as Hw; [|done]. simpl.
  rewrite run_try, run_bind. unfold fs_rmtree.
  destruct (io_fails (OpRmtree d)); [done|]. simpl.
  apply bool_decide_eq_true in Hd. by rewrite Hd.
Qed.

(** The loop over the backup directories, in terms of a store [m0] with
    which the current store agrees below each of them. *)
Lemma rmtree_loop (dirs : list string) (n : nat) (st : state) (m0 : gmap string node) :
  NoDup dirs →
  (∀ d d' k, d ∈ dirs → d' ∈ dirs →
             under d k = true → under d' k = true → d = d') →
  (∀ d k, d ∈ dirs → under d k = true → disk st !! k = m0 !! k) →
  ∃ st',
    for_each dirs (remove_backup_dir io_fails false) n st
    = (Ok (n + sum_list_with (λ d, length (wine_in m0 d))
                 (filter (λ d, rmtree_ok io_fails m0 d = true) dirs)), st') ∧
    (∀ q, disk st' !! q =
          if bool_decide (Exists (λ d, rmtree_ok io_fails m0 d = true ∧ under d q = true) dirs)
          then None else disk st !! q) ∧
    stats st' = stats st ∧
    (∃ es, log st' = log st ++ es) ∧
    (log st' = log st →
     ∀ d, d ∈ dirs → is_dir m0 d = true → wine_in m0 d ≠ [] →
          rmtree_ok io_fails m0 d = true).
Proof.
  revert n st. induction dirs as [|d dirs IH]; intros n st Hnd Hdisj Hagree.
  - exists st. simpl. split_and!.
    + by rewrite Nat.add_0_r.
    + done.
    + done.
    + exists []. by rewrite app_nil_r.
    + intros _ d Hd. by apply elem_of_nil in Hd.
  - apply NoDup_cons in Hnd as [Hd Hnd].
    assert (∀ k, under d k = true → disk st !! k = m0 !! k) as Hagree_d.
    { intros k. apply Hagree. by left. }
    pose proof (rmtree_ok_agree (disk st) m0 d Hagree_d) as Hok.
    pose proof (wine_in_agree (disk st) m0 d Hagree_d) as Hwine.
    assert (∀ d' k, d' ∈ dirs → under d' k = true → under d k = false) as Hother.
    { intros d' k Hd' Hu'. apply not_true_is_false. intros Hu.
      assert (d = d') as ->; [|done].
      eapply Hdisj; [by left|by right|done..]. }
    simpl. rewrite run_bind, remove_backup_dir_run, Hok.
    destruct (rmtree_ok io_fails m0 d) eqn:Hrm.
    + destruct (IH (n + length (wine_in (disk st) d))
                  (set_disk (filter (λ kv : string * node, under d kv.1 = false) (disk st)) st)
                  Hnd)
        as (st' & Hrun & Hlook & Hstats & Hlog & Hquiet).
      { intros d1 d2 k H1 H2. apply Hdisj; by right. }
      { intros d' k Hd' Hu'. simpl. rewrite rmtree_lookup, (Hother d' k) by done.
        apply (Hagree d'); [by right|done]. }
      exists st'. rewrite Hrun, filter_cons_True by done. simpl.
      split_and!; [do 2 f_equal; rewrite Hwine; lia| |done|done|].
      * intros q. rewrite Hlook. simpl. rewrite rmtree_lookup.
        destruct (under d q) eqn:Hu.
        -- rewrite (bool_decide_eq_true_2 (Exists _ (d :: dirs)));
             [by case_bool_decide|]. by left.
        -- assert (Exists (λ d, rmtree_ok io_fails m0 d = true ∧ under d q = true) (d :: dirs)
                   ↔ Exists (λ d, rmtree_ok io_fails m0 d = true ∧ under d q = true) dirs)
             as Hex.
           { rewrite Exists_cons. split; [|by right].
             intros [[_ ?]|?]; [congruence|done]. }
           by rewrite (bool_decide_ext _ _ Hex).
      * intros Hl d' [->|Hd']%elem_of_cons; [done|]. by apply Hquiet.
    + assert (∃ st1, (if is_dir (disk st) d && bool_decide (wine_in (disk st) d ≠ [])
                      then (Ok n, add_log (ErrRemoveDir d) st) else (Ok n, st))
                     = (Ok n, st1) ∧ disk st1 = disk st ∧ stats st1 = stats st ∧
                     (∃ es, log st1 = log st ++ es) ∧
                     (log st1 = log st →
                      is_dir m0 d = true → wine_in m0 d ≠ [] → False))
        as (st1 & -> & Hdisk1 & Hstats1 & Hlog1 & Hquiet1).
      { destruct (is_dir (disk st) d && bool_decide (wine_in (disk st) d ≠ [])) eqn:Hc.
        - exists (add_log (ErrRemoveDir d) st). split_and!; try done.
          + by eexists.
          + simpl. intros Hl. apply (f_equal length) in Hl.
            rewrite length_app in Hl. simpl in Hl. lia.
        - exists st. split_and!; try done.
          + exists []. by rewrite app_nil_r.
          + intros _ Hdir Hw. unfold is_dir in *.
            rewrite (Hagree_d d (under_refl d)), Hdir in Hc. simpl in Hc.
            apply bool_decide_eq_false in Hc. apply Hc.
            pose proof (perm_nil_iff _ _ Hwine). naive_solver. }
      destruct (IH n st1 Hnd) as (st' & Hrun & Hlook & Hstats & [es Hlog] & Hquiet).
      { intros d1 d2 k H1 H2. apply Hdisj; by right. }
      { intros d' k Hd' Hu'. rewrite Hdisk1. apply (Hagree d'); [by right|done]. }
      exists st'. rewrite Hrun, filter_cons_False by (by rewrite Hrm).
      split_and!; [done| |congruence| |].
      * intros q. rewrite Hlook, Hdisk1.
        assert (Exists (λ d, rmtree_ok io_fails m0 d = true ∧ under d q = true) (d :: dirs)
                ↔ Exists (λ d, rmtree_ok io_fails m0 d = true ∧ under d q = true) dirs)
          as Hex.
        { rewrite Exists_cons. split; [|by right].
          intros [[? _]|?]; [congruence|done]. }
        by rewrite (bool_decide_ext _ _ Hex).
      * destruct Hlog1 as [es1 Hlog1]. exists (es1 ++ es).
        by rewrite Hlog, Hlog1, (assoc_L (++)).
      * intros Hl. destruct Hlog1 as [es1 Hlog1].
        assert (es1 = [] ∧ es = []) as [-> ->].
        { rewrite Hlog, Hlog1, <-(assoc_L (++)) in Hl.
          apply (f_equal length) in Hl. rewrite !length_app in Hl.
          destruct es1, es; simpl in *; try lia. done. }
        rewrite app_nil_r in Hlog1, Hlog.
        intros d' [->|Hd']%elem_of_cons.
        -- intros Hdir Hw. by destruct (Hquiet1 Hlog1 Hdir Hw).
        -- apply Hquiet; [congruence|done].
Qed.

End RmtreeLoop.

Section PurgeRun.
Context (home : string) (io_fails : io_op → bool).
Import Str StrFacts PathStr PathFacts.

Abbreviation user_dir := (user_apps_dir home).
Abbreviation ext_files m := (glob m (user_apps_dir home) "wine-extension-" ".desktop").
Abbreviation proto_files m := (glob m (user_apps_dir home) "wine-protocol-" ".desktop").
Abbreviation backup_entries m := (glob m (user_apps_dir home) "backup_" "").

(** What lies at or below the entry [n] of [d] begins with the component
    [n] after the prefix of [d]. *)
Lemma under_child_first (d n k : string) :
  n ≠ "" → has_char "/" n = false → under (joinpath d n) k = true →
  ∃ r, k = dir_prefix d +:+ r ∧ (split1 "/" r).1 = n.
Proof.
  intros Hn Hs [->%bool_decide_eq_true|Hk]%orb_true_iff.
  - exists n. split; [done|]. by rewrite split1_no.
  - rewrite dir_prefix_joinpath in Hk by done.
    apply startswith_spec in Hk as [x ->]. exists (n +:+ "/" +:+ x).
    split; [unfold joinpath; by rewrite !sapp_assoc|].
    by rewrite sapp_char, split1_app.
Qed.

(** Entries of one directory have disjoint subtrees. *)
Lemma children_disjoint (d pre1 suf1 pre2 suf2 d1 d2 k : string) :
  glob_hit d pre1 suf1 d1 = true → glob_hit d pre2 suf2 d2 = true →
  under d1 k = true → under d2 k = true → d1 = d2.
Proof.
  intros (n1 & -> & Hn1 & Hs1 & _)%glob_hit_spec
    (n2 & -> & Hn2 & Hs2 & _)%glob_hit_spec Hu1 Hu2.
  destruct (under_child_first d n1 k Hn1 Hs1 Hu1) as (r1 & Hk1 & <-).
  destruct (under_child_first d n2 k Hn2 Hs2 Hu2) as (r2 & Hk2 & <-).
  rewrite Hk1 in Hk2. apply sapp_inv_head in Hk2. by subst.
Qed.

(** An entry of [d] below another entry of [d] is that entry. *)
Lemma child_under_child (d pre1 suf1 pre2 suf2 d1 p : string) :
  glob_hit d pre1 suf1 d1 = true → glob_hit d pre2 suf2 p = true →
  under d1 p = true → p = d1.
Proof.
  intros H1 H2 Hu. symmetry. eapply children_disjoint; [done..|].
  apply under_refl.
Qed.

Lemma backup_not_wine (d p : string) :
  glob_hit user_dir "backup_" "" d = true → under d p = true →
  (glob_hit user_dir "wine-extension-" ".desktop" p = true ∨
   glob_hit user_dir "wine-protocol-" ".desktop" p = true) → False.
Proof.
  intros Hd Hu [Hp|Hp].
  - pose proof (child_under_child _ _ _ _ _ _ _ Hd Hp Hu) as ->.
    by eapply (glob_hit_disjoint _ "backup_" _ "wine-extension-").
  - pose proof (child_under_child _ _ _ _ _ _ _ Hd Hp Hu) as ->.
    by eapply (glob_hit_disjoint _ "backup_" _ "wine-protocol-").
Qed.

(** The purge without dry-run, in terms of the store it starts from. *)
Lemma remove_wine_files_real (st : state) :
  ∃ st',
    remove_wine_files home io_fails false st
    = (Ok (wine_files_removed (stats st')), st') ∧
    wine_files_removed (stats st')
    = length (filter (λ p, unlink_ok io_fails (disk st) p = true) (ext_files (disk st)))
      + length (filter (λ p, unlink_ok io_fails (disk st) p = true) (proto_files (disk st)))
      + sum_list_with (λ d, length (wine_in (disk st) d))
          (filter (λ d, rmtree_ok io_fails (disk st) d = true) (backup_entries (disk st))) ∧
    (∀ q, disk st' !! q =
          if bool_decide (Exists (λ d, rmtree_ok io_fails (disk st) d = true ∧ under d q = true)
                            (backup_entries (disk st)))
          then None
          else if (bool_decide (q ∈ ext_files (disk st)) || bool_decide (q ∈ proto_files (disk st)))
                  && unlink_ok io_fails (disk st) q
               then None else disk st !! q) ∧
    duplicates_hidden (stats st') = duplicates_hidden (stats st) ∧
    mime_duplicates_cleaned (stats st') = mime_duplicates_cleaned (stats st) ∧
    backups_created (stats st') = backups_created (stats st) ∧
    (∃ es, log st' = log st ++ es) ∧
    (log st' = log st →
     (∀ p, p ∈ ext_files (disk st) ∨ p ∈ proto_files (disk st) →
           unlink_ok io_fails (disk st) p = true) ∧
     (∀ d, d ∈ backup_entries (disk st) → is_dir (disk st) d = true →
           wine_in (disk st) d ≠ [] → rmtree_ok io_fails (disk st) d = true)).
Proof.
  set (m0 := disk st).
  destruct (pattern_loop home io_fails st)
    as (st2 & Hrun2 & Hlook2 & Hstats2 & [es2 Hlog2] & Hquiet2).
  fold m0 in Hrun2, Hlook2, Hquiet2.
  assert (∀ d k, glob_hit user_dir "backup_" "" d = true → under d k = true →
                 disk st2 !! k = m0 !! k) as Hagree.
  { intros d k Hd Hu. rewrite Hlook2.
    rewrite (bool_decide_eq_false_2 (k ∈ ext_files m0)).
    2:{ intros [_ Hk]%glob_elem. eapply backup_not_wine; eauto. }
    rewrite (bool_decide_eq_false_2 (k ∈ proto_files m0)); [done|].
    intros [_ Hk]%glob_elem. eapply backup_not_wine; eauto. }
  assert (backup_entries (disk st2) ≡ₚ backup_entries m0) as Hperm.
  { apply glob_perm. intros k Hk. by rewrite (Hagree k k Hk (under_refl k)). }
  destruct (rmtree_loop io_fails (backup_entries (disk st2))
              (length (filter (λ p, unlink_ok io_fails m0 p = true) (ext_files m0))
               + length (filter (λ p, unlink_ok io_fails m0 p = true) (proto_files m0)))
              st2 m0)
    as (st3 & Hrun3 & Hlook3 & Hstats3 & [es3 Hlog3] & Hquiet3).
  { apply glob_NoDup. }
  { intros d d' k [_ Hd]%glob_elem [_ Hd']%glob_elem. by eapply children_disjoint. }
  { intros d k [_ Hd]%glob_elem. by apply Hagree. }
  eexists (set_wine_files_removed _ st3). split_and!.
  - unfold remove_wine_files. rewrite run_bind, Hrun2. rewrite run_bind. simpl.
    rewrite run_bind, Hrun3. reflexivity.
  - simpl. by rewrite Hperm.
  - intros q. simpl. rewrite Hlook3, Hlook2.
    erewrite (bool_decide_ext (Exists _ (backup_entries (disk st2)))); [done|].
    rewrite !Exists_exists. by setoid_rewrite Hperm.
  - simpl. congruence.
  - simpl. congruence.
  - simpl. congruence.
  - exists (es2 ++ es3). simpl. by rewrite Hlog3, Hlog2, (assoc_L (++)).
  - simpl. intros Hl.
    assert (es2 = [] ∧ es3 = []) as [-> ->].
    { rewrite Hlog3, Hlog2, <-(assoc_L (++)) in Hl.
      apply (f_equal length) in Hl. rewrite !length_app in Hl.
      destruct es2, es3; simpl in *; try lia. done. }
    rewrite app_nil_r in Hlog2, Hlog3. split.
    + by apply Hquiet2.
    + intros d Hd. apply Hquiet3; [congruence|]. by rewrite Hperm.
Qed.

End PurgeRun.


(** A backup directory with one matching file and one other file counts for
    one, although three paths leave the store. *)
Example purge_counts_matching_only :
  let m : gmap string node :=
    list_to_map [
      ("/home/u/.local/share/applications", Dir);
      ("/home/u/.local/share/applications/wine-extension-foo.desktop", File "");
      ("/home/u/.local/share/applications/wine-protocol-bar.desktop", File "");
      ("/home/u/.local/share/applications/backup_old", Dir);
      ("/home/u/.local/share/applications/backup_old/wine-x.desktop", File "");
      ("/home/u/.local/share/applications/backup_old/notes.txt", File "")] in
  ∃ st', remove_wine_files "/home/u" no_failure false (mkState m stats0 []) = (Ok 3, st') ∧
         disk st' = {[ "/home/u/.local/share/applications" := Dir ]}.
Proof. eexists. split; vm_compute; reflexivity. Qed.

(** * Relations kept by the stages *)

Section StageRelations.
Context (home : string) (io_fails : io_op → bool).
Context (update_desktop_database update_mime_database :
           string → gmap string node → nat * gmap string node).
Context (R : state → state → Prop) `{!PreOrder R}.

(** What the relation has to tolerate: a new log entry, and a changed
    store where the store is written. *)
Hypothesis R_log : ∀ e st, R st (add_log e st).

Lemma fs_unlink_rel (p : string) : (∀ m st, R st (set_disk m st)) → preserves R (fs_unlink io_fails p).
Proof.
  intros Hd st. unfold fs_unlink. repeat case_match; simpl; try reflexivity.
  by apply Hd.
Qed.

Lemma fs_rmtree_rel (p : string) : (∀ m st, R st (set_disk m st)) → preserves R (fs_rmtree io_fails p).
Proof.
  intros Hd st. unfold fs_rmtree. repeat case_match; simpl; try reflexivity.
  by apply Hd.
Qed.

Lemma fs_read_rel (p : string) : preserves R (fs_read io_fails p).
Proof. intros st. unfold fs_read. repeat case_match; simpl; reflexivity. Qed.

Lemma fs_write_rel (p c : string) : (∀ m st, R st (set_disk m st)) → preserves R (fs_write io_fails p c).
Proof.
  intros Hd st. unfold fs_write. repeat case_match; simpl; try reflexivity;
    by apply Hd.
Qed.

Lemma fs_copy_rel (p q : string) : (∀ m st, R st (set_disk m st)) → preserves R (fs_copy io_fails p q).
Proof.
  intros Hd st. unfold fs_copy. repeat (case_match || case_bool_decide);
    simpl; try reflexivity; by apply Hd.
Qed.

Lemma log_rel (e : log_entry) {A} (a : A) :
  preserves R (modify (add_log e);; mret a : M A).
Proof.
  apply preserves_bind; [apply _|by apply preserves_modify|].
  intros; apply preserves_ret, _.
Qed.

Lemma remove_wine_files_rel (dry_run : bool) :
  (dry_run = false → ∀ m st, R st (set_disk m st)) →
  (∀ n st, R st (set_wine_files_removed n st)) →
  preserves R (remove_wine_files home io_fails dry_run).
Proof.
  intros R_disk R_wine. unfold remove_wine_files.
  apply preserves_bind; [apply _| |].
  - apply preserves_for_each; [apply _|]. intros pat n _. unfold remove_pattern.
    apply preserves_bind; [apply _|apply preserves_get, _|]. intros st.
    apply preserves_for_each; [apply _|]. intros p c _. unfold remove_file.
    destruct dry_run; simpl; [apply preserves_ret, _|].
    apply preserves_try; [apply _| |].
    + apply preserves_bind; [apply _|by apply fs_unlink_rel, R_disk|].
      intros; apply preserves_ret, _.
    + intros []; try (apply preserves_raise, _). apply log_rel.
  - intros n. apply preserves_bind; [apply _|apply preserves_get, _|]. intros st.
    apply preserves_bind; [apply _| |].
    + apply preserves_for_each; [apply _|]. intros d c _. unfold remove_backup_dir.
      apply preserves_bind; [apply _|apply preserves_get, _|]. intros st'.
      repeat case_match; try (apply preserves_ret, _).
      apply preserves_try; [apply _| |].
      * apply preserves_bind; [apply _|apply fs_rmtree_rel|].
        -- apply R_disk. by destruct dry_run.
        -- intros; apply preserves_ret, _.
      * intros []; try (apply preserves_raise, _). apply log_rel.
    + intros c. apply preserves_bind; [apply _| |intros; apply preserves_ret, _].
      by apply preserves_modify.
Qed.

Lemma find_duplicate_applications_rel :
  preserves R (find_duplicate_applications home io_fails).
Proof.
  unfold find_duplicate_applications, find_desktop_files.
  apply preserves_bind; [apply _| |].
  - apply preserves_bind; [apply _|apply preserves_get, _|].
    intros; apply preserves_ret, _.
  - intros files. apply preserves_bind; [apply _| |intros; apply preserves_ret, _].
    apply preserves_for_each; [apply _|]. intros p g _. unfold index_file.
    apply preserves_bind; [apply _| |].
    + unfold parse_desktop_file. apply preserves_try; [apply _| |].
      * apply preserves_bind; [apply _|apply fs_read_rel|].
        intros; apply preserves_ret, _.
      * intros e. apply log_rel.
    + intros i. repeat case_match; apply preserves_ret, _.
Qed.

Lemma hide_duplicate_applications_rel (dry_run : bool)
    (duplicates : list (string * list string)) :
  (dry_run = false → ∀ m st, R st (set_disk m st)) →
  (∀ n st, R st (set_duplicates_hidden n st)) →
  preserves R (hide_duplicate_applications home io_fails dry_run duplicates).
Proof.
  intros R_disk R_hidden. unfold hide_duplicate_applications.
  apply preserves_bind; [apply _| |].
  - apply preserves_for_each; [apply _|]. intros [app_name files] n _.
    unfold hide_group. case_match; [apply preserves_raise, _|].
    apply preserves_for_each; [apply _|]. intros d c _. unfold hide_file.
    apply preserves_try; [apply _| |intros e; apply log_rel].
    repeat case_match; try (apply preserves_ret, _).
    + apply preserves_bind; [apply _| |intros; apply preserves_ret, _].
      unfold create_hide_override.
      destruct dry_run; simpl; [apply preserves_ret, _|].
      apply preserves_try; [apply _|by apply fs_write_rel, R_disk|].
      intros []; apply preserves_raise, _.
    + apply preserves_bind; [apply _| |intros; apply preserves_ret, _].
      unfold add_no_display.
      destruct dry_run; [apply preserves_ret, _|].
      apply preserves_try; [apply _| |intros []; apply preserves_raise, _].
      apply preserves_bind; [apply _|apply fs_read_rel|].
      intros c'. by apply fs_write_rel, R_disk.
  - intros n. apply preserves_bind; [apply _| |intros; apply preserves_ret, _].
    by apply preserves_modify.
Qed.

Lemma clean_mime_step_rel (dry_run : bool) (f : string) (n : nat) :
  (dry_run = false → ∀ m st, R st (set_disk m st)) →
  (dry_run = false → ∀ st, R st (incr_backups_created st)) →
  preserves R (clean_mime_step io_fails dry_run f n).
Proof.
  intros R_disk R_backup. unfold clean_mime_step.
  apply preserves_bind; [apply _|apply preserves_get, _|]. intros st.
  case_match; [|apply preserves_ret, _].
  apply preserves_try; [apply _| |intros e; apply log_rel].
  apply preserves_bind; [apply _| |intros []; apply preserves_ret, _].
  unfold clean_mime_file.
  apply preserves_try; [apply _| |intros []; apply preserves_raise, _].
  apply preserves_bind; [apply _| |].
  - destruct dry_run; simpl; [apply preserves_ret, _|].
    apply preserves_bind; [apply _|by apply fs_copy_rel, R_disk|].
    intros _. apply preserves_modify. by apply R_backup.
  - intros _. apply preserves_bind; [apply _|apply fs_read_rel|].
    intros c. apply preserves_bind; [apply _| |intros; apply preserves_ret, _].
    destruct dry_run; simpl; [apply preserves_ret, _|by apply fs_write_rel, R_disk].
Qed.

Lemma clean_mime_duplicates_rel (dry_run : bool) :
  (dry_run = false → ∀ m st, R st (set_disk m st)) →
  (dry_run = false → ∀ st, R st (incr_backups_created st)) →
  (∀ n st, R st (set_mime_duplicates_cleaned n st)) →
  preserves R (clean_mime_duplicates home io_fails dry_run).
Proof.
  intros R_disk R_backup R_mime. unfold clean_mime_duplicates.
  apply preserves_bind; [apply _| |].
  - apply preserves_for_each; [apply _|]. intros f n _.
    by apply clean_mime_step_rel.
  - intros n. apply preserves_bind; [apply _| |intros; apply preserves_ret, _].
    by apply preserves_modify.
Qed.

Lemma update_caches_rel (dry_run : bool) :
  (∀ m st, R st (set_disk m st)) →
  preserves R (update_caches home update_desktop_database update_mime_database dry_run).
Proof.
  intros R_any. unfold update_caches. destruct dry_run; simpl; [apply preserves_ret, _|].
  apply preserves_bind; [apply _|apply preserves_get, _|]. intros st.
  destruct (update_desktop_database _ _) as [result m].
  apply preserves_bind; [apply _|by apply preserves_modify|]. intros _.
  apply preserves_bind; [apply _| |].
  { case_match; [by apply preserves_modify|apply preserves_ret, _]. }
  intros _. apply preserves_bind; [apply _|apply preserves_get, _|]. intros st'.
  case_match; [|apply preserves_ret, _].
  destruct (update_mime_database _ _) as [result' m'].
  apply preserves_bind; [apply _|by apply preserves_modify|]. intros _.
  case_match; [by apply preserves_modify|apply preserves_ret, _].
Qed.

End StageRelations.

(** * What the scan returns *)

Lemma returns_for_each_inv {A S} (I : S → Prop) (l : list A) (body : A → S → M S)
    (acc : S) :
  I acc →
  (∀ x a, x ∈ l → I a → returns (body x a) I) →
  returns (for_each l body acc) I.
Proof.
  revert acc. induction l as [|x l IH]; intros acc Hacc Hbody; simpl.
  - by apply returns_ret.
  - intros st. rewrite run_bind.
    destruct (Hbody x acc ltac:(by left) Hacc st) as (a & Ha & HI).
    destruct (body x acc st) as [[a'|e] st']; simpl in *; [|done].
    injection Ha as ->. apply IH; [done|].
    intros y b Hy. apply Hbody. by right.
Qed.

Lemma returns_weaken {A} (m : M A) (Q Q' : A → Prop) :
  (∀ a, Q a → Q' a) → returns m Q → returns m Q'.
Proof. intros HQ Hm st. destruct (Hm st) as (a & Ha & Hq). eauto. Qed.

Lemma returns_run {A} (m : M A) (Q : A → Prop) (st : state) :
  returns m Q → ∃ a st', m st = (Ok a, st') ∧ Q a.
Proof.
  intros Hm. destruct (Hm st) as (a & Ha & Hq).
  destruct (m st) as [r st']. simpl in *. subst. eauto.
Qed.

Section Scan.
Context (home : string) (io_fails : io_op → bool).
Import Str StrFacts PathStr PathFacts.

Lemma group_append_members (name p : string) (groups : list (string * list string))
    (g : string * list string) (d : string) :
  g ∈ group_append name p groups → d ∈ g.2 →
  d = p ∨ ∃ g', g' ∈ groups ∧ d ∈ g'.2.
Proof.
  induction groups as [|[n fs] groups IH]; simpl.
  - intros ->%list_elem_of_singleton. simpl.
    intros ->%list_elem_of_singleton. by left.
  - case_decide.
    + intros [->|Hg]%elem_of_cons Hd.
      * simpl in Hd. apply elem_of_app in Hd as [Hd|Hd].
        -- right. exists (n, fs). split; [by left|done].
        -- apply list_elem_of_singleton in Hd. by left.
      * right. exists g. split; [by right|done].
    + intros [->|Hg]%elem_of_cons Hd.
      * right. exists (n, fs). split; [by left|done].
      * destruct (IH Hg Hd) as [?|(g' & Hg' & Hd')]; [by left|].
        right. exists g'. split; [by right|done].
Qed.

Lemma glob_scanned (m : gmap string node) (root p : string) :
  p ∈ glob m root "" ".desktop" → scanned p.
Proof.
  intros [_ (n & -> & Hn & Hs & Hm)%glob_hit_spec]%glob_elem.
  exists root, n. split_and!; try done. by eapply glob_match_endswith.
Qed.

(** The scan returns groups of two or more scanned paths. *)
Lemma find_duplicate_applications_scanned :
  returns (find_duplicate_applications home io_fails)
    (λ duplicates,
       (∀ g, g ∈ duplicates → 1 < length g.2) ∧
       (∀ g d, g ∈ duplicates → d ∈ g.2 → scanned d)).
Proof.
  unfold find_duplicate_applications, find_desktop_files.
  intros st. rewrite !run_bind. simpl.
  set (files := (if exists_ (disk st) system_apps_dir
                 then glob (disk st) system_apps_dir "" ".desktop" else [])
                ++ (if exists_ (disk st) (user_apps_dir home)
                    then glob (disk st) (user_apps_dir home) "" ".desktop" else [])).
  assert (∀ p, p ∈ files → scanned p) as Hfiles.
  { intros p [Hp|Hp]%elem_of_app; case_match;
      try (by apply elem_of_nil in Hp); by eapply glob_scanned. }
  destruct (returns_run (for_each files (index_file io_fails) [])
              (λ groups, ∀ g d, g ∈ groups → d ∈ g.2 → scanned d) st)
    as (groups & st' & Hrun & Hgroups).
  { apply returns_for_each_inv.
    - intros g d Hg. by apply elem_of_nil in Hg.
    - intros p groups Hp Hgroups. unfold index_file.
      apply returns_bind; [apply parse_desktop_file_total|].
      intros i. repeat case_match; apply returns_ret; try done.
      intros g d Hg Hd.
      destruct (group_append_members _ _ _ _ _ Hg Hd) as [->|(g' & Hg' & Hd')];
        [by apply Hfiles|by eapply Hgroups]. }
  rewrite run_bind, Hrun. simpl. eexists. split; [done|]. split.
  - by intros g [? _]%list_elem_of_filter.
  - intros g d [_ Hg]%list_elem_of_filter. by apply Hgroups.
Qed.





End Scan.

(** * Dry-run counts *)

Section DryCounts.
Context (home : string) (io_fails : io_op → bool).
Import Str StrFacts PathStr PathFacts.

Lemma remove_file_loop_dry (files : list string) (n : nat) (st : state) :
  for_each files (remove_file io_fails true) n st = (Ok (n + length files), st).
Proof.
  revert n. induction files as [|p files IH]; intros n; simpl.
  - by rewrite Nat.add_0_r.
  - rewrite run_bind. unfold remove_file at 1. simpl. rewrite IH.
    do 2 f_equal. lia.
Qed.

Lemma remove_backup_dir_dry (d : string) (n : nat) (st : state) :
  remove_backup_dir io_fails true d n st
  = (Ok (if counted_dir (disk st) d then n + length (wine_in (disk st) d) else n), st).
Proof.
  unfold remove_backup_dir, counted_dir, wine_in. rewrite run_bind. simpl.
  destruct (is_dir (disk st) d); [|done]. simpl. by case_bool_decide.
Qed.

Lemma remove_backup_loop_dry (dirs : list string) (n : nat) (st : state) :
  for_each dirs (remove_backup_dir io_fails true) n st
  = (Ok (n + sum_list_with (λ d, length (wine_in (disk st) d))
               (filter (λ d, counted_dir (disk st) d = true) dirs)), st).
Proof.
  revert n. induction dirs as [|d dirs IH]; intros n; simpl.
  - by rewrite Nat.add_0_r.
  - rewrite run_bind, remove_backup_dir_dry, IH.
    destruct (counted_dir (disk st) d) eqn:Hc.
    + rewrite filter_cons_True by done. simpl. do 2 f_equal. lia.
    + rewrite filter_cons_False by (by rewrite Hc). done.
Qed.

Lemma remove_pattern_dry (pattern : string * string) (n : nat) (st : state) :
  remove_pattern home io_fails true pattern n st
  = (Ok (n + length (glob (disk st) (user_apps_dir home) pattern.1 pattern.2)), st).
Proof. unfold remove_pattern. rewrite run_bind. simpl. apply remove_file_loop_dry. Qed.

Lemma remove_wine_files_dry (st : state) :
  remove_wine_files home io_fails true st
  = (Ok (purge_candidates home (disk st)),
     set_wine_files_removed (purge_candidates home (disk st)) st).
Proof.
  unfold remove_wine_files, wine_patterns, purge_candidates.
  rewrite run_bind. simpl for_each.
  rewrite run_bind, remove_pattern_dry, run_bind, remove_pattern_dry. simpl.
  rewrite run_bind. simpl. rewrite run_bind, remove_backup_loop_dry. done.
Qed.

(** Without dry-run and without a reported failure the purge counts the
    same. *)
Lemma remove_wine_files_quiet (st : state) (n : nat) (st' : state) :
  remove_wine_files home io_fails false st = (Ok n, st') →
  log st' = log st →
  n = purge_candidates home (disk st).
Proof.
  intros Hrun Hlog.
  destruct (remove_wine_files_real home io_fails st)
    as (st1 & Hrun1 & Hcount & _ & _ & _ & _ & _ & Hquiet).
  rewrite Hrun in Hrun1. injection Hrun1 as -> <-.
  destruct (Hquiet Hlog) as [Hfiles Hdirs].
  rewrite Hcount. unfold purge_candidates. f_equal; [f_equal|].
  - f_equal. apply filter_all. intros p Hp. apply Hfiles. by left.
  - f_equal. apply filter_all. intros p Hp. apply Hfiles. by right.
  - f_equal. apply filter_ext_elem. intros d Hd. unfold counted_dir. split.
    + unfold rmtree_ok. by intros [? _]%andb_true_iff.
    + intros [Hdir Hw%bool_decide_eq_true]%andb_true_iff. by apply Hdirs.
Qed.



End DryCounts.

(** * Dry-run against a run that changes the store *)

Section MimePaths.
Context (home : string).
Import Str StrFacts PathStr PathFacts.

Lemma config_not_user : is_user home (config_mime_file home) = false.
Proof.
  unfold is_user, config_mime_file, user_apps_dir, joinpath.
  by rewrite startswith_app_same.
Qed.

Lemma user_mime_is_user : is_user home (user_mime_file home) = true.
Proof. apply joinpath_startswith. Qed.





End MimePaths.

Section PurgeKeeps.
Context (home : string) (io_fails : io_op → bool).
Import Str StrFacts PathStr PathFacts.


End PurgeKeeps.

Lemma preserves_run {A} (R : state → state → Prop) (m : M A) (st : state)
    (r : result A) (st' : state) :
  preserves R m → m st = (r, st') → R st st'.
Proof. intros H E. specialize (H st). by rewrite E in H. Qed.

Lemma log_grows_same (st st' : state) : log st' = log st → log_grows st st'.
Proof. intros E. exists []. by rewrite app_nil_r. Qed.

(** A state between two states with the same log has that log. *)
Lemma log_grows_squeeze (a b c : state) :
  log_grows a b → log_grows b c → log c = log a → log b = log a.
Proof.
  intros [es Hb] [es' Hc] E. rewrite Hb, <-(assoc_L (++)) in Hc.
  rewrite E in Hc. rewrite <-(app_nil_r (log a)) in Hc at 1.
  apply app_inv_head in Hc. symmetry in Hc. apply app_eq_nil in Hc as [-> _].
  by rewrite Hb, app_nil_r.
Qed.

Lemma exists_lookup (m m' : gmap string node) (p : string) :
  m' !! p = m !! p → exists_ m' p = exists_ m p.
Proof. intros E. unfold exists_. by rewrite E. Qed.


Section DryRun.
Context (home : string) (io_fails : io_op → bool).
Context (update_desktop_database update_mime_database :
           string → gmap string node → nat * gmap string node).
Import Str StrFacts PathStr PathFacts.

Lemma run_stages_decompose (dry_run : bool) (st : state) :
  ∃ n1 st1 duplicates st2 n3 st3 n4 st4,
    remove_wine_files home io_fails dry_run st = (Ok n1, st1) ∧
    find_duplicate_applications home io_fails st1 = (Ok duplicates, st2) ∧
    (∀ g d, g ∈ duplicates → d ∈ g.2 → scanned d) ∧
    hide_duplicate_applications home io_fails dry_run duplicates st2 = (Ok n3, st3) ∧
    clean_mime_duplicates home io_fails dry_run st3 = (Ok n4, st4) ∧
    run_stages home io_fails dry_run st = (Ok tt, st4).
Proof.
  destruct (total_raise_free _ st (remove_wine_files_total home io_fails dry_run))
    as (n1 & st1 & H1).
  destruct (returns_run _ _ st1 (find_duplicate_applications_scanned home io_fails))
    as (dups & st2 & H2 & Hlen & Hsc).
  destruct (total_raise_free _ st2
              (hide_duplicate_applications_total home io_fails dry_run dups Hlen))
    as (n3 & st3 & H3).
  destruct (total_raise_free _ st3 (clean_mime_duplicates_total home io_fails dry_run))
    as (n4 & st4 & H4).
  exists n1, st1, dups, st2, n3, st3, n4, st4. split_and!; try done.
  unfold run_stages. by rewrite run_bind, H1, run_bind, H2, run_bind, H3, run_bind, H4.
Qed.

Lemma run_of_stages_dry (st st4 : state) :
  run_stages home io_fails true st = (Ok tt, st4) →
  run home io_fails update_desktop_database update_mime_database true st
  = (Ok (stats st4), st4).
Proof. intros H. unfold run. by rewrite run_try, run_bind, H. Qed.

Lemma run_of_stages_real (st st4 : state) :
  run_stages home io_fails false st = (Ok tt, st4) →
  ∃ st5,
    update_caches home update_desktop_database update_mime_database false st4
    = (Ok tt, st5) ∧
    run home io_fails update_desktop_database update_mime_database false st
    = (Ok (stats st5), st5).
Proof.
  intros H.
  destruct (total_raise_free _ st4
              (update_caches_total home update_desktop_database
                 update_mime_database false)) as ([] & st5 & H5).
  exists st5. split; [done|]. unfold run.
  rewrite run_try, run_bind, H. cbn [negb]. by rewrite run_bind, H5.
Qed.


End DryRun.

Ltac frame_side :=
  intros;
  first [ discriminate
        | reflexivity
        | apply log_grows_same; reflexivity
        | eexists; reflexivity ].

Section DryRunCounters.
Context (home : string) (io_fails : io_op → bool).
Context (update_desktop_database update_mime_database :
           string → gmap string node → nat * gmap string node).
Import Str StrFacts PathStr PathFacts.



Lemma dry_stages_same_disk (st st4 : state) :
  run_stages home io_fails true st = (Ok tt, st4) →
  disk st4 = disk st ∧ backups_created (stats st4) = backups_created (stats st).
Proof.
  intros H.
  destruct (run_stages_decompose home io_fails true st)
    as (n1 & d1 & dups & d2 & n3 & d3 & n4 & d4 & D1 & D2 & _ & D3 & D4 & Dst).
  rewrite H in Dst. injection Dst as ->.
  split.
  - transitivity (disk d3).
    { eapply (preserves_run (same_proj disk)); [|exact D4].
      apply clean_mime_duplicates_rel; [apply _|frame_side..]. }
    transitivity (disk d2).
    { eapply (preserves_run (same_proj disk)); [|exact D3].
      apply hide_duplicate_applications_rel; [apply _|frame_side..]. }
    transitivity (disk d1).
    { eapply (preserves_run (same_proj disk)); [|exact D2].
      apply find_duplicate_applications_rel; [apply _|frame_side..]. }
    eapply (preserves_run (same_proj disk)); [|exact D1].
    apply remove_wine_files_rel; [apply _|frame_side..].
  - set (B := λ s : state, backups_created (stats s)).
    change (B d4 = B st).
    transitivity (B d3).
    { eapply (preserves_run (same_proj B)); [|exact D4].
      apply clean_mime_duplicates_rel; [apply _|frame_side..]. }
    transitivity (B d2).
    { eapply (preserves_run (same_proj B)); [|exact D3].
      apply hide_duplicate_applications_rel; [apply _|frame_side..]. }
    transitivity (B d1).
    { eapply (preserves_run (same_proj B)); [|exact D2].
      apply find_duplicate_applications_rel; [apply _|frame_side..]. }
    eapply (preserves_run (same_proj B)); [|exact D1].
    apply remove_wine_files_rel; [apply _|frame_side..].
Qed.

(** The statistics after the stage that purges, through the three later
    stages and the cache update. *)
Lemma later_stages_keep_wine (dry_run : bool) (st1 : state)
    (duplicates : list (string * list string)) (st2 : state) (n3 : nat)
    (st3 : state) (n4 : nat) (st4 : state) :
  find_duplicate_applications home io_fails st1 = (Ok duplicates, st2) →
  hide_duplicate_applications home io_fails dry_run duplicates st2 = (Ok n3, st3) →
  clean_mime_duplicates home io_fails dry_run st3 = (Ok n4, st4) →
  wine_files_removed (stats st4) = wine_files_removed (stats st1).
Proof.
  intros H2 H3 H4.
  set (W := λ s : state, wine_files_removed (stats s)).
  change (W st4 = W st1).
  transitivity (W st3).
  { eapply (preserves_run (same_proj W)); [|exact H4].
    apply clean_mime_duplicates_rel; [apply _|frame_side..]. }
  transitivity (W st2).
  { eapply (preserves_run (same_proj W)); [|exact H3].
    apply hide_duplicate_applications_rel; [apply _|frame_side..]. }
  eapply (preserves_run (same_proj W)); [|exact H2].
  apply find_duplicate_applications_rel; [apply _|frame_side..].
Qed.

Lemma update_caches_keeps_stats (dry_run : bool) (st : state) (u : unit)
    (st' : state) :
  update_caches home update_desktop_database update_mime_database dry_run st
  = (Ok u, st') →
  stats st' = stats st ∧ log_grows st st'.
Proof.
  intros H. split.
  - eapply (preserves_run (same_proj stats)); [|exact H].
    apply update_caches_rel; [apply _|frame_side..].
  - eapply (preserves_run log_grows); [|exact H].
    apply update_caches_rel; [apply _|frame_side..].
Qed.

(** ** C7 *)


End DryRunCounters.



(** * The scan for duplicates *)

Section GroupAppend.



Lemma group_append_nonempty (name p : string) (groups : list (string * list string)) :
  (∀ g, g ∈ groups → g.2 ≠ []) → ∀ g, g ∈ group_append name p groups → g.2 ≠ [].
Proof.
  induction groups as [|[n0 fs0] rest IH]; simpl; intros Hne g.
  - intros ->%list_elem_of_singleton. done.
  - case_decide as Hn.
    + intros [->|Hg]%elem_of_cons.
      * simpl. intros [_ ?]%app_eq_nil. done.
      * apply Hne. by right.
    + intros [->|Hg]%elem_of_cons.
      * apply (Hne (n0, fs0)). by left.
      * apply IH; [|done]. intros g' Hg'. apply Hne. by right.
Qed.





End GroupAppend.

Section ScanGroups.
Context (home : string) (io_fails : io_op → bool).




End ScanGroups.


(** * Further properties of the cleaner *)

(** ** The run and the external commands *)

(** [X2] A dry-run never runs the two external cache commands: its result
    is the same whatever they would do, and [update_caches] itself does
    nothing in dry-run.  Without dry-run the commands run after the
    statistics are complete: what [run] returns does not depend on their
    exit status or on what they do to the store. *)
Theorem run_ignores_indexers (home : string) (io_fails : io_op → bool)
    (udd umd udd' umd' : string → gmap string node → nat * gmap string node)
    (st : state) :
  run home io_fails udd umd true st = run home io_fails udd' umd' true st ∧
  update_caches home udd umd true st = (Ok tt, st) ∧
  (run home io_fails udd umd false st).1 = (run home io_fails udd' umd' false st).1.
Proof.
  split_and!; [done|done|].
  destruct (run_stages_decompose home io_fails false st)
    as (n1 & r1 & dups & r2 & n3 & r3 & n4 & r4 & _ & _ & _ & _ & _ & Rst).
  destruct (run_of_stages_real home io_fails udd umd st r4 Rst) as (r5 & R5 & ->).
  destruct (run_of_stages_real home io_fails udd' umd' st r4 Rst) as (r5' & R5' & ->).
  apply update_caches_keeps_stats in R5 as [-> _].
  apply update_caches_keeps_stats in R5' as [-> _]. done.
Qed.

(** ** The resolver on a group without files *)

Lemma hide_group_returns (home : string) (io_fails : io_op → bool) (dry_run : bool)
    (g : string * list string) (n : nat) (st : state) :
  g.2 ≠ [] →
  ∃ n' st', hide_group home io_fails dry_run g n st = (Ok n', st') ∧
            duplicates_hidden (stats st') = duplicates_hidden (stats st).
Proof.
  destruct g as [app_name files]. simpl. intros Hne.
  destruct (sorted (sort_key home) files) as [|primary dups] eqn:E.
  { apply (f_equal length) in E. rewrite sorted_length in E.
    destruct files; simpl in *; [done|lia]. }
  set (H := λ s : state, duplicates_hidden (stats s)).
  assert (preserves (same_proj H)
            (for_each dups (hide_file home io_fails dry_run app_name) n)) as Hp.
  { apply preserves_for_each; [apply _|]. intros d k _. unfold hide_file.
    apply preserves_try; [apply _| |intros e; apply log_rel; first [apply _|frame_side]].
    destruct (is_system d).
    - apply preserves_bind; [apply _| |intros; apply preserves_ret, _].
      unfold create_hide_override. destruct dry_run; simpl; [apply preserves_ret, _|].
      apply preserves_try; [apply _| |intros []; apply preserves_raise, _].
      apply fs_write_rel; first [apply _|frame_side].
    - destruct (is_user home d); [|apply preserves_ret, _].
      apply preserves_bind; [apply _| |intros; apply preserves_ret, _].
      unfold add_no_display. destruct dry_run; simpl; [apply preserves_ret, _|].
      apply preserves_try; [apply _| |intros []; apply preserves_raise, _].
      apply preserves_bind; [apply _|apply fs_read_rel; first [apply _|frame_side]|].
      intros c. apply fs_write_rel; first [apply _|frame_side]. }
  assert (total (for_each dups (hide_file home io_fails dry_run app_name) n)) as Ht.
  { apply total_for_each. intros. apply hide_file_total. }
  destruct (total_raise_free _ st Ht) as (n' & st' & Hrun).
  exists n', st'. split; [done|].
  by apply (preserves_run _ _ _ _ _ Hp Hrun).
Qed.

(** [X3] A grouping in which some name has an empty list of files makes
    [hide_duplicate_applications] raise [IndexError] at that group
    ([files_sorted[0]]): the groups before it have been processed, the
    groups after it are not, and [duplicates_hidden] is not updated. *)
Theorem hide_empty_group_raises (home : string) (io_fails : io_op → bool)
    (dry_run : bool) (pre : list (string * list string)) (app_name : string)
    (post : list (string * list string)) (st : state) :
  (∀ g, g ∈ pre → g.2 ≠ []) →
  ∃ n st',
    for_each pre (hide_group home io_fails dry_run) 0 st = (Ok n, st') ∧
    hide_duplicate_applications home io_fails dry_run
      (pre ++ (app_name, []) :: post) st = (Raise IndexError, st') ∧
    duplicates_hidden (stats st') = duplicates_hidden (stats st).
Proof.
  intros Hpre. unfold hide_duplicate_applications. rewrite run_bind.
  assert (∀ k s, ∃ n st',
            for_each pre (hide_group home io_fails dry_run) k s = (Ok n, st') ∧
            for_each (pre ++ (app_name, []) :: post) (hide_group home io_fails dry_run) k s
            = (Raise IndexError, st') ∧
            duplicates_hidden (stats st') = duplicates_hidden (stats s)) as Hloop.
  { induction pre as [|g pre IH]; intros k s.
    - exists k, s. by split_and!.
    - destruct (hide_group_returns home io_fails dry_run g k s) as (k1 & s1 & E1 & H1).
      { apply Hpre. by left. }
      destruct (IH (λ g' Hg', Hpre g' (proj2 (elem_of_cons _ _ _) (or_intror Hg'))) k1 s1)
        as (n & st' & E2 & E3 & H2).
      exists n, st'. simpl. rewrite !run_bind, E1. split_and!; [done|done|congruence]. }
  destruct (Hloop 0 st) as (n & st' & E1 & E2 & H).
  exists n, st'. by rewrite E2.
Qed.

Lemma hide_empty_group_raises_witness :
  ∃ n st',
    for_each [("A", ["/usr/share/applications/a.desktop";
                     "/usr/share/applications/b.desktop"])]
      (hide_group "/home/u" no_failure true) 0 (mkState ∅ stats0 []) = (Ok n, st') ∧
    hide_duplicate_applications "/home/u" no_failure true
      ([("A", ["/usr/share/applications/a.desktop";
               "/usr/share/applications/b.desktop"])] ++ ("B", []) :: [])
      (mkState ∅ stats0 []) = (Raise IndexError, st') ∧
    duplicates_hidden (stats st') = duplicates_hidden (stats (mkState ∅ stats0 [])).
Proof.
  apply (hide_empty_group_raises "/home/u" no_failure true
           [("A", ["/usr/share/applications/a.desktop";
                   "/usr/share/applications/b.desktop"])] "B" []).
  intros g Hg. apply list_elem_of_singleton in Hg. subst g. simpl. discriminate.
Defined.

(** ** A launcher that cannot be read *)

(** [X4] When a launcher cannot be read (the read fails, or the path is
    missing or a directory), [parse_desktop_file] does not raise: it
    returns the empty record and logs one warning, and the scan leaves the
    launcher out of every group. *)
Theorem parse_desktop_file_unreadable (io_fails : io_op → bool) (filepath : string)
    (groups : list (string * list string)) (st : state) :
  read_ok io_fails (disk st) filepath = false →
  parse_desktop_file io_fails filepath st = (Ok info0, add_log (WarnRead filepath) st) ∧
  index_file io_fails filepath groups st = (Ok groups, add_log (WarnRead filepath) st).
Proof.
  intros Hr.
  assert (parse_desktop_file io_fails filepath st
          = (Ok info0, add_log (WarnRead filepath) st)) as Hp.
  { unfold parse_desktop_file, fs_read, read_ok in *. rewrite run_try, run_bind.
    destruct (io_fails (OpRead filepath)); [done|].
    destruct (disk st !! filepath) as [[c|]|]; done. }
  split; [done|]. unfold index_file. by rewrite run_bind, Hp.
Qed.

Lemma parse_desktop_file_unreadable_witness :
  parse_desktop_file no_failure "/usr/share/applications/x.desktop" (mkState ∅ stats0 [])
  = (Ok info0, add_log (WarnRead "/usr/share/applications/x.desktop") (mkState ∅ stats0 [])) ∧
  index_file no_failure "/usr/share/applications/x.desktop" [] (mkState ∅ stats0 [])
  = (Ok [], add_log (WarnRead "/usr/share/applications/x.desktop") (mkState ∅ stats0 [])).
Proof.
  apply (parse_desktop_file_unreadable no_failure "/usr/share/applications/x.desktop" []
           (mkState ∅ stats0 [])).
  reflexivity.
Defined.

(** ** What the purge may touch *)

Lemma sum_list_with_filter_le {A} (f : A → nat) (P Q : A → Prop)
    `{!∀ x, Decision (P x)} `{!∀ x, Decision (Q x)} (l : list A) :
  (∀ x, P x → Q x) →
  sum_list_with f (filter P l) ≤ sum_list_with f (filter Q l).
Proof.
  intros HPQ. induction l as [|x l IH]; [done|].
  destruct (decide (P x)) as [HP|HP].
  - rewrite (filter_cons_True P) by done. rewrite (filter_cons_True Q) by auto.
    simpl. lia.
  - rewrite (filter_cons_False P) by done. destruct (decide (Q x)).
    + rewrite (filter_cons_True Q) by done. simpl. lia.
    + by rewrite (filter_cons_False Q).
Qed.

(** [X5] The purge only deletes, and only its own targets.  Every path of
    the store is after [remove_wine_files] as it was before, or it is gone;
    a path is gone only without dry-run, lies below the user root, and is
    an entry [wine-extension-*.desktop] or [wine-protocol-*.desktop] of
    the user root or lies in (or is) an entry [backup_*] that is a
    directory with a [wine-*.desktop] file in it. *)
Theorem purge_only_deletes (home : string) (io_fails : io_op → bool) (dry_run : bool)
    (st : state) (q : string) :
  let st' := (remove_wine_files home io_fails dry_run st).2 in
  disk st' !! q = disk st !! q ∨
  (dry_run = false ∧ disk st' !! q = None ∧ is_user home q = true ∧
   (q ∈ glob (disk st) (user_apps_dir home) "wine-extension-" ".desktop" ∨
    q ∈ glob (disk st) (user_apps_dir home) "wine-protocol-" ".desktop" ∨
    ∃ d, d ∈ glob (disk st) (user_apps_dir home) "backup_" "" ∧
         is_dir (disk st) d = true ∧ wine_in (disk st) d ≠ [] ∧ under d q = true)).
Proof.
  destruct dry_run.
  { left. by rewrite remove_wine_files_dry. }
  destruct (remove_wine_files_real home io_fails st) as (st1 & -> & _ & Hlook & _).
  cbn [snd]. rewrite Hlook. clear Hlook.
  case_bool_decide as Hex.
  - right. apply Exists_exists in Hex as (d & Hd & Hok & Hu).
    unfold rmtree_ok in Hok. apply andb_true_iff in Hok as [Hok _].
    apply andb_true_iff in Hok as [Hdir Hw%bool_decide_eq_true].
    split_and!; [done|done| |].
    + apply glob_elem in Hd as [_ Hd%glob_hit_startswith].
      unfold is_user. unfold under in Hu. apply orb_true_iff in Hu as [Hq|Hq].
      * apply bool_decide_eq_true in Hq. by subst q.
      * eapply StrFacts.startswith_trans; [exact Hq|].
        eapply StrFacts.startswith_trans; [apply PathFacts.startswith_dir_prefix|done].
    + right. right. by exists d.
  - destruct ((bool_decide _ || bool_decide _) && _) eqn:E; [|by left].
    right. apply andb_true_iff in E as [E _]. apply orb_true_iff in E.
    split_and!; [done|done| |].
    + destruct E as [E|E]; apply bool_decide_eq_true in E;
        apply glob_elem in E as [_ E%glob_hit_startswith]; done.
    + destruct E as [E|E]; apply bool_decide_eq_true in E; auto.
Qed.

(** [X6] The dry-run of the purge returns the number of candidates and
    changes nothing but [wine_files_removed], whatever would fail.  The
    purge without dry-run never counts more than that, and counts exactly
    that when it logs no failure. *)
Theorem purge_real_at_most_dry (home : string) (io_fails : io_op → bool) (st : state) :
  ∃ n_dry n_real st_real,
    remove_wine_files home io_fails true st
    = (Ok n_dry, set_wine_files_removed n_dry st) ∧
    n_dry = purge_candidates home (disk st) ∧
    remove_wine_files home io_fails false st = (Ok n_real, st_real) ∧
    n_real ≤ n_dry ∧
    (log st_real = log st → n_real = n_dry).
Proof.
  destruct (remove_wine_files_real home io_fails st) as (st1 & Hrun & Hn & _).
  exists (purge_candidates home (disk st)), (wine_files_removed (stats st1)), st1.
  split_and!; [apply remove_wine_files_dry|done|done| |].
  - rewrite Hn. unfold purge_candidates.
    pose proof (length_filter (λ p, unlink_ok io_fails (disk st) p = true)
                  (glob (disk st) (user_apps_dir home) "wine-extension-" ".desktop")).
    pose proof (length_filter (λ p, unlink_ok io_fails (disk st) p = true)
                  (glob (disk st) (user_apps_dir home) "wine-protocol-" ".desktop")).
    pose proof (sum_list_with_filter_le (λ d, length (wine_in (disk st) d))
                  (λ d, rmtree_ok io_fails (disk st) d = true)
                  (λ d, counted_dir (disk st) d = true)
                  (glob (disk st) (user_apps_dir home) "backup_" "")) as Hs.
    assert (∀ x, rmtree_ok io_fails (disk st) x = true → counted_dir (disk st) x = true)
      as Hrc.
    { intros x. unfold rmtree_ok, counted_dir. by intros [? _]%andb_true_iff. }
    specialize (Hs Hrc). lia.
  - intros Hlog. by eapply remove_wine_files_quiet.
Qed.

(** * Reading back what the cleaner writes *)

Section ReadBack.
Import Str StrFacts.


(** The field [f] of the extracted record depends on the lines of its key
    only. *)
Lemma parse_lines_filter (f : field) (lines : list string) (i : info) :
  read_field f (parse_lines lines i)
  = read_field f (parse_lines (filter (λ l, is_key_line f l = true) lines) i).
Proof.
  induction lines as [|x lines IH] using rev_ind; [done|].
  rewrite filter_app. unfold parse_lines in *. rewrite foldl_app. simpl.
  destruct (is_key_line f x) eqn:Hx.
  - rewrite filter_cons_True, filter_nil by done. rewrite foldl_app. simpl.
    by rewrite !parse_line_key.
  - rewrite filter_cons_False, filter_nil, app_nil_r by (by rewrite Hx).
    by rewrite parse_line_other.
Qed.

Lemma info_eq (i j : info) :
  (∀ f, read_field f i = read_field f j) → i = j.
Proof.
  intros H. destruct i as [n d t], j as [n' d' t'].
  pose proof (H FName) as Hn. pose proof (H FNoDisplay) as Hd.
  pose proof (H FType) as Ht. simpl in *.
  f_equal.
  - destruct n, n'; simpl in *; congruence.
  - destruct d, d'; simpl in *; congruence.
  - destruct t, t'; simpl in *; congruence.
Qed.

(** Inserting the flag leaves the lines of the other keys as they are. *)
Lemma insert_flag_filter (f : field) (lines : list string) (added : bool) :
  f ≠ FNoDisplay →
  filter (λ l, is_key_line f l = true) (insert_flag lines added).1
  = filter (λ l, is_key_line f l = true) lines.
Proof.
  intros Hf. revert added. induction lines as [|l lines IH]; intros added; [done|].
  cbn [insert_flag]. destruct (bool_decide _ && negb added).
  - specialize (IH true). destruct (insert_flag lines true) as [out fin].
    cbv beta iota zeta. cbn [fst] in *. rewrite (filter_cons _ l), (filter_cons _ l).
    rewrite (filter_cons _ ("NoDisplay=true" +:+ NL)).
    assert (is_key_line f ("NoDisplay=true" +:+ NL) = false) as ->.
    { by destruct f. }
    rewrite IH. by repeat case_decide.
  - specialize (IH added). destruct (insert_flag lines added) as [out fin].
    cbv beta iota zeta. cbn [fst] in *. by rewrite !filter_cons, IH.
Qed.

Lemma insert_flag_terminated (lines : list string) (added : bool) :
  Forall terminated lines → Forall terminated (insert_flag lines added).1.
Proof.
  revert added. induction lines as [|l lines IH]; intros added; [done|].
  intros [Hl Hls]%Forall_cons. cbn [insert_flag].
  destruct (bool_decide _ && negb added).
  - specialize (IH true Hls). destruct (insert_flag lines true) as [out fin].
    cbv beta iota zeta. cbn [fst] in *. repeat (apply Forall_cons; split); try done.
    apply flag_line_terminated.
  - specialize (IH added Hls). destruct (insert_flag lines added) as [out fin].
    cbv beta iota zeta. cbn [fst] in *. by apply Forall_cons.
Qed.

(** With no flag line among the lines read, exactly one is among the lines
    written when the flag was added. *)
Lemma insert_flag_flag (lines : list string) (added : bool) :
  (∀ l, l ∈ lines → is_key_line FNoDisplay l = false) →
  filter (λ l, is_key_line FNoDisplay l = true) (insert_flag lines added).1
  = if (insert_flag lines added).2 && negb added then [flag_line] else [].
Proof.
  revert added. induction lines as [|l lines IH]; intros added Hl.
  - simpl. by rewrite andb_negb_r.
  - cbn [insert_flag].
    assert (is_key_line FNoDisplay l = false) as Hl0 by (apply Hl; by left).
    assert (∀ l', l' ∈ lines → is_key_line FNoDisplay l' = false) as Hl1.
    { intros l' Hl'. apply Hl. by right. }
    destruct (bool_decide _ && negb added) eqn:E.
    + apply andb_true_iff in E as [_ Ha]. apply negb_true_iff in Ha. subst added.
      rewrite insert_flag_added. cbn [fst snd andb negb].
      rewrite filter_cons_False by (by rewrite Hl0).
      rewrite filter_cons_True by done.
      rewrite filter_none; [done|]. intros l' Hl'. by rewrite Hl1.
    + specialize (IH added Hl1). destruct (insert_flag lines added) as [out fin].
      cbv beta iota zeta. cbn [fst snd] in *. by rewrite filter_cons_False by (by rewrite Hl0).
Qed.

End ReadBack.

(** The lines of the stub, for an application name without a line break. *)
Lemma override_content_readlines (app_name : string) :
  Str.has_char Str.newline app_name = false →
  Str.readlines (override_content app_name)
  = ["[Desktop Entry]" +:+ Str.NL; "Type=Application" +:+ Str.NL;
     ("Name=" +:+ app_name) +:+ Str.NL; "NoDisplay=true" +:+ Str.NL].
Proof.
  intros Hn. unfold override_content.
  rewrite (StrFacts.readlines_line "[Desktop Entry]") by done.
  rewrite (StrFacts.readlines_line "Type=Application") by done.
  rewrite <-(StrFacts.sapp_assoc "Name=" app_name).
  rewrite (StrFacts.readlines_line ("Name=" +:+ app_name)).
  2:{ rewrite StrFacts.has_char_app. by rewrite Hn. }
  rewrite <-(StrFacts.sapp_nil_r Str.NL) at 4.
  by rewrite (StrFacts.readlines_line "NoDisplay=true") by done.
Qed.



Lemma filter_filter_imp {A} (P Q : A → Prop) `{!∀ x, Decision (P x)}
    `{!∀ x, Decision (Q x)} (l : list A) :
  (∀ x, P x → Q x) → filter P (filter Q l) = filter P l.
Proof.
  intros HPQ. induction l as [|x l IH]; [done|].
  rewrite (filter_cons Q). destruct (decide (Q x)) as [HQ|HQ].
  - rewrite !filter_cons. by rewrite IH.
  - rewrite IH. rewrite (filter_cons P). rewrite decide_False; [done|]. auto.
Qed.

(** The lines of the key [f] among the lines that [_add_no_display]
    writes. *)
Lemma add_no_display_lines_filter (f : field) (lines : list string) :
  filter (λ l, is_key_line f l = true) (add_no_display_lines lines)
  = if decide (f = FNoDisplay) then [flag_line]
    else filter (λ l, is_key_line f l = true) lines.
Proof.
  unfold add_no_display_lines.
  set (kept := filter (λ line, Str.startswith (Str.strip line) "NoDisplay=" = false) lines).
  assert (∀ l, l ∈ kept → is_key_line FNoDisplay l = false) as Hkept.
  { by intros l [Hl _]%list_elem_of_filter. }
  pose proof (insert_flag_flag kept false Hkept) as Hflag.
  pose proof (λ Hf, insert_flag_filter f kept false Hf) as Hother.
  destruct (insert_flag kept false) as [out fin]. cbn [fst snd] in *.
  case_decide as Hf.
  - subst f. destruct fin; cbn [andb negb] in Hflag.
    + done.
    + rewrite filter_app, Hflag. reflexivity.
  - specialize (Hother Hf).
    assert (filter (λ l, is_key_line f l = true) kept
            = filter (λ l, is_key_line f l = true) lines) as Hk.
    { apply filter_filter_imp. intros l Hl. unfold is_key_line in Hl.
      by apply (key_exclusive f FNoDisplay). }
    destruct fin.
    + by rewrite Hother, Hk.
    + rewrite filter_app, Hother, Hk.
      assert (filter (λ l, is_key_line f l = true)
                ["[Desktop Entry]" +:+ Str.NL; "NoDisplay=true" +:+ Str.NL] = []) as ->.
      { by destruct f. }
      by rewrite app_nil_r.
Qed.

Lemma add_no_display_lines_terminated (lines : list string) :
  Forall terminated lines → Forall terminated (add_no_display_lines lines).
Proof.
  intros Hl. unfold add_no_display_lines.
  set (kept := filter (λ line, Str.startswith (Str.strip line) "NoDisplay=" = false) lines).
  assert (Forall terminated kept) as Hk.
  { apply Forall_forall. intros l [_ Hin]%list_elem_of_filter.
    rewrite Forall_forall in Hl. by apply Hl. }
  pose proof (insert_flag_terminated kept false Hk) as Hout.
  destruct (insert_flag kept false) as [out fin]. cbn [fst] in *.
  destruct fin; [done|]. apply Forall_app. split; [done|].
  repeat (apply Forall_cons; split); try done.
  - apply header_line_terminated.
  - apply flag_line_terminated.
Qed.


(** [X8] A launcher whose lines are all terminated reads back, after
    [_add_no_display] has rewritten it, as hidden, with the name and the
    type it had: the suppressed record is not listed by the next scan. *)
Theorem add_no_display_parses (content : string) :
  content = "" ∨ Str.endswith content Str.NL = true →
  parse_lines (Str.readlines (add_no_display_text content)) info0
  = mkInfo (info_name (parse_lines (Str.readlines content) info0)) (Some true)
      (info_type (parse_lines (Str.readlines content) info0)).
Proof.
  intros Hterm. apply StrFacts.readlines_terminated in Hterm.
  unfold add_no_display_text.
  rewrite StrFacts.readlines_concat by by apply add_no_display_lines_terminated.
  apply info_eq. intros f.
  rewrite parse_lines_filter, add_no_display_lines_filter.
  case_decide as Hf.
  - subst f. reflexivity.
  - rewrite <-parse_lines_filter. by destruct f.
Qed.

Lemma add_no_display_parses_witness :
  parse_lines (Str.readlines (add_no_display_text
                 (text_of ["[Desktop Entry]"; "Name=X"; "NoDisplay=false"; "Type=Application"])))
    info0
  = mkInfo (info_name (parse_lines (Str.readlines
                         (text_of ["[Desktop Entry]"; "Name=X"; "NoDisplay=false";
                                   "Type=Application"])) info0))
      (Some true)
      (info_type (parse_lines (Str.readlines
                    (text_of ["[Desktop Entry]"; "Name=X"; "NoDisplay=false";
                              "Type=Application"])) info0)).
Proof.
  apply (add_no_display_parses
           (text_of ["[Desktop Entry]"; "Name=X"; "NoDisplay=false"; "Type=Application"])).
  right. reflexivity.
Defined.

(** * The text of an association file *)


(** * The backup of an association file *)




(** * The association stage and the statistics of a run *)

Section MimeAccounts.
Context (home : string) (io_fails : io_op → bool).
Import Str StrFacts PathStr PathFacts.

Lemma clean_mime_file_same_log (dry_run : bool) (f : string) :
  preserves (same_proj log) (clean_mime_file io_fails dry_run f).
Proof.
  unfold clean_mime_file.
  apply preserves_try; [apply _| |intros []; apply preserves_raise, _].
  apply preserves_bind; [apply _| |].
  - destruct dry_run; simpl; [apply preserves_ret, _|].
    apply preserves_bind; [apply _|apply fs_copy_rel; first [apply _|frame_side]|].
    intros _. apply preserves_modify. frame_side.
  - intros _. apply preserves_bind; [apply _|apply fs_read_rel; first [apply _|frame_side]|].
    intros c. apply preserves_bind; [apply _| |intros; apply preserves_ret, _].
    destruct dry_run; simpl; [apply preserves_ret, _|].
    apply fs_write_rel; first [apply _|frame_side].
Qed.

(** A step of the association stage counts the file or logs one error when
    the file exists, and does neither when it does not. *)
Lemma clean_mime_step_accounts (dry_run : bool) (f : string) (n : nat) (st : state) :
  ∃ n' st',
    clean_mime_step io_fails dry_run f n st = (Ok n', st') ∧
    n' + length (log st')
    = n + length (log st) + (if exists_ (disk st) f then 1 else 0).
Proof.
  rewrite clean_mime_step_run.
  destruct (exists_ (disk st) f); [|exists n, st; split; [done|lia]].
  pose proof (clean_mime_file_same_log dry_run f st) as Hlog. unfold same_proj in Hlog.
  destruct (clean_mime_file_outcome io_fails dry_run f st) as [Hok|[Hraise _]];
    destruct (clean_mime_file io_fails dry_run f st) as [[[|]|e] st1]; simpl in *; try done.
  - exists (n + 1), st1. split; [done|]. rewrite Hlog. lia.
  - exists n, (add_log (ErrClean f e) st1). split; [done|]. simpl.
    rewrite length_app, Hlog. simpl. lia.
Qed.

Lemma config_not_user_backup :
  config_mime_file home ≠ with_suffix (user_mime_file home) ".list.bak".
Proof.
  intros Heq. pose proof (config_not_user home) as Hc. rewrite Heq in Hc.
  rewrite Layout.user_backup_eq in Hc. unfold is_user in Hc.
  by rewrite startswith_app in Hc.
Qed.

Lemma config_not_user_backup_entry :
  config_mime_file home
  ≠ joinpath (with_suffix (user_mime_file home) ".list.bak") (name (user_mime_file home)).
Proof.
  intros Heq. pose proof (config_not_user home) as Hc. rewrite Heq in Hc.
  unfold is_user in Hc.
  rewrite (startswith_trans _ (with_suffix (user_mime_file home) ".list.bak")) in Hc;
    [done|apply joinpath_startswith|].
  rewrite Layout.user_backup_eq. apply startswith_app.
Qed.

End MimeAccounts.

(** [X11] The association stage never raises, and accounts for each of the
    two association files that exist when it starts: the file is either
    counted in the result, which is stored in [mime_duplicates_cleaned], or
    reported by one log entry; a file that does not exist is neither. *)
Theorem clean_mime_duplicates_accounts (home : string) (io_fails : io_op → bool)
    (dry_run : bool) (st : state) :
  ∃ n st',
    clean_mime_duplicates home io_fails dry_run st = (Ok n, st') ∧
    mime_duplicates_cleaned (stats st') = n ∧
    n + length (log st')
    = length (log st)
      + length (filter (λ f, exists_ (disk st) f = true)
                  [user_mime_file home; config_mime_file home]).
Proof.
  unfold clean_mime_duplicates. rewrite run_bind. cbn [for_each]. rewrite run_bind.
  destruct (clean_mime_step_accounts io_fails dry_run (user_mime_file home) 0 st)
    as (n1 & st1 & E1 & H1).
  rewrite E1, run_bind.
  destruct (clean_mime_step_accounts io_fails dry_run (config_mime_file home) n1 st1)
    as (n2 & st2 & E2 & H2).
  rewrite E2. exists n2, (set_mime_duplicates_cleaned n2 st2).
  split_and!; [done|done|]. cbn [set_mime_duplicates_cleaned set_stats log].
  assert (disk st1 !! config_mime_file home = disk st !! config_mime_file home) as Hc.
  { eapply (preserves_run (same_on (λ q, q = config_mime_file home))); [|exact E1|done].
    apply clean_mime_step_same_on.
    - intros Heq. pose proof (config_not_user home) as Hn. rewrite <-Heq in Hn.
      by rewrite user_mime_is_user in Hn.
    - intros Heq. by apply (config_not_user_backup home).
    - intros Heq. by apply (config_not_user_backup_entry home). }
  rewrite (exists_lookup _ _ _ Hc) in H2.
  rewrite !filter_cons, filter_nil.
  destruct (exists_ (disk st) (user_mime_file home)),
    (exists_ (disk st) (config_mime_file home));
    repeat case_decide; simpl; try done; lia.
Qed.

(** [X12] What [run] returns is the statistics as the stages left them:
    [wine_files_removed], [duplicates_hidden] and [mime_duplicates_cleaned]
    are the values returned by the purge, by the resolver and by the
    association stage, run in this order with the scan between the first
    two; the cache update changes none of them. *)
Theorem run_returns_stage_results (home : string) (io_fails : io_op → bool)
    (update_desktop_database update_mime_database :
       string → gmap string node → nat * gmap string node)
    (dry_run : bool) (st : state) :
  ∃ n1 st1 duplicates st2 n3 st3 n4 st4 st5,
    remove_wine_files home io_fails dry_run st = (Ok n1, st1) ∧
    find_duplicate_applications home io_fails st1 = (Ok duplicates, st2) ∧
    hide_duplicate_applications home io_fails dry_run duplicates st2 = (Ok n3, st3) ∧
    clean_mime_duplicates home io_fails dry_run st3 = (Ok n4, st4) ∧
    run home io_fails update_desktop_database update_mime_database dry_run st
    = (Ok (mkStats n1 n3 n4 (backups_created (stats st4))), st5) ∧
    stats st5 = stats st4.
Proof.
  destruct (run_stages_decompose home io_fails dry_run st)
    as (n1 & st1 & dups & st2 & n3 & st3 & n4 & st4 & E1 & E2 & _ & E3 & E4 & Est).
  assert (wine_files_removed (stats st1) = n1) as H1.
  { destruct dry_run.
    - rewrite remove_wine_files_dry in E1. by injection E1 as <- <-.
    - destruct (remove_wine_files_real home io_fails st) as (st1' & Hrun & _).
      rewrite E1 in Hrun. by injection Hrun as -> <-. }
  assert (duplicates_hidden (stats st3) = n3) as H3.
  { unfold hide_duplicate_applications in E3. rewrite run_bind in E3.
    destruct (for_each _ _ _ st2) as [[k|e] s]; [|done].
    rewrite run_bind in E3. by injection E3 as <- <-. }
  assert (mime_duplicates_cleaned (stats st4) = n4) as H4.
  { unfold clean_mime_duplicates in E4. rewrite run_bind in E4.
    destruct (for_each _ _ _ st3) as [[k|e] s]; [|done].
    rewrite run_bind in E4. by injection E4 as <- <-. }
  assert (wine_files_removed (stats st4) = n1) as H1'.
  { rewrite <-H1. by eapply later_stages_keep_wine. }
  assert (duplicates_hidden (stats st4) = n3) as H3'.
  { rewrite <-H3. set (H := λ s : state, duplicates_hidden (stats s)).
    eapply (preserves_run (same_proj H)); [|exact E4].
    apply clean_mime_duplicates_rel; first [apply _|frame_side]. }
  assert (stats st4 = mkStats n1 n3 n4 (backups_created (stats st4))) as Hs.
  { destruct (stats st4). simpl in *. congruence. }
  destruct dry_run.
  - exists n1, st1, dups, st2, n3, st3, n4, st4, st4. split_and!; try done.
    rewrite (run_of_stages_dry _ _ _ _ _ _ Est). by rewrite <-Hs.
  - destruct (run_of_stages_real home io_fails update_desktop_database
                update_mime_database st st4 Est) as (st5 & E5 & Erun).
    apply update_caches_keeps_stats in E5 as [E5 _].
    exists n1, st1, dups, st2, n3, st3, n4, st4, st5. split_and!; try done.
    rewrite Erun, E5. by rewrite <-Hs.
Qed.

(** * The command line *)

(** [X13] Without [--auto] and without [--dry-run], [main] asks first.  When
    the prompt is interrupted, or the answer in lower case is neither [y]
    nor [yes], [main] returns the exit code 0 and nothing has been touched:
    the cleaner has not even been constructed. *)
Theorem main_cancelled (home : string) (io_fails : io_op → bool)
    (update_desktop_database update_mime_database :
       string → gmap string node → nat * gmap string node)
    (mkdir_parents : string → gmap string node → option (gmap string node))
    (args : Args) (answer : prompt) (st : state) :
  args_auto args = false →
  args_dry_run args = false →
  answer = Interrupted ∨
    (∃ response, answer = Typed response ∧
                 Str.lower response ≠ "y" ∧ Str.lower response ≠ "yes") →
  main home io_fails update_desktop_database update_mime_database mkdir_parents
    args answer st = (Returns 0, st).
Proof.
  intros Hauto Hdry Hans. unfold main. rewrite Hauto, Hdry. cbn [negb andb].
  destruct Hans as [->|(response & -> & Hy & Hyes)]; [done|].
  unfold confirmed. rewrite bool_decide_eq_false_2; [done|].
  intros [?|[?|[]%elem_of_nil]%elem_of_cons]%elem_of_cons; done.
Qed.

Lemma main_cancelled_witness :
  main "/home/u" no_failure no_indexer no_indexer (λ _ m, Some m)
    (mkArgs false false false) (Typed "No") (mkState ∅ stats0 [])
  = (Returns 0, mkState ∅ stats0 []).
Proof.
  apply (main_cancelled "/home/u" no_failure no_indexer no_indexer (λ _ m, Some m)
           (mkArgs false false false) (Typed "No") (mkState ∅ stats0 [])).
  - reflexivity.
  - reflexivity.
  - right. exists "No". split_and!; [reflexivity|discriminate|discriminate].
Defined.

(** [X14] Once [main] goes on (with [--auto], with [--dry-run], or after
    the answer [y] or [yes] in any case of letters), its exit code is 1
    exactly when the constructor cannot create the user root; otherwise
    [run] returns and the exit code is 0.  With [--dry-run] the store at
    the end is the store in which the user root has been created: this
    directory is the one thing a dry-run may add. *)
Theorem main_exit_code (home : string) (io_fails : io_op → bool)
    (update_desktop_database update_mime_database :
       string → gmap string node → nat * gmap string node)
    (mkdir_parents : string → gmap string node → option (gmap string node))
    (args : Args) (answer : prompt) (st : state) :
  args_auto args = true ∨ args_dry_run args = true ∨
    (∃ response, answer = Typed response ∧ confirmed response = true) →
  match mkdir_parents (user_apps_dir home) (disk st) with
  | None =>
      main home io_fails update_desktop_database update_mime_database mkdir_parents
        args answer st = (Returns 1, st)
  | Some m =>
      ∃ s st',
        run home io_fails update_desktop_database update_mime_database
          (args_dry_run args) (mkState m stats0 (log st)) = (Ok s, st') ∧
        main home io_fails update_desktop_database update_mime_database mkdir_parents
          args answer st = (Returns 0, st') ∧
        (args_dry_run args = true → disk st' = m)
  end.
Proof.
  intros Hgo.
  assert (main home io_fails update_desktop_database update_mime_database mkdir_parents
            args answer st
          = run_cleaner home io_fails update_desktop_database update_mime_database
              mkdir_parents args st) as ->.
  { unfold main. destruct Hgo as [->|[->|(response & -> & ->)]];
      rewrite ?andb_false_r; try done. cbn [negb]. by destruct (_ && _). }
  unfold run_cleaner, init.
  destruct (mkdir_parents (user_apps_dir home) (disk st)) as [m|]; [|done].
  destruct (total_raise_free _ (mkState m stats0 (log st))
              (run_total home io_fails update_desktop_database update_mime_database
                 (args_dry_run args))) as (s & st' & Hrun).
  exists s, st'. rewrite Hrun. split_and!; [done|done|].
  intros Hdry. rewrite Hdry in Hrun.
  destruct (run_stages_decompose home io_fails true (mkState m stats0 (log st)))
    as (? & ? & ? & ? & ? & ? & ? & st4 & _ & _ & _ & _ & _ & Hst).
  rewrite (run_of_stages_dry _ _ _ _ _ _ Hst) in Hrun. injection Hrun as _ <-.
  by destruct (dry_stages_same_disk home io_fails _ _ Hst) as [-> _].
Qed.

Lemma main_exit_code_witness :
  ∃ s st',
    run "/home/u" no_failure no_indexer no_indexer true
      (mkState (<["/home/u/.local/share/applications" := Dir]> ∅) stats0 []) = (Ok s, st') ∧
    main "/home/u" no_failure no_indexer no_indexer
      (λ p m, Some (<[p := Dir]> m)) (mkArgs true false false) EndOfInput
      (mkState ∅ stats0 []) = (Returns 0, st') ∧
    (true = true → disk st' = <["/home/u/.local/share/applications" := Dir]> ∅).
Proof.
  apply (main_exit_code "/home/u" no_failure no_indexer no_indexer
           (λ p m, Some (<[p := Dir]> m)) (mkArgs true false false) EndOfInput
           (mkState ∅ stats0 [])).
  right. left. reflexivity.
Defined.

(** * The standalone script and the package *)

(** A loop whose body logs what it catches: when the whole loop has logged
    nothing, each round has done what the body without the handler does. *)
Lemma for_each_quiet {A S} (l : list A) (body_p body_s : A → S → M S) (acc : S)
    (st : state) (r : S) (st' : state) :
  (∀ x a, x ∈ l → preserves log_grows (body_p x a)) →
  (∀ x a s r s', x ∈ l → body_p x a s = (Ok r, s') → log s' = log s →
                 body_s x a s = (Ok r, s')) →
  for_each l body_p acc st = (Ok r, st') →
  log st' = log st →
  for_each l body_s acc st = (Ok r, st').
Proof.
  revert acc st. induction l as [|x l IH]; intros acc st Hgrow Hstep Hrun Hlog; [done|].
  cbn [for_each] in *. rewrite run_bind in *.
  destruct (body_p x acc st) as [[a1|e] s1] eqn:E1; [|done].
  assert (log s1 = log st) as Hs1.
  { eapply (log_grows_squeeze st s1 st'); [| |done].
    - eapply (preserves_run log_grows); [|exact E1]. apply Hgrow. by left.
    - eapply (preserves_run log_grows); [|exact Hrun].
      apply preserves_for_each; [apply _|]. intros y a Hy. apply Hgrow. by right. }
  rewrite (Hstep x acc st a1 s1); [|by left|done|done].
  apply IH; [| |done|congruence].
  - intros y a Hy. apply Hgrow. by right.
  - intros y a s r' s' Hy. apply Hstep. by right.
Qed.

Lemma run_get (st : state) : get_state st = (Ok st, st).
Proof. done. Qed.

Lemma run_modify (f : state → state) (st : state) : modify f st = (Ok tt, f st).
Proof. done. Qed.

Lemma add_log_not_same (e : log_entry) (st st' : state) :
  log st' = log st → log (add_log e st') ≠ log st.
Proof.
  intros H Heq. simpl in Heq. rewrite H in Heq.
  apply (f_equal length) in Heq. rewrite length_app in Heq. simpl in Heq. lia.
Qed.

Section ScriptStages.
Context (home : string) (io_fails : io_op → bool).
Context (update_desktop_database update_mime_database :
           string → gmap string node → nat * gmap string node).

Lemma fs_unlink_same_log (p : string) : preserves (same_proj log) (fs_unlink io_fails p).
Proof. apply fs_unlink_rel; first [apply _|frame_side]. Qed.

Lemma fs_rmtree_same_log (p : string) : preserves (same_proj log) (fs_rmtree io_fails p).
Proof. apply fs_rmtree_rel; first [apply _|frame_side]. Qed.

Lemma fs_write_same_log (p c : string) : preserves (same_proj log) (fs_write io_fails p c).
Proof. apply fs_write_rel; first [apply _|frame_side]. Qed.

Lemma fs_read_same_log (p : string) : preserves (same_proj log) (fs_read io_fails p).
Proof. apply fs_read_rel; first [apply _|frame_side]. Qed.

(** *** The purge *)

Lemma remove_file_quiet (dry_run : bool) (p : string) (n : nat) (s : state) (r : nat)
    (s' : state) :
  remove_file io_fails dry_run p n s = (Ok r, s') → log s' = log s →
  Script.remove_file io_fails dry_run p n s = (Ok r, s').
Proof.
  unfold remove_file, Script.remove_file. destruct dry_run; cbn [negb]; [done|].
  rewrite run_try, !run_bind.
  pose proof (fs_unlink_same_log p s) as Hl. unfold same_proj in Hl.
  destruct (fs_unlink io_fails p s) as [[[]|e] s1]; simpl in *; [done|].
  destruct e; simpl; try done. intros [= <- <-] Hlog.
  destruct (add_log_not_same _ _ _ Hl Hlog).
Qed.

Lemma remove_file_log_grows (dry_run : bool) (p : string) (n : nat) :
  preserves log_grows (remove_file io_fails dry_run p n).
Proof.
  unfold remove_file. destruct dry_run; cbn [negb]; [apply preserves_ret, _|].
  apply preserves_try; [apply _| |].
  - apply preserves_bind; [apply _| |intros; apply preserves_ret, _].
    apply fs_unlink_rel; first [apply _|frame_side].
  - intros []; try apply preserves_raise, _. apply log_rel; first [apply _|frame_side].
Qed.

Lemma remove_pattern_quiet (dry_run : bool) (pat : string * string) (n : nat)
    (s : state) (r : nat) (s' : state) :
  remove_pattern home io_fails dry_run pat n s = (Ok r, s') → log s' = log s →
  Script.remove_pattern home io_fails dry_run pat n s = (Ok r, s').
Proof.
  unfold remove_pattern, Script.remove_pattern. rewrite !run_bind. simpl.
  apply for_each_quiet.
  - intros. apply remove_file_log_grows.
  - intros x a s0 r0 s0' _. apply remove_file_quiet.
Qed.

Lemma remove_pattern_log_grows (dry_run : bool) (pat : string * string) (n : nat) :
  preserves log_grows (remove_pattern home io_fails dry_run pat n).
Proof.
  unfold remove_pattern.
  apply preserves_bind; [apply _|apply preserves_get, _|]. intros st.
  apply preserves_for_each; [apply _|]. intros. apply remove_file_log_grows.
Qed.

Lemma remove_backup_dir_log_grows (dry_run : bool) (d : string) (n : nat) :
  preserves log_grows (remove_backup_dir io_fails dry_run d n).
Proof.
  unfold remove_backup_dir.
  apply preserves_bind; [apply _|apply preserves_get, _|]. intros st.
  destruct (is_dir (disk st) d); [|apply preserves_ret, _].
  case_bool_decide; [|apply preserves_ret, _].
  destruct dry_run; cbn [negb]; [apply preserves_ret, _|].
  apply preserves_try; [apply _| |].
  - apply preserves_bind; [apply _| |intros; apply preserves_ret, _].
    apply fs_rmtree_rel; first [apply _|frame_side].
  - intros []; try apply preserves_raise, _. apply log_rel; first [apply _|frame_side].
Qed.

Lemma remove_backup_dir_quiet (dry_run : bool) (d : string) (n : nat) (s : state)
    (r : nat) (s' : state) :
  remove_backup_dir io_fails dry_run d n s = (Ok r, s') → log s' = log s →
  Script.remove_backup_dir io_fails dry_run d n s = (Ok r, s').
Proof.
  unfold remove_backup_dir, Script.remove_backup_dir. rewrite !run_bind. simpl.
  destruct (is_dir (disk s) d); [|done].
  case_bool_decide; [|done].
  destruct dry_run; cbn [negb]; [done|].
  rewrite run_try, !run_bind.
  pose proof (fs_rmtree_same_log d s) as Hl. unfold same_proj in Hl.
  destruct (fs_rmtree io_fails d s) as [[[]|e] s1]; simpl in *; [done|].
  destruct e; simpl; try done. intros [= <- <-] Hlog.
  destruct (add_log_not_same _ _ _ Hl Hlog).
Qed.

Lemma script_purge_quiet (dry_run : bool) (st : state) (n : nat) (st' : state) :
  remove_wine_files home io_fails dry_run st = (Ok n, st') → log st' = log st →
  Script.remove_wine_files home io_fails dry_run st = (Ok tt, st').
Proof.
  intros Hrun Hlog. unfold remove_wine_files in Hrun. rewrite run_bind in Hrun.
  destruct (for_each wine_patterns (remove_pattern home io_fails dry_run) 0 st)
    as [[n1|e] s1] eqn:E1; [|done].
  rewrite run_bind, run_get, run_bind in Hrun.
  destruct (for_each (glob (disk s1) (user_apps_dir home) "backup_" "")
              (remove_backup_dir io_fails dry_run) n1 s1) as [[n2|e] s2] eqn:E2; [|done].
  rewrite run_bind, run_modify, run_ret in Hrun. injection Hrun as <- <-.
  cbn [set_wine_files_removed set_stats log] in Hlog.
  assert (log_grows st s1) as G1.
  { eapply (preserves_run log_grows); [|exact E1].
    apply preserves_for_each; [apply _|]. intros. apply remove_pattern_log_grows. }
  assert (log_grows s1 s2) as G2.
  { eapply (preserves_run log_grows); [|exact E2].
    apply preserves_for_each; [apply _|]. intros. apply remove_backup_dir_log_grows. }
  assert (log s1 = log st) as L1 by (by eapply (log_grows_squeeze st s1 s2)).
  unfold Script.remove_wine_files.
  rewrite run_bind.
  rewrite (for_each_quiet _ _ (Script.remove_pattern home io_fails dry_run) _ _ _ _
             (λ x a _, remove_pattern_log_grows dry_run x a)
             (λ x a s r s' _, remove_pattern_quiet dry_run x a s r s') E1 L1).
  rewrite run_bind, run_get, run_bind.
  rewrite (for_each_quiet _ _ (Script.remove_backup_dir io_fails dry_run) _ _ _ _
             (λ x a _, remove_backup_dir_log_grows dry_run x a)
             (λ x a s r s' _, remove_backup_dir_quiet dry_run x a s r s') E2);
    [|congruence].
  by rewrite run_modify.
Qed.

(** *** The resolver *)

Lemma hide_file_log_grows (dry_run : bool) (app_name d : string) (n : nat) :
  preserves log_grows (hide_file home io_fails dry_run app_name d n).
Proof.
  unfold hide_file.
  apply preserves_try; [apply _| |intros e; apply log_rel; first [apply _|frame_side]].
  destruct (is_system d).
  - apply preserves_bind; [apply _| |intros; apply preserves_ret, _].
    unfold create_hide_override. destruct dry_run; simpl; [apply preserves_ret, _|].
    apply preserves_try; [apply _| |intros []; apply preserves_raise, _].
    apply fs_write_rel; first [apply _|frame_side].
  - destruct (is_user home d); [|apply preserves_ret, _].
    apply preserves_bind; [apply _| |intros; apply preserves_ret, _].
    unfold add_no_display. destruct dry_run; simpl; [apply preserves_ret, _|].
    apply preserves_try; [apply _| |intros []; apply preserves_raise, _].
    apply preserves_bind; [apply _|apply fs_read_rel; first [apply _|frame_side]|].
    intros c. apply fs_write_rel; first [apply _|frame_side].
Qed.

Lemma hide_file_quiet (dry_run : bool) (app_name d : string) (n : nat) (s : state)
    (r : nat) (s' : state) :
  hide_file home io_fails dry_run app_name d n s = (Ok r, s') → log s' = log s →
  Script.hide_file home io_fails dry_run app_name d n s = (Ok r, s').
Proof.
  unfold hide_file, Script.hide_file. rewrite run_try.
  destruct (is_system d).
  - unfold create_hide_override, Script.create_hide_override.
    rewrite !run_bind. destruct dry_run; cbn [negb]; [by rewrite !run_ret|].
    rewrite run_try.
    pose proof (fs_write_same_log
                  (PathStr.joinpath (user_apps_dir home) (PathStr.name d))
                  (override_content app_name) s) as Hl. unfold same_proj in Hl.
    destruct (fs_write io_fails _ _ s) as [[[]|e] s1]; simpl in *; [done|].
    destruct e; simpl; intros [= <- <-] Hlog;
      destruct (add_log_not_same _ _ _ Hl Hlog).
  - destruct (is_user home d); [|done].
    unfold add_no_display, Script.add_no_display.
    rewrite !run_bind. destruct dry_run; [by rewrite !run_ret|].
    rewrite !run_try, run_bind.
    pose proof (fs_read_same_log d s) as Hl. unfold same_proj in Hl.
    destruct (fs_read io_fails d s) as [[c|e] s1]; simpl in *.
    + pose proof (fs_write_same_log d (add_no_display_text c) s1) as Hl2.
      unfold same_proj in Hl2.
      destruct (fs_write io_fails d (add_no_display_text c) s1) as [[[]|e] s2];
        simpl in *; [done|].
      destruct e; simpl; intros [= <- <-] Hlog; rewrite <-Hl in Hlog;
        destruct (add_log_not_same _ _ _ Hl2 Hlog).
    + destruct e; simpl; intros [= <- <-] Hlog;
        destruct (add_log_not_same _ _ _ Hl Hlog).
Qed.

Lemma hide_group_log_grows (dry_run : bool) (g : string * list string) (n : nat) :
  preserves log_grows (hide_group home io_fails dry_run g n).
Proof.
  destruct g as [app_name files]. unfold hide_group.
  destruct (sorted (sort_key home) files); [apply preserves_raise, _|].
  apply preserves_for_each; [apply _|]. intros. apply hide_file_log_grows.
Qed.

Lemma hide_group_quiet (dry_run : bool) (g : string * list string) (n : nat)
    (s : state) (r : nat) (s' : state) :
  hide_group home io_fails dry_run g n s = (Ok r, s') → log s' = log s →
  Script.hide_group home io_fails dry_run g n s = (Ok r, s').
Proof.
  destruct g as [app_name files]. unfold hide_group, Script.hide_group.
  destruct (sorted (sort_key home) files); [done|].
  apply for_each_quiet.
  - intros. apply hide_file_log_grows.
  - intros x a t1 r0 t2 _. apply hide_file_quiet.
Qed.

Lemma script_hide_quiet (dry_run : bool) (duplicates : list (string * list string))
    (st : state) (n : nat) (st' : state) :
  hide_duplicate_applications home io_fails dry_run duplicates st = (Ok n, st') →
  log st' = log st →
  Script.hide_duplicate_applications home io_fails dry_run duplicates st = (Ok tt, st').
Proof.
  intros Hrun Hlog. unfold hide_duplicate_applications in Hrun. rewrite run_bind in Hrun.
  destruct (for_each duplicates (hide_group home io_fails dry_run) 0 st)
    as [[n1|e] s1] eqn:E1; [|done].
  rewrite run_bind, run_modify, run_ret in Hrun. injection Hrun as <- <-.
  cbn [set_duplicates_hidden set_stats log] in Hlog.
  unfold Script.hide_duplicate_applications. rewrite run_bind.
  rewrite (for_each_quiet _ _ (Script.hide_group home io_fails dry_run) _ _ _ _
             (λ x a _, hide_group_log_grows dry_run x a)
             (λ x a s r s' _, hide_group_quiet dry_run x a s r s') E1 Hlog).
  by rewrite run_modify.
Qed.

(** *** The association stage *)

(** The two forms of the per-file function run the same steps; the package
    turns a failure into [BackupError], the script logs it and returns 0. *)
Lemma script_clean_mime_file_run (dry_run : bool) (f : string) (st : state) :
  Script.clean_mime_file io_fails dry_run f st =
  match clean_mime_file io_fails dry_run f st with
  | (Ok _, st') => (Ok 1, st')
  | (Raise _, st') => (Ok 0, add_log (ErrClean f OSError) st')
  end.
Proof.
  unfold Script.clean_mime_file, clean_mime_file. rewrite !run_try, !run_bind.
  destruct (prim_raise_oserror io_fails) as (_ & _ & Hr & Hw & Hc).
  destruct dry_run; cbn [negb].
  - rewrite !run_ret, !run_bind.
    destruct (fs_read io_fails f st) as [[c|e] s1] eqn:E; simpl; [done|].
    by destruct (Hr _ _ _ _ E) as [-> _].
  - rewrite !run_bind.
    destruct (fs_copy io_fails f _ st) as [[[]|e] s1] eqn:E1; simpl.
    2:{ by destruct (Hc _ _ _ _ _ E1) as [-> _]. }
    rewrite !run_bind.
    destruct (fs_read io_fails f (incr_backups_created s1)) as [[c|e] s2] eqn:E2; simpl.
    2:{ by destruct (Hr _ _ _ _ E2) as [-> _]. }
    rewrite !run_bind.
    destruct (fs_write io_fails f (clean_content c) s2) as [[[]|e] s3] eqn:E3; simpl;
      [done|].
    by destruct (Hw _ _ _ _ _ E3) as [-> _].
Qed.

Lemma clean_mime_step_quiet_script (dry_run : bool) (f : string) (n : nat) (s : state)
    (r : nat) (s' : state) :
  clean_mime_step io_fails dry_run f n s = (Ok r, s') → log s' = log s →
  Script.clean_mime_step io_fails dry_run f n s = (Ok r, s').
Proof.
  rewrite clean_mime_step_run. unfold Script.clean_mime_step.
  rewrite run_bind, run_get. destruct (exists_ (disk s) f); [|done].
  rewrite run_bind, script_clean_mime_file_run.
  pose proof (clean_mime_file_same_log io_fails dry_run f s) as Hl.
  unfold same_proj in Hl.
  destruct (clean_mime_file_outcome io_fails dry_run f s) as [H|[H _]];
    destruct (clean_mime_file io_fails dry_run f s) as [[b|e] s1];
    simpl in H, Hl; simplify_eq.
  - by rewrite run_ret.
  - intros [= <- <-] Hlog. destruct (add_log_not_same _ _ _ Hl Hlog).
Qed.

End ScriptStages.

Section ScriptRun.
Context (home : string) (io_fails : io_op → bool).
Context (update_desktop_database update_mime_database :
           string → gmap string node → nat * gmap string node).

Lemma clean_mime_step_log_grows (dry_run : bool) (f : string) (n : nat) :
  preserves log_grows (clean_mime_step io_fails dry_run f n).
Proof. apply clean_mime_step_rel; first [apply _|frame_side]. Qed.

Lemma script_mime_quiet (dry_run : bool) (st : state) (n : nat) (st' : state) :
  clean_mime_duplicates home io_fails dry_run st = (Ok n, st') → log st' = log st →
  Script.clean_mime_duplicates home io_fails dry_run st = (Ok tt, st').
Proof.
  intros Hrun Hlog. unfold clean_mime_duplicates in Hrun. rewrite run_bind in Hrun.
  destruct (for_each [user_mime_file home; config_mime_file home]
              (clean_mime_step io_fails dry_run) 0 st) as [[n1|e] s1] eqn:E1; [|done].
  rewrite run_bind, run_modify, run_ret in Hrun. injection Hrun as <- <-.
  cbn [set_mime_duplicates_cleaned set_stats log] in Hlog.
  unfold Script.clean_mime_duplicates. rewrite run_bind.
  rewrite (for_each_quiet _ _ (Script.clean_mime_step io_fails dry_run) _ _ _ _
             (λ x a _, clean_mime_step_log_grows dry_run x a)
             (λ x a s r s' _, clean_mime_step_quiet_script io_fails dry_run x a s r s')
             E1 Hlog).
  by rewrite run_modify.
Qed.

Lemma script_caches_quiet (dry_run : bool) (st : state) (st' : state) :
  update_caches home update_desktop_database update_mime_database dry_run st
  = (Ok tt, st') →
  log st' = log st →
  Script.update_caches home update_desktop_database update_mime_database dry_run st
  = (Ok tt, st').
Proof.
  unfold update_caches, Script.update_caches. destruct dry_run; cbn [negb]; [done|].
  rewrite !run_bind, !run_get.
  destruct (update_desktop_database (user_apps_dir home) (disk st)) as [result m] eqn:E1.
  rewrite !run_bind, !run_modify. cbn [snd].
  case_bool_decide as Hres.
  - rewrite !run_bind, !run_modify, !run_bind, !run_get.
    cbn [add_log set_disk disk log stats].
    destruct (exists_ m (PathStr.joinpath home ".local/share/mime")).
    + destruct (update_mime_database _ m) as [result2 m2] eqn:E2.
      rewrite !run_bind, !run_modify. case_bool_decide.
      * rewrite run_modify. intros [= <-] Hlog. simpl in Hlog.
        apply (f_equal length) in Hlog. rewrite !length_app in Hlog. simpl in Hlog. lia.
      * rewrite run_ret. intros [= <-] Hlog. simpl in Hlog.
        apply (f_equal length) in Hlog. rewrite !length_app in Hlog. simpl in Hlog. lia.
    + rewrite run_ret. intros [= <-] Hlog. simpl in Hlog.
      apply (f_equal length) in Hlog. rewrite !length_app in Hlog. simpl in Hlog. lia.
  - rewrite !run_bind, !run_ret, !run_bind, !run_get.
    cbn [set_disk disk log stats].
    destruct (exists_ m (PathStr.joinpath home ".local/share/mime")); [|done].
    destruct (update_mime_database _ m) as [result2 m2] eqn:E2.
    rewrite !run_bind, !run_modify. cbn [snd]. case_bool_decide; [|done].
    rewrite run_modify. intros [= <-] Hlog. simpl in Hlog.
    apply (f_equal length) in Hlog. rewrite !length_app in Hlog. simpl in Hlog. lia.
Qed.

End ScriptRun.

(** [X15] The script and the package agree on every run of the package that
    logs nothing: whenever [run] of the package returns without a new
    warning or error in the log, [run] of the standalone script, started in
    the same state, returns too and ends in the same state, with the same
    store and the same statistics. *)
Theorem script_run_agrees (home : string) (io_fails : io_op → bool)
    (update_desktop_database update_mime_database :
       string → gmap string node → nat * gmap string node)
    (dry_run : bool) (st : state) (s : Stats) (st' : state) :
  run home io_fails update_desktop_database update_mime_database dry_run st
  = (Ok s, st') →
  log st' = log st →
  Script.run home io_fails update_desktop_database update_mime_database dry_run st
  = (Ok tt, st').
Proof.
  intros Hrun Hlog.
  destruct (run_stages_decompose home io_fails dry_run st)
    as (n1 & r1 & dups & r2 & n3 & r3 & n4 & r4 & R1 & R2 & _ & R3 & R4 & Rst).
  assert (log_grows st r1) as G1
    by (eapply (preserves_run log_grows); [|exact R1];
        apply remove_wine_files_rel; [apply _|frame_side..]).
  assert (log_grows r1 r2) as G2
    by (eapply (preserves_run log_grows); [|exact R2];
        apply find_duplicate_applications_rel; [apply _|frame_side..]).
  assert (log_grows r2 r3) as G3
    by (eapply (preserves_run log_grows); [|exact R3];
        apply hide_duplicate_applications_rel; [apply _|frame_side..]).
  assert (log_grows r3 r4) as G4
    by (eapply (preserves_run log_grows); [|exact R4];
        apply clean_mime_duplicates_rel; [apply _|frame_side..]).
  assert (∃ r5, (if negb dry_run
                 then update_caches home update_desktop_database update_mime_database
                        dry_run
                 else mret tt) r4 = (Ok tt, r5) ∧ st' = r5 ∧ log_grows r4 r5)
    as (r5 & R5 & -> & G5).
  { destruct dry_run.
    - rewrite (run_of_stages_dry _ _ _ _ _ _ Rst) in Hrun. injection Hrun as _ <-.
      exists r4. by split_and!.
    - destruct (run_of_stages_real home io_fails update_desktop_database
                  update_mime_database st r4 Rst) as (r5 & R5 & Rrun).
      rewrite Rrun in Hrun. injection Hrun as _ <-. exists r5. split_and!; [done|done|].
      by apply update_caches_keeps_stats in R5 as [_ ?]. }
  assert (log r1 = log st) as L1.
  { eapply (log_grows_squeeze st r1 r5); [done| |done].
    by do 3 (etrans; [eassumption|]). }
  assert (log r2 = log st) as L2.
  { eapply (log_grows_squeeze st r2 r5); [| |done].
    - by do 1 (etrans; [eassumption|]).
    - by do 2 (etrans; [eassumption|]). }
  assert (log r3 = log st) as L3.
  { eapply (log_grows_squeeze st r3 r5); [| |done].
    - by do 2 (etrans; [eassumption|]).
    - by do 1 (etrans; [eassumption|]). }
  assert (log r4 = log st) as L4.
  { eapply (log_grows_squeeze st r4 r5); [|done|done].
    by do 3 (etrans; [eassumption|]). }
  unfold Script.run. rewrite run_try, run_bind.
  rewrite (script_purge_quiet home io_fails dry_run st n1 r1 R1 L1).
  rewrite run_bind, R2, run_bind.
  rewrite (script_hide_quiet home io_fails dry_run dups r2 n3 r3 R3) by congruence.
  rewrite run_bind.
  rewrite (script_mime_quiet home io_fails dry_run r3 n4 r4 R4) by congruence.
  destruct dry_run; cbn [negb] in *; [done|].
  by rewrite (script_caches_quiet home update_desktop_database update_mime_database
                false r4 r5 R5) by congruence.
Qed.

Lemma script_run_agrees_witness :
  ∃ st',
    Script.run "/home/u" no_failure no_indexer no_indexer false
      (mkState (<["/home/u/.local/share/applications" := Dir]>
                (<["/home/u/.local/share/applications/wine-extension-txt.desktop"
                     := File (text_of ["[Desktop Entry]"; "Name=Notepad"])]> ∅))
         stats0 [])
    = (Ok tt, st') ∧
    stats st' = mkStats 1 0 0 0.
Proof.
  eexists. split.
  - apply (script_run_agrees "/home/u" no_failure no_indexer no_indexer false _
             (mkStats 1 0 0 0)).
    + vm_compute. reflexivity.
    + vm_compute. reflexivity.
  - vm_compute. reflexivity.
Defined.

(** * Where the script differs from the package *)

Lemma for_each_raise {A S} (l : list A) (body : A → S → M S) (acc : S) (st : state)
    (e : exn) (st' : state) :
  for_each l body acc st = (Raise e, st') →
  ∃ x a s, x ∈ l ∧ body x a s = (Raise e, st').
Proof.
  revert acc st. induction l as [|x l IH]; intros acc st; [done|].
  cbn [for_each]. rewrite run_bind.
  destruct (body x acc st) as [[a1|e1] s1] eqn:E1.
  - intros (y & a & s & Hy & H)%IH. exists y, a, s. split; [by right|done].
  - intros [= -> ->]. exists x, acc, st. split; [by left|done].
Qed.

Section ScriptPurge.
Context (home : string) (io_fails : io_op → bool).

Lemma script_remove_file_stats (dry_run : bool) (p : string) (n : nat) :
  preserves (same_proj stats) (Script.remove_file io_fails dry_run p n).
Proof.
  unfold Script.remove_file.
  apply preserves_bind; [apply _| |intros; apply preserves_ret, _].
  destruct dry_run; cbn [negb]; [apply preserves_ret, _|].
  apply fs_unlink_rel; first [apply _|frame_side].
Qed.

Lemma script_remove_pattern_stats (dry_run : bool) (pat : string * string) (n : nat) :
  preserves (same_proj stats) (Script.remove_pattern home io_fails dry_run pat n).
Proof.
  unfold Script.remove_pattern.
  apply preserves_bind; [apply _|apply preserves_get, _|]. intros st.
  apply preserves_for_each; [apply _|]. intros. apply script_remove_file_stats.
Qed.

Lemma script_remove_backup_dir_stats (dry_run : bool) (d : string) (n : nat) :
  preserves (same_proj stats) (Script.remove_backup_dir io_fails dry_run d n).
Proof.
  unfold Script.remove_backup_dir.
  apply preserves_bind; [apply _|apply preserves_get, _|]. intros st.
  destruct (is_dir (disk st) d); [|apply preserves_ret, _].
  case_bool_decide; [|apply preserves_ret, _].
  apply preserves_bind; [apply _| |intros; apply preserves_ret, _].
  destruct dry_run; cbn [negb]; [apply preserves_ret, _|].
  apply fs_rmtree_rel; first [apply _|frame_side].
Qed.

Lemma script_remove_file_raise (dry_run : bool) (p : string) (n : nat) (s : state)
    (e : exn) (s' : state) :
  Script.remove_file io_fails dry_run p n s = (Raise e, s') →
  e = OSError ∧ dry_run = false.
Proof.
  unfold Script.remove_file. rewrite run_bind. destruct dry_run; cbn [negb]; [done|].
  destruct (prim_raise_oserror io_fails) as (Hu & _).
  destruct (fs_unlink io_fails p s) as [[[]|e1] s1] eqn:E; [done|].
  intros [= -> ->]. split; [|done]. by eapply Hu.
Qed.

Lemma script_remove_backup_dir_raise (dry_run : bool) (d : string) (n : nat)
    (s : state) (e : exn) (s' : state) :
  Script.remove_backup_dir io_fails dry_run d n s = (Raise e, s') →
  e = OSError ∧ dry_run = false.
Proof.
  unfold Script.remove_backup_dir. rewrite run_bind, run_get.
  destruct (is_dir (disk s) d); [|done]. case_bool_decide; [|done].
  rewrite run_bind. destruct dry_run; cbn [negb]; [done|].
  destruct (prim_raise_oserror io_fails) as (_ & Hr & _).
  destruct (fs_rmtree io_fails d s) as [[[]|e1] s1] eqn:E; [done|].
  intros [= -> ->]. split; [|done]. by eapply Hr.
Qed.

Lemma script_purge_raise (dry_run : bool) (st : state) (e : exn) (st' : state) :
  Script.remove_wine_files home io_fails dry_run st = (Raise e, st') →
  e = OSError ∧ dry_run = false ∧ stats st' = stats st.
Proof.
  unfold Script.remove_wine_files. rewrite run_bind.
  destruct (for_each wine_patterns (Script.remove_pattern home io_fails dry_run) 0 st)
    as [[n1|e1] s1] eqn:E1.
  - assert (stats s1 = stats st) as Hs1.
    { eapply (preserves_run (same_proj stats)); [|exact E1].
      apply preserves_for_each; [apply _|]. intros. apply script_remove_pattern_stats. }
    rewrite run_bind, run_get, run_bind.
    destruct (for_each _ (Script.remove_backup_dir io_fails dry_run) n1 s1)
      as [[n2|e2] s2] eqn:E2; [done|].
    assert (stats s2 = stats s1) as Hs2.
    { eapply (preserves_run (same_proj stats)); [|exact E2].
      apply preserves_for_each; [apply _|]. intros.
      apply script_remove_backup_dir_stats. }
    intros [= <- <-].
    apply for_each_raise in E2 as (d & a & s & _ & Hd).
    apply script_remove_backup_dir_raise in Hd as [-> ->]. split_and!; congruence.
  - assert (stats s1 = stats st) as Hs1.
    { eapply (preserves_run (same_proj stats)); [|exact E1].
      apply preserves_for_each; [apply _|]. intros. apply script_remove_pattern_stats. }
    intros [= <- <-].
    apply for_each_raise in E1 as (pat & a & s & _ & Hp).
    unfold Script.remove_pattern in Hp. rewrite run_bind, run_get in Hp.
    apply for_each_raise in Hp as (p & a' & s' & _ & Hp).
    apply script_remove_file_raise in Hp as [-> ->]. by split_and!.
Qed.

End ScriptPurge.

(** [X16] In the script a deletion that fails ends the run.  Whenever its
    purge raises, the run is not a dry-run, the exception is the [OSError]
    of the deletion, no counter has been updated, and [run] logs the
    failure and raises the same exception, so that the later stages do not
    run; the package, started in the same state, returns its statistics. *)
Theorem script_purge_stops (home : string) (io_fails : io_op → bool)
    (update_desktop_database update_mime_database :
       string → gmap string node → nat * gmap string node)
    (dry_run : bool) (st : state) (e : exn) (st' : state) :
  Script.remove_wine_files home io_fails dry_run st = (Raise e, st') →
  e = OSError ∧ dry_run = false ∧ stats st' = stats st ∧
  Script.run home io_fails update_desktop_database update_mime_database dry_run st
  = (Raise OSError, add_log (ErrRun OSError) st') ∧
  ∃ s st'',
    run home io_fails update_desktop_database update_mime_database dry_run st
    = (Ok s, st'').
Proof.
  intros Hraise.
  destruct (script_purge_raise home io_fails dry_run st e st' Hraise) as (-> & -> & Hs).
  split_and!; [done|done|done| |].
  - unfold Script.run. by rewrite run_try, run_bind, Hraise.
  - apply total_raise_free, run_total.
Qed.

Lemma script_purge_stops_witness :
  let io := λ op, bool_decide (op = OpUnlink "/home/u/.local/share/applications/wine-extension-a.desktop") in
  let st := mkState (<["/home/u/.local/share/applications/wine-extension-a.desktop"
                        := File ""%string]> ∅) stats0 [] in
  Script.run "/home/u" io no_indexer no_indexer false st
  = (Raise OSError, add_log (ErrRun OSError) st).
Proof.
  intros io st.
  destruct (script_purge_stops "/home/u" io no_indexer no_indexer false st OSError st)
    as (_ & _ & _ & H & _); [vm_compute; reflexivity|exact H].
Defined.

(** [X17] In the script a record below the user root that cannot be read
    or rewritten is still counted as hidden: [add_no_display] logs the
    failure itself and returns, and the caller adds one.  The package
    reports the failure from the caller and does not count the record. *)
Theorem script_counts_failed_rewrite (home : string) (io_fails : io_op → bool)
    (app_name d : string) (n : nat) (st : state) :
  is_system d = false →
  is_user home d = true →
  read_ok io_fails (disk st) d = false →
  Script.hide_file home io_fails false app_name d n st
  = (Ok (n + 1), add_log (ErrHide d OSError) st) ∧
  hide_file home io_fails false app_name d n st
  = (Ok n, add_log (ErrHide d CleanerError) st).
Proof.
  intros Hs Hu Hr.
  assert (fs_read io_fails d st = (Raise OSError, st)) as Hread.
  { unfold fs_read, read_ok in *. destruct (io_fails (OpRead d)); [done|].
    by destruct (disk st !! d) as [[c|]|]. }
  split.
  - unfold Script.hide_file. rewrite Hs, Hu. unfold Script.add_no_display.
    by rewrite run_bind, run_try, run_bind, Hread.
  - unfold hide_file. rewrite Hs, Hu. unfold add_no_display.
    by rewrite run_try, run_bind, run_try, run_bind, Hread.
Qed.

Lemma script_counts_failed_rewrite_witness :
  Script.hide_file "/home/u" no_failure false "A"
    "/home/u/.local/share/applications/a.desktop" 0 (mkState ∅ stats0 [])
  = (Ok (0 + 1),
     add_log (ErrHide "/home/u/.local/share/applications/a.desktop" OSError)
       (mkState ∅ stats0 [])) ∧
  hide_file "/home/u" no_failure false "A"
    "/home/u/.local/share/applications/a.desktop" 0 (mkState ∅ stats0 [])
  = (Ok 0,
     add_log (ErrHide "/home/u/.local/share/applications/a.desktop" CleanerError)
       (mkState ∅ stats0 [])).
Proof.
  apply (script_counts_failed_rewrite "/home/u" no_failure "A"
           "/home/u/.local/share/applications/a.desktop" 0 (mkState ∅ stats0 []));
    reflexivity.
Defined.


(** [X19] An answer other than [y] or [yes] at the prompt leaves the store
    untouched in both command lines, but the exit codes differ: the script
    returns 1 and the package's [main] returns 0. *)
Theorem script_main_cancelled (home : string) (io_fails : io_op → bool)
    (update_desktop_database update_mime_database :
       string → gmap string node → nat * gmap string node)
    (mkdir_parents : string → gmap string node → option (gmap string node))
    (args : Args) (response : string) (st : state) :
  args_auto args = false →
  args_dry_run args = false →
  confirmed response = false →
  Script.main home io_fails update_desktop_database update_mime_database mkdir_parents
    args (Typed response) st = (Returns 1, st) ∧
  main home io_fails update_desktop_database update_mime_database mkdir_parents
    args (Typed response) st = (Returns 0, st).
Proof.
  intros Hauto Hdry Hno. unfold Script.main, main.
  by rewrite Hauto, Hdry, Hno.
Qed.

Lemma script_main_cancelled_witness :
  Script.main "/home/u" no_failure no_indexer no_indexer (λ _ m, Some m)
    (mkArgs false true false) (Typed "n") (mkState ∅ stats0 [])
  = (Returns 1, mkState ∅ stats0 []) ∧
  main "/home/u" no_failure no_indexer no_indexer (λ _ m, Some m)
    (mkArgs false true false) (Typed "n") (mkState ∅ stats0 [])
  = (Returns 0, mkState ∅ stats0 []).
Proof.
  apply (script_main_cancelled "/home/u" no_failure no_indexer no_indexer
           (λ _ m, Some m) (mkArgs false true false) "n" (mkState ∅ stats0 []));
    reflexivity.
Defined.

(** * Suppressed records and the next scan *)



(** [X21] When the resolver suppresses a record below the system root and
    the shadow file below the user root can be written, the record is
    counted, the shadow file holds the stub and nothing else changes; for
    an application name without a line break the shadow file is not a
    visible application under any name, while the record itself is left as
    the scan found it. *)
Theorem suppressed_system_record_shadow (home : string) (io_fails : io_op → bool)
    (app_name d : string) (n : nat) (st : state) :
  is_system d = true →
  Str.startswith home system_apps_dir = false →
  io_fails (OpWrite (PathStr.joinpath (user_apps_dir home) (PathStr.name d))) = false →
  disk st !! PathStr.joinpath (user_apps_dir home) (PathStr.name d) ≠ Some Dir →
  Str.has_char Str.newline app_name = false →
  let shadow := PathStr.joinpath (user_apps_dir home) (PathStr.name d) in
  ∃ st',
    hide_file home io_fails false app_name d n st = (Ok (n + 1), st') ∧
    disk st' = <[shadow := File (override_content app_name)]> (disk st) ∧
    stats st' = stats st ∧ log st' = log st ∧
    (∀ name, ¬ visible_as io_fails (disk st') shadow name) ∧
    (∀ name, visible_as io_fails (disk st') d name ↔ visible_as io_fails (disk st) d name).
Proof.
  intros Hs Hhome Hw Hdir Hname. cbv zeta.
  set (shadow := PathStr.joinpath (user_apps_dir home) (PathStr.name d)) in *.
  exists (set_disk (<[shadow := File (override_content app_name)]> (disk st)) st).
  assert (shadow ≠ d) as Hne.
  { intros Heq.
    pose proof (Layout.joinpath_user_is_user home (PathStr.name d)) as Hu.
    fold shadow in Hu. rewrite Heq in Hu.
    pose proof (Layout.roles_exclusive home Hhome d Hs). congruence. }
  split_and!; try done.
  - unfold hide_file. rewrite Hs, run_try, run_bind. unfold create_hide_override.
    cbn [negb]. rewrite run_try. unfold fs_write. fold shadow. rewrite Hw.
    by destruct (disk st !! shadow) as [[?|]|].
  - intros name (c' & _ & Hc' & _ & _ & Hnd). simpl in Hc'.
    rewrite lookup_insert_eq in Hc'. injection Hc' as <-.
    rewrite override_content_readlines in Hnd by done.
    apply Hnd. reflexivity.
  - intros name. unfold visible_as. simpl. by rewrite lookup_insert_ne.
Qed.

Lemma suppressed_system_record_shadow_witness :
  ∃ st',
    hide_file "/home/u" no_failure false "A" "/usr/share/applications/a.desktop" 0
      (mkState ∅ stats0 []) = (Ok (0 + 1), st') ∧
    disk st' = <["/home/u/.local/share/applications/a.desktop"
                  := File (override_content "A")]> ∅.
Proof.
  destruct (suppressed_system_record_shadow "/home/u" no_failure "A"
              "/usr/share/applications/a.desktop" 0 (mkState ∅ stats0 []))
    as (st' & H1 & H2 & _); [reflexivity|reflexivity|reflexivity|done|reflexivity|].
  exists st'. split; [exact H1|exact H2].
Defined.
